(** * algo: price cache, merge, canonicalisation and the vectorised backtest

    A shallow embedding of [algo/data/prices.py] and
    [algo/backtest/engine_fast.py], together with the part of
    [algo/symbols/registry.py] the fallback controller calls, the trend
    strategy of [algo/strategies/sma_trend.py], the steps of
    [algo/scripts/run_backtest.py] that join strategy and backtest, and
    the two helpers of [algo/scripts/find_extreme_returns.py].

    pandas objects are modelled by what the code observes of them:
    - a [DataFrame] is a list of column labels and a list of rows, each row
      a timestamp (the index label) and one cell per column;
    - a [Series] is a list of timestamped cells;
    - a cell is an IEEE double idealised to an exact rational, extended with
      NaN and the two infinities (rounding is not modelled);
    - a Python exception is a value of [exn], and a function that can raise
      returns a [result].

    What the code leaves to its environment is a parameter of the model:
    - the order [sort_index] gives to rows of equal label (a [SortKind]:
      the default quicksort promises none);
    - the cache directory, a map from paths to files, with the folding of
      names by the file system and a parquet writer that, when it fails,
      says what it left at the path;
    - the answers of the two providers. *)

From Stdlib Require Import QArith Ascii.
From stdpp Require Import base option list sorting strings gmap.

#[local] Set Warnings "-register-all,-clear-no-such-hyp".
#[local] Open Scope string_scope.
#[local] Open Scope list_scope.
#[local] Open Scope Z_scope.

(** ** Exceptions *)

(** The exceptions the code raises or lets through.  The specification calls
    [ValueError "prices is empty"] EmptyInput, [MissingColumns] SchemaError
    and [RuntimeError] AllProvidersFailed.
    - [UnknownAssetKey], [NoIdentifier]: the two KeyErrors of the registry;
    - [MissingColumns]: the KeyError of [_canonicalize_ohlcv];
    - [TransportError]: whatever [requests] or [yfinance] raise;
    - [RuntimeError k e]: the RuntimeError of [_choose_provider_and_update],
      whose message holds the key and the last error caught. *)
Inductive exn :=
| ValueError (msg : string)
| KeyError (msg : string)
| TypeError (msg : string)
| UnknownAssetKey (key : string)
| NoIdentifier (key identifier : string)
| MissingColumns (missing have : list string)
| InvalidIndexError
| TransportError (msg : string)
| OSError (msg : string)
| RuntimeError (asset_key : string) (last_err : option exn).

Inductive result (A : Type) :=
| Ok (a : A)
| Raise (e : exn).
Arguments Ok {A} a.
Arguments Raise {A} e.

Definition rbind {A B} (m : result A) (k : A → result B) : result B :=
  match m with
  | Ok a => k a
  | Raise e => Raise e
  end.

Notation "x ←! m ; k" := (rbind m (λ x, k))
  (at level 20, m at level 100, k at level 200, right associativity,
   format "x  ←!  m ;  '/' k").

(** ** Cells *)

(** A cell of a numeric column: NaN, an infinity, or a finite value.  NaN,
    the infinities and the comparisons follow IEEE 754.  A finite value is
    carried as a rational in lowest terms and the four operations are
    exact: what is proved of a computed number is proved of that exact
    value, not of the double nearest to it. *)
Module Float.

Inductive float :=
| NaN
| Inf (neg : bool)
| Fin (q : Q).

Definition fin (q : Q) : float := Fin (Qred q).

Definition isna (x : float) : bool :=
  match x with NaN => true | _ => false end.

Definition is_neg (q : Q) : bool := Qnum q <? 0.
Definition is_zero (q : Q) : bool := Qnum q =? 0.

Definition fneg (x : float) : float :=
  match x with
  | NaN => NaN
  | Inf s => Inf (negb s)
  | Fin q => fin (- q)
  end.

Definition fadd (x y : float) : float :=
  match x, y with
  | NaN, _ | _, NaN => NaN
  | Inf s, Inf s' => if Bool.eqb s s' then Inf s else NaN
  | Inf s, Fin _ | Fin _, Inf s => Inf s
  | Fin a, Fin b => fin (a + b)
  end.

Definition fsub (x y : float) : float := fadd x (fneg y).

Definition fmul (x y : float) : float :=
  match x, y with
  | NaN, _ | _, NaN => NaN
  | Inf s, Inf s' => Inf (xorb s s')
  | Inf s, Fin q | Fin q, Inf s =>
      if is_zero q then NaN else Inf (xorb s (is_neg q))
  | Fin a, Fin b => fin (a * b)
  end.

Definition fdiv (x y : float) : float :=
  match x, y with
  | NaN, _ | _, NaN => NaN
  | Inf _, Inf _ => NaN
  | Inf s, Fin q => Inf (xorb s (is_neg q))
  | Fin _, Inf _ => Fin 0
  | Fin a, Fin b =>
      if is_zero b then (if is_zero a then NaN else Inf (is_neg a))
      else fin (a / b)
  end.

End Float.
Export Float.

(** ** pandas *)

Abbreviation Timestamp := Z.

Record Frame (A : Type) := mkFrame {
  columns : list string;
  rows : list (Timestamp * list A)
}.
Arguments mkFrame {A} columns rows.
Arguments columns {A} f.
Arguments rows {A} f.

Abbreviation DataFrame := (Frame float).
Abbreviation Series := (list (Timestamp * float)).

Module Pandas.

Definition index {A} (df : Frame A) : list Timestamp := (rows df).*1.

(** [df.empty]: an axis of length zero. *)
Definition empty {A} (df : Frame A) : bool :=
  match rows df, columns df with
  | [], _ | _, [] => true
  | _, _ => false
  end.

(** [sort_index()]: ascending by label, with the default
    [kind="quicksort"].  An index that already ascends (equal neighbours
    allowed) is returned as it stands: pandas tests
    [is_monotonic_increasing] before it sorts.  Otherwise the rows are
    taken in the order numpy's [argsort] gives for the labels, and of that
    order the default kind promises two things only: it is a rearrangement
    of the positions, and the labels ascend along it.  Rows with equal
    labels may come out in either order.  A [SortKind] is any such
    [argsort]. *)
Class SortKind := {
  argsort : list Timestamp → list nat;
  argsort_perm keys : argsort keys ≡ₚ seq 0 (length keys);
  argsort_sorted keys :
    StronglySorted Z.le (omap (λ i, keys !! i) (argsort keys))
}.

Fixpoint is_monotonic_increasing (keys : list Timestamp) : bool :=
  match keys with
  | [] => true
  | t :: keys' =>
      match keys' with
      | [] => true
      | t' :: _ => (t <=? t') && is_monotonic_increasing keys'
      end
  end.

(** [df.take(indexer)] on the rows. *)
Definition take_rows {A} (l : list A) (indexer : list nat) : list A :=
  omap (λ i, l !! i) indexer.

Definition sort_rows {sort_kind : SortKind} {A} (l : list (Timestamp * A))
  : list (Timestamp * A) :=
  if is_monotonic_increasing l.*1 then l else take_rows l (argsort l.*1).

Definition sort_index {sort_kind : SortKind} {A} (df : Frame A) : Frame A :=
  mkFrame (columns df) (sort_rows (rows df)).

(** A stable insertion sort: rows with equal labels keep the order they
    had.  This is the order numpy's quicksort gives to at most 17 labels;
    it stands in for the runs of [aquicksort] below that are not
    modelled. *)
Fixpoint insert_row {A} (x : Timestamp * A) (l : list (Timestamp * A)) :=
  match l with
  | [] => [x]
  | y :: l' => if x.1 <=? y.1 then x :: l else y :: insert_row x l'
  end.

Definition insertion_sort {A} (l : list (Timestamp * A))
  : list (Timestamp * A) :=
  foldr insert_row [] l.

Definition insertion_argsort (keys : list Timestamp) : list nat :=
  (insertion_sort (zip keys (seq 0 (length keys)))).*2.

(** *** numpy's quicksort

    [kind="quicksort"] on an index of integers runs the [aquicksort] of
    numpy's [npysort/quicksort.cpp] on the array [tosort] of positions
    [0 .. n-1], comparing the labels [v] they point to: a median of three
    as pivot, an exchange partition, the longer part pushed on a stack, and
    an insertion sort once at most 17 positions lie between the bounds
    ([SMALL_QUICKSORT] is 16).  Each loop of the C code is a function with
    fuel here; [at_ a p] is [v[*p]]. *)
Section aquicksort.

Variable v : list Timestamp.

Definition at_ (a : list nat) (p : nat) : Timestamp := v !!! (a !!! p).

Definition swap (a : list nat) (p q : nat) : list nat :=
  <[p := a !!! q]> (<[q := a !!! p]> a).

(** [do { ++pi; } while (v[*pi] < vp);] *)
Fixpoint scan_up (fuel : nat) (a : list nat) (vp : Timestamp) (pi : nat) : nat :=
  match fuel with
  | O => pi
  | S fuel' =>
      let pi := S pi in
      if at_ a pi <? vp then scan_up fuel' a vp pi else pi
  end.

(** [do { --pj; } while (vp < v[*pj]);] *)
Fixpoint scan_down (fuel : nat) (a : list nat) (vp : Timestamp) (pj : nat) : nat :=
  match fuel with
  | O => pj
  | S fuel' =>
      let pj := pred pj in
      if vp <? at_ a pj then scan_down fuel' a vp pj else pj
  end.

(** The [for (;;)] of the partition: scan, stop when the scans meet, else
    exchange. *)
Fixpoint exchange (fuel : nat) (a : list nat) (vp : Timestamp) (pi pj : nat)
  : list nat * nat :=
  match fuel with
  | O => (a, pi)
  | S fuel' =>
      let pi := scan_up (length a) a vp pi in
      let pj := scan_down (length a) a vp pj in
      if (pj <=? pi)%nat then (a, pi)
      else exchange fuel' (swap a pi pj) vp pi pj
  end.

(** One turn of [while ((pr - pl) > SMALL_QUICKSORT)]: the array and the
    place of the pivot. *)
Definition partition (a : list nat) (pl pr : nat) : list nat * nat :=
  let pm := (pl + (pr - pl) / 2)%nat in
  let a := if at_ a pm <? at_ a pl then swap a pm pl else a in
  let a := if at_ a pr <? at_ a pm then swap a pr pm else a in
  let a := if at_ a pm <? at_ a pl then swap a pm pl else a in
  let vp := at_ a pm in
  let a := swap a pm (pr - 1)%nat in
  let '(a, pi) := exchange (length a) a vp pl (pr - 1)%nat in
  (swap a pi (pr - 1)%nat, pi).

(** [while (pj > pl && vp < v[*pk]) { *pj-- = *pk--; } *pj = vi;] *)
Fixpoint sift (fuel : nat) (a : list nat) (vi : nat) (vp : Timestamp)
    (pl pj : nat) : list nat :=
  match fuel with
  | O => <[pj := vi]> a
  | S fuel' =>
      if (pl <? pj)%nat && (vp <? at_ a (pred pj))
      then sift fuel' (<[pj := a !!! pred pj]> a) vi vp pl (pred pj)
      else <[pj := vi]> a
  end.

(** The insertion sort of the positions [pl .. pr]. *)
Definition insertion (a : list nat) (pl pr : nat) : list nat :=
  foldl (λ a pi, let vi := a !!! pi in sift (length a) a vi (v !!! vi) pl pi)
    a (seq (S pl) (pr - pl)%nat).

(** The outer loop.  [stack] holds the bounds pushed and the depth left at
    the push.  [None]: the depth limit is passed, where numpy turns to its
    heapsort, which is not modelled; or the fuel is spent. *)
Fixpoint quick (fuel : nat) (a : list nat) (pl pr : nat)
    (stack : list (nat * nat * Z)) (cdepth : Z) : option (list nat) :=
  match fuel with
  | O => None
  | S fuel' =>
      if (16 <? pr - pl)%nat then
        let '(a, pi) := partition a pl pr in
        if (pi - pl <? pr - pi)%nat
        then quick fuel' a pl (pi - 1)%nat ((S pi, pr, cdepth - 1) :: stack)
               (cdepth - 1)
        else quick fuel' a (S pi) pr ((pl, (pi - 1)%nat, cdepth - 1) :: stack)
               (cdepth - 1)
      else
        let a := insertion a pl pr in
        match stack with
        | [] => Some a
        | (pl, pr, cdepth) :: stack =>
            if cdepth <? 0 then None else quick fuel' a pl pr stack cdepth
        end
  end.

Definition aquicksort : option (list nat) :=
  let num := length v in
  quick (2 * num + 2)%nat (seq 0 num) 0%nat (num - 1)%nat []
    (2 * Z.log2 (Z.of_nat num)).

End aquicksort.

(** numpy's quicksort as an [argsort].  The test that the outcome orders
    the labels holds of every run of a quicksort; it stands for the proof
    of the algorithm, and with the insertion order covers the runs that
    are not modelled. *)
Definition numpy_argsort (keys : list Timestamp) : list nat :=
  match aquicksort keys with
  | Some a =>
      if bool_decide (a ≡ₚ seq 0 (length keys) ∧
                      StronglySorted Z.le (omap (λ i, keys !! i) a))
      then a else insertion_argsort keys
  | None => insertion_argsort keys
  end.

(** [df[~df.index.duplicated(keep="last")]] *)
Fixpoint drop_dup_rows {A} (l : list (Timestamp * A)) : list (Timestamp * A) :=
  match l with
  | [] => []
  | x :: l' =>
      if bool_decide (x.1 ∈ l'.*1) then drop_dup_rows l'
      else x :: drop_dup_rows l'
  end.

Definition drop_duplicated_last {A} (df : Frame A) : Frame A :=
  mkFrame (columns df) (drop_dup_rows (rows df)).

(** [df.loc[start:]] on a sorted index. *)
Fixpoint rows_from {A} (start : Timestamp) (l : list (Timestamp * A)) :=
  match l with
  | [] => []
  | x :: l' => if x.1 <? start then rows_from start l' else l
  end.

Definition loc_from {A} (start : Timestamp) (df : Frame A) : Frame A :=
  mkFrame (columns df) (rows_from start (rows df)).

(** First row, resp. last row, carrying a label. *)
Fixpoint assoc {A} (t : Timestamp) (l : list (Timestamp * A)) : option A :=
  match l with
  | [] => None
  | x :: l' => if bool_decide (x.1 = t) then Some x.2 else assoc t l'
  end.

Fixpoint last_at {A} (t : Timestamp) (l : list (Timestamp * A)) : option A :=
  match l with
  | [] => None
  | x :: l' =>
      match last_at t l' with
      | Some r => Some r
      | None => if bool_decide (x.1 = t) then Some x.2 else None
      end
  end.

Fixpoint position (c : string) (cols : list string) : option nat :=
  match cols with
  | [] => None
  | c' :: cols' =>
      if bool_decide (c' = c) then Some O else S <$> position c cols'
  end.

(** The cell of a row under a column label; NaN when the label is absent. *)
Definition cell_of (cols : list string) (r : list float) (c : string) : float :=
  match position c cols with
  | Some j => default NaN (r !! j)
  | None => NaN
  end.

Definition realign (target src : list string) (r : list float) : list float :=
  cell_of src r <$> target.

Definition nan_row (cols : list string) : list float := (λ _, NaN) <$> cols.

Definition duplicate_labels : exn :=
  ValueError "cannot reindex on an axis with duplicate labels".

(** [df.reindex(index=target)]: identical axes are returned as they are,
    a source axis with repeated labels is refused. *)
Definition reindex_index (target : list Timestamp) (df : DataFrame)
  : result DataFrame :=
  if bool_decide (index df = target) then Ok df
  else if bool_decide (NoDup (index df)) then
    Ok (mkFrame (columns df)
          ((λ t, (t, default (nan_row (columns df)) (assoc t (rows df))))
             <$> target))
  else Raise duplicate_labels.

(** [df.reindex(columns=target)] *)
Definition reindex_columns (target : list string) (df : DataFrame)
  : result DataFrame :=
  if bool_decide (columns df = target) then Ok df
  else if bool_decide (NoDup (columns df)) then
    Ok (mkFrame target
          ((λ x, (x.1, realign target (columns df) x.2)) <$> rows df))
  else Raise duplicate_labels.

Definition map_cells {A B} (f : A → B) (df : Frame A) : Frame B :=
  mkFrame (columns df)
    ((λ x : Timestamp * list A, (x.1, f <$> x.2)) <$> rows df).

Definition fillna (v : float) (df : DataFrame) : DataFrame :=
  map_cells (λ x, if isna x then v else x) df.

(** [df.shift(1)]: the labels stay, the values move down one row. *)
Definition shift1 (df : DataFrame) : DataFrame :=
  mkFrame (columns df)
    (zip (index df) (nan_row (columns df) :: (rows df).*2)).

(** [ffill]: a NaN cell takes the last valid value above it. *)
Fixpoint ffill_rows (prev : list float) (l : list (Timestamp * list float)) :=
  match l with
  | [] => []
  | x :: l' =>
      let r := zip_with (λ p v, if isna v then p else v) prev x.2 in
      (x.1, r) :: ffill_rows r l'
  end.

Definition ffill (df : DataFrame) : DataFrame :=
  mkFrame (columns df) (ffill_rows (nan_row (columns df)) (rows df)).

(** [data / data.shift(1) - 1] *)
Definition change (v p : float) : float := fsub (fdiv v p) (Fin 1).

Fixpoint change_rows (prev : list float) (l : list (Timestamp * list float)) :=
  match l with
  | [] => []
  | x :: l' => (x.1, zip_with change x.2 prev) :: change_rows x.2 l'
  end.

(** [df.pct_change()].  [pad] is the default fill method of the installed
    pandas: releases before 3.0 forward-fill NaN prices first. *)
Definition pct_change (pad : bool) (df : DataFrame) : DataFrame :=
  let data := if pad then ffill df else df in
  mkFrame (columns data) (change_rows (nan_row (columns data)) (rows data)).

(** [a * b] for frames that carry the same two axes: cell by cell. *)
Definition mul (a b : DataFrame) : DataFrame :=
  mkFrame (columns a)
    (zip_with (λ x y, (x.1, zip_with fmul x.2 y.2)) (rows a) (rows b)).

(** [df.sum(axis=1)]: NaN cells are skipped, an all-NaN row sums to 0. *)
Definition nansum (r : list float) : float :=
  foldl fadd (Fin 0) (filter (λ x, isna x = false) r).

Definition sum_axis1 (df : DataFrame) : Series :=
  (λ x, (x.1, nansum x.2)) <$> rows df.

Definition dropna (s : Series) : Series :=
  filter (λ x, isna x.2 = false) s.

Definition add_scalar (v : float) (s : Series) : Series :=
  (λ x, (x.1, fadd v x.2)) <$> s.

(** [s.cumprod()]: NaN entries stay NaN and do not enter the product. *)
Fixpoint cumprod_from (acc : float) (s : Series) : Series :=
  match s with
  | [] => []
  | x :: s' =>
      if isna x.2 then (x.1, NaN) :: cumprod_from acc s'
      else (x.1, fmul acc x.2) :: cumprod_from (fmul acc x.2) s'
  end.

Definition cumprod (s : Series) : Series := cumprod_from (Fin 1) s.

(** [pd.concat([a, b], axis=0)]: equal column axes are stacked as they
    are; different ones are joined (first-seen order) and both tables
    realigned, which pandas refuses when a label repeats. *)
Definition concat (a b : DataFrame) : result DataFrame :=
  if bool_decide (columns a = columns b) then
    Ok (mkFrame (columns a) (rows a ++ rows b))
  else if bool_decide (NoDup (columns a) ∧ NoDup (columns b)) then
    let u := columns a ++ filter (λ c, c ∉ columns a) (columns b) in
    Ok (mkFrame u
          (((λ x, (x.1, realign u (columns a) x.2)) <$> rows a) ++
           ((λ x, (x.1, realign u (columns b) x.2)) <$> rows b)))
  else Raise InvalidIndexError.

End Pandas.

(** ** algo/backtest/engine_fast.py *)

Module EngineFast.
Import Pandas.

Section kind.
Context {sort_kind : SortKind}.

Definition EmptyInput : exn := ValueError "prices is empty".

(** Lines 21-25: the sorted, clipped price history. *)
Definition clip_history (prices : DataFrame) (start_date : option Timestamp)
  : DataFrame :=
  let prices := sort_index prices in
  match start_date with
  | Some s => loc_from s prices
  | None => prices
  end.

(** Lines 30-34: the weights aligned to the price axes, then lagged. *)
Definition lagged_weights (prices weights_by_day : DataFrame)
  : result DataFrame :=
  w ←! reindex_index (index prices) weights_by_day;
  let w := fillna (Fin 0) w in
  w ←! reindex_columns (columns prices) w;
  let w := fillna (Fin 0) w in
  Ok (fillna (Fin 0) (shift1 w)).

(** Lines 27 and 36-37. *)
Definition portfolio_returns (pad : bool) (prices w : DataFrame) : Series :=
  let rets := pct_change pad prices in
  dropna (sum_axis1 (mul rets w)).

Definition run_backtest_fast_daily (pad : bool)
    (prices weights_by_day : DataFrame) (start_date : option Timestamp)
  : result Series :=
  if empty prices then Raise EmptyInput
  else
    let prices := clip_history prices start_date in
    w ←! lagged_weights prices weights_by_day;
    let port_rets := portfolio_returns pad prices w in
    Ok (cumprod (add_scalar (Fin 1) port_rets)).

End kind.

End EngineFast.

(** ** algo/symbols/registry.py *)

Module Registry.

Record Asset := mkAsset {
  key : string;
  kind : string;
  name : string;
  identifiers : gmap string string
}.

(** [AssetFile.assets]; [_by_key] is the dict comprehension over it, in
    which a later asset replaces an earlier one with the same key. *)
Definition by_key (assets : list Asset) : gmap string Asset :=
  foldl (λ m a, <[key a := a]> m) ∅ assets.

Definition get_asset (assets : list Asset) (k : string) : result Asset :=
  match by_key assets !! k with
  | Some a => Ok a
  | None => Raise (UnknownAssetKey k)
  end.

Definition get_identifier (assets : list Asset) (k identifier : string)
  : result string :=
  asset ←! get_asset assets k;
  match identifiers asset !! identifier with
  | Some sym => Ok sym
  | None => Raise (NoIdentifier k identifier)
  end.

Definition has_identifier (assets : list Asset) (k identifier : string)
  : result bool :=
  asset ←! get_asset assets k;
  Ok (bool_decide (is_Some (identifiers asset !! identifier))).

(** [list_asset_keys] and [list_asset_keys_by_kind]: the keys in file order. *)
Definition list_asset_keys (assets : list Asset) : list string :=
  key <$> assets.

Definition list_asset_keys_by_kind (assets : list Asset) (kinds : gset string)
  : list string :=
  key <$> filter (λ a, kind a ∈ kinds) assets.

End Registry.

(** ** algo/data/prices.py *)

Module Prices.
Import Pandas Registry.

(** [str.replace(old, new)], leftmost non-overlapping occurrences;
    [skip] counts the characters of a match still to be passed over. *)
Fixpoint replace_from (old new s : string) (skip : nat) : string :=
  match s with
  | EmptyString => EmptyString
  | String c s' =>
      match skip with
      | S k => replace_from old new s' k
      | O =>
          if String.prefix old s
          then new +:+ replace_from old new s' (String.length old - 1)
          else String c (replace_from old new s' O)
      end
  end.

Definition replace (old new s : string) : string := replace_from old new s O.

(** The one-character string holding the double quote. *)
Definition double_quote : string :=
  String (Ascii.ascii_of_nat 34) EmptyString.

Definition _asset_key_to_filename (asset_key : string) : string :=
  replace "|" "_"
    (replace ">" "_"
       (replace "<" "_"
          (replace double_quote "_"
             (replace "?" "_"
                (replace "*" "_"
                   (replace ":" "_"
                      (replace "\" "_"
                         (replace "/" "_" asset_key)))))))).

(** A path, as its components below the project root.  Which paths name
    one file is the file system's matter: see [normcase] below. *)
Definition Path := list string.

Definition data_dir : Path := ["data"].

Definition raw_cache_path (provider asset_key : string) : Path :=
  data_dir ++ ["raw_prices"; provider;
               _asset_key_to_filename asset_key +:+ ".parquet"].

(** *** Provider responses *)

(** A cell as the provider sent it: a number, or text that is no numeral. *)
Inductive raw :=
| RNum (x : float)
| RText (s : string).

(** [pd.to_numeric(_, errors="coerce")] on one cell. *)
Definition to_numeric (c : option raw) : float :=
  match c with
  | Some (RNum x) => x
  | Some (RText _) | None => NaN
  end.

(** [df[label]] as a column of a table with unique labels: the position of
    the label.  An absent label is a KeyError; a repeated one yields a
    table, which [to_numeric] refuses. *)
Definition getitem {A} (label : string) (df : Frame A) : result nat :=
  match position label (columns df) with
  | None => Raise (KeyError label)
  | Some j =>
      if bool_decide (length (filter (λ c, c = label) (columns df)) = 1%nat)
      then Ok j
      else Raise (TypeError "arg must be a list, tuple, 1-d array, or Series")
  end.

Definition day_ns : Z := 86400000000000.

Definition time_of_day (t : Timestamp) : Z := t `mod` day_ns.

(** [DatetimeIndex.normalize()]: midnight of the same day. *)
Definition normalize (t : Timestamp) : Timestamp := t - time_of_day t.

Definition normalize_index {A} (df : Frame A) : Frame A :=
  mkFrame (columns df) ((λ x, (normalize x.1, x.2)) <$> rows df).

(** [out.dropna(subset=["close"])] *)
Definition dropna_close (df : DataFrame) : DataFrame :=
  mkFrame (columns df)
    (filter (λ x, isna (cell_of (columns df) x.2 "close") = false) (rows df)).

Definition ohlcv : list string := ["open"; "high"; "low"; "close"; "volume"].

Definition NoYahooData : exn := ValueError "No Yahoo data".
Definition UnknownProvider : exn := ValueError "Unknown provider".

(** *** Files *)

(** What a path of the cache directory holds: a parquet table, or bytes
    that [pd.read_parquet] refuses with an error (a write that failed
    midway can leave such a file behind). *)
Inductive file :=
| Parquet (df : DataFrame)
| Damaged (e : exn).

Abbreviation Store := (gmap Path file).

(** The path under which the file system keeps a file: every component
    folded by [casefold].  The test of the repository expects a Windows
    path, where names that differ in the case of their letters name one
    file; on a POSIX system the folding is the identity. *)
Definition normcase (casefold : string → string) (path : Path) : Path :=
  casefold <$> path.

Section environment.

(** The sort kind of the numpy at hand, the loaded registry, the two
    providers, the file system and the parquet reader and writer.
    - [http_stooq sym]: the CSV answered for [sym], parsed, with its
      [Date] column as the index; [Raise] when the call or the parse
      fails;
    - [yf_download sym]: the table yfinance returns for [sym], the
      ticker level already selected;
    - [casefold]: the folding of names by the file system;
    - [to_parquet path df old]: the outcome of [df.to_parquet(path)] where
      the path holds [old]: [None] when the write succeeds, or the error
      raised together with what the path holds afterwards.  The file is
      written in place, so a failed write need not leave [old] there;
    - [set_index_date df]: [df.set_index("date")] followed by
      [pd.to_datetime] of the new index, for a stored table with a column
      labelled [date]; the dates such a column holds are no cells of a
      [DataFrame], so the outcome is the environment's. *)
Context {sort_kind : SortKind}.
Variable registry : list Asset.
Variable http_stooq : string → result (Frame raw).
Variable yf_download : string → result (option (Frame raw)).
Variable casefold : string → string.
Variable to_parquet : Path → DataFrame → option file → option (exn * option file).
Variable set_index_date : DataFrame → result DataFrame.

Definition fetch_stooq_daily (asset_key : string) : result DataFrame :=
  stooq_symbol ←! get_identifier registry asset_key "stooq";
  df ←! http_stooq stooq_symbol;
  let df := normalize_index (sort_index df) in
  o ←! getitem "Open" df;
  h ←! getitem "High" df;
  l ←! getitem "Low" df;
  c ←! getitem "Close" df;
  v ←! getitem "Volume" df;
  let out :=
    mkFrame ohlcv
      ((λ x : Timestamp * list raw,
          (x.1, (λ j, to_numeric (x.2 !! j)) <$> [o; h; l; c; v]))
         <$> rows df) in
  Ok (dropna_close out).

Definition fetch_yahoo_daily (asset_key : string) : result DataFrame :=
  yahoo_symbol ←! get_identifier registry asset_key "yahoo";
  df ←! yf_download yahoo_symbol;
  match df with
  | None => Raise NoYahooData
  | Some df =>
      if empty df then Raise NoYahooData
      else
        o ←! getitem "Open" df;
        h ←! getitem "High" df;
        l ←! getitem "Low" df;
        c ←! getitem "Close" df;
        v ←! getitem "Volume" df;
        adj ←! (if bool_decide ("Adj Close" ∈ columns df)
                then a ←! getitem "Adj Close" df; Ok [a]
                else Ok []);
        let out :=
          mkFrame (ohlcv ++ ((λ _, "adj_close") <$> adj))
            ((λ x : Timestamp * list raw,
                (x.1, (λ j, to_numeric (x.2 !! j)) <$> [o; h; l; c; v] ++ adj))
               <$> rows df) in
        Ok (dropna_close (sort_index out))
  end.

(** *** Cache store *)

Definition read_cache (provider asset_key : string) (fs : Store)
  : result (option DataFrame) :=
  let path := raw_cache_path provider asset_key in
  match fs !! normcase casefold path with
  | None => Ok None
  | Some (Damaged e) => Raise e
  | Some (Parquet df) =>
      df ←! (if bool_decide ("date" ∈ columns df) then set_index_date df
             else Ok df);
      let df := sort_index df in
      Ok (Some (drop_duplicated_last df))
  end.

Definition write_cache (provider asset_key : string) (df : DataFrame)
    (fs : Store) : result unit * Store :=
  let path := raw_cache_path provider asset_key in
  let out := drop_duplicated_last (sort_index df) in
  match to_parquet path out (fs !! normcase casefold path) with
  | Some (e, residue) =>
      (Raise e, partial_alter (λ _, residue) (normcase casefold path) fs)
  | None => (Ok (), <[normcase casefold path := Parquet out]> fs)
  end.

Definition merge_prices (existing : option DataFrame) (new : DataFrame)
  : result DataFrame :=
  let new := sort_index new in
  let new := drop_duplicated_last new in
  match existing with
  | None => Ok new
  | Some existing =>
      merged ←! concat existing new;
      let merged := sort_index merged in
      Ok (drop_duplicated_last merged)
  end.

Definition update_cache_with (provider : string)
    (fetch : string → result DataFrame) (asset_key : string)
    (fs : Store) : result DataFrame * Store :=
  match read_cache provider asset_key fs with
  | Raise e => (Raise e, fs)
  | Ok existing =>
      match fetch asset_key with
      | Raise e => (Raise e, fs)
      | Ok fresh =>
          match merge_prices existing fresh with
          | Raise e => (Raise e, fs)
          | Ok merged =>
              match write_cache provider asset_key merged fs with
              | (Raise e, fs') => (Raise e, fs')
              | (Ok _, fs') => (Ok merged, fs')
              end
          end
      end
  end.

Definition update_cache_stooq := update_cache_with "stooq" fetch_stooq_daily.
Definition update_cache_yahoo := update_cache_with "yahoo" fetch_yahoo_daily.

Definition update_cache (provider asset_key : string)
    (fs : Store) : result DataFrame * Store :=
  if bool_decide (provider = "stooq") then update_cache_stooq asset_key fs
  else if bool_decide (provider = "yahoo") then update_cache_yahoo asset_key fs
  else (Raise UnknownProvider, fs).

(** The [for] loop of [_choose_provider_and_update], [last_err] threaded. *)
Fixpoint choose_loop (asset_key : string) (provider_priority : list string)
    (last_err : option exn) (fs : Store)
  : result (string * DataFrame) * Store :=
  match provider_priority with
  | [] => (Raise (RuntimeError asset_key last_err), fs)
  | provider :: rest =>
      match has_identifier registry asset_key provider with
      | Raise e => (Raise e, fs)
      | Ok false => choose_loop asset_key rest last_err fs
      | Ok true =>
          match update_cache provider asset_key fs with
          | (Ok df, fs') => (Ok (provider, df), fs')
          | (Raise e, fs') => choose_loop asset_key rest (Some e) fs'
          end
      end
  end.

Definition _choose_provider_and_update (asset_key : string)
    (provider_priority : list string) (fs : Store) :=
  choose_loop asset_key provider_priority None fs.

End environment.

(** [out["adj_close"] = out["close"]]: a new last column. *)
Definition add_adj_close (df : DataFrame) : result DataFrame :=
  if bool_decide (length (filter (λ c, c = "close") (columns df)) = 1%nat) then
    Ok (mkFrame (columns df ++ ["adj_close"])
          ((λ x, (x.1, x.2 ++ [cell_of (columns df) x.2 "close"])) <$> rows df))
  else Raise (ValueError "Cannot set a DataFrame with multiple columns to the single column adj_close").

(** [df[labels]]: for each label in turn, every column that carries it. *)
Definition under (label : string) (cols : list string) (r : list float)
  : list float :=
  (filter (λ p, p.1 = label) (zip cols r)).*2.

Definition select (labels : list string) (df : DataFrame) : DataFrame :=
  mkFrame (labels ≫= λ c, filter (λ c', c' = c) (columns df))
    ((λ x, (x.1, labels ≫= λ c, under c (columns df) x.2)) <$> rows df).

Definition _canonicalize_ohlcv (df : DataFrame) : result DataFrame :=
  let cols := ohlcv in
  let missing := filter (λ c, c ∉ columns df) cols in
  match missing with
  | _ :: _ => Raise (MissingColumns missing (columns df))
  | [] =>
      out ←! (if bool_decide ("adj_close" ∈ columns df) then Ok df
              else add_adj_close df);
      Ok (select (cols ++ ["adj_close"]) out)
  end.

(** [_select_price_field]: the column of [field], or the column of [close]
    for [adj_close] when the table has none.  The series is carried as the
    one-column table of its label. *)
Definition _select_price_field (df : DataFrame) (field : string)
  : result DataFrame :=
  if bool_decide (field ∈ columns df) then Ok (select [field] df)
  else if bool_decide (field = "adj_close" ∧ "close" ∈ columns df)
       then Ok (select ["close"] df)
       else Raise (KeyError field).

(** [provider_priority or ["stooq", "yahoo"]]: an absent list and an empty
    one both give way to the default. *)
Definition default_priority (provider_priority : option (list string))
  : list string :=
  match provider_priority with
  | Some (p :: ps) => p :: ps
  | Some [] | None => ["stooq"; "yahoo"]
  end.

Section builders.

Context {sort_kind : SortKind}.
Variable registry : list Asset.
Variable http_stooq : string → result (Frame raw).
Variable yf_download : string → result (option (Frame raw)).
Variable casefold : string → string.
Variable to_parquet : Path → DataFrame → option file → option (exn * option file).
Variable set_index_date : DataFrame → result DataFrame.

(** The loop of [update_all_prices], the dict [used] threaded. *)
Fixpoint update_all_loop (keys provider_priority : list string)
    (used : gmap string string) (fs : Store)
  : result (gmap string string) * Store :=
  match keys with
  | [] => (Ok used, fs)
  | k :: keys' =>
      match _choose_provider_and_update registry http_stooq yf_download
              casefold to_parquet set_index_date k provider_priority fs with
      | (Raise e, fs') => (Raise e, fs')
      | (Ok (provider, _), fs') =>
          update_all_loop keys' provider_priority (<[k := provider]> used) fs'
      end
  end.

Definition update_all_prices (provider_priority : option (list string))
    (fs : Store) :=
  update_all_loop (list_asset_keys registry)
    (default_priority provider_priority) ∅ fs.

End builders.

End Prices.

(** ** algo/strategies/sma_trend.py *)

Module SmaTrend.
Import Pandas.

(** [p > m] on two doubles: false when either is NaN. *)
Definition fgt (x y : float) : bool :=
  match x, y with
  | NaN, _ | _, NaN => false
  | Inf s, Inf s' => negb s && s'
  | Inf s, Fin _ => negb s
  | Fin _, Inf s => s
  | Fin a, Fin b => negb (Qle_bool a b)
  end.

(** [rolling] turns the infinities into NaN before it aggregates. *)
Definition inf_to_nan (x : float) : float :=
  match x with
  | Fin q => Fin q
  | _ => NaN
  end.

(** The mean of one window under [min_periods=window]: NaN unless the
    window holds [window] observations, none of them NaN. *)
Definition window_mean (window : nat) (obs : list float) : float :=
  let obs := inf_to_nan <$> obs in
  if bool_decide (window ≠ 0%nat ∧ length obs = window ∧
                  Forall (λ v, isna v = false) obs)
  then fdiv (foldl fadd (Fin 0) obs) (Fin (inject_Z (Z.of_nat window)))
  else NaN.

(** The cells of the column at position [j]. *)
Definition column (j : nat) (l : list (Timestamp * list float)) : list float :=
  (λ x, default NaN (x.2 !! j)) <$> l.

(** [df.rolling(window=window, min_periods=window).mean()]: row [i] holds,
    for each column, the mean over the rows [i - window + 1 .. i].
    [window] is a natural number: [rolling] refuses a negative one. *)
Definition rolling_mean (window : nat) (df : DataFrame) : DataFrame :=
  mkFrame (columns df)
    (imap (λ i (x : Timestamp * list float),
             (x.1, (λ j, window_mean window
                           (column j (drop (S i - window)
                                        (take (S i) (rows df)))))
                     <$> seq 0 (length (columns df))))
          (rows df)).

(** [df.iloc[-1]] of a table that has rows. *)
Definition latest (df : DataFrame) : list float :=
  from_option snd [] (last (rows df)).

(** What [pd.isna(p) or pd.isna(m)] raises when a repeated label makes
    [latest_price[asset]] a series. *)
Definition ambiguous : exn :=
  ValueError "The truth value of a Series is ambiguous. Use a.empty, a.bool(), a.item(), a.any() or a.all().".

Definition sma_trend_weights (prices : DataFrame) (window : nat)
  : result (gmap string float) :=
  if empty prices then Raise (ValueError "prices is empty")
  else
    let sma := rolling_mean window prices in
    let latest_price := latest prices in
    let latest_sma := latest sma in
    if bool_decide (NoDup (columns prices)) then
      let selected :=
        filter (λ asset,
                  let p := cell_of (columns prices) latest_price asset in
                  let m := cell_of (columns prices) latest_sma asset in
                  isna p = false ∧ isna m = false ∧ fgt p m = true)
               (columns prices) in
      match selected with
      | [] => Ok ∅
      | _ :: _ =>
          let w := fdiv (Fin 1) (Fin (inject_Z (Z.of_nat (length selected)))) in
          Ok (list_to_map ((λ asset, (asset, w)) <$> selected))
      end
    else Raise ambiguous.

(** [out.loc[dt, k] = v] for every item [k, v] of [w]: the cells of every
    row labelled [dt]. *)
Definition set_loc (dt : Timestamp) (w : gmap string float) (out : DataFrame)
  : DataFrame :=
  mkFrame (columns out)
    ((λ x : Timestamp * list float,
        if bool_decide (x.1 = dt)
        then (x.1, zip_with (λ c v, default v (w !! c)) (columns out) x.2)
        else x) <$> rows out).

(** The loop of [sma_trend_weights_by_day]: [seen] holds the rows before
    position [i], [todo] the rows from [i] on. *)
Fixpoint by_day_loop (window : nat) (cols : list string)
    (seen todo : list (Timestamp * list float)) (out : DataFrame)
  : result DataFrame :=
  match todo with
  | [] => Ok out
  | x :: todo' =>
      let hist := mkFrame cols (seen ++ [x]) in
      w ←! sma_trend_weights hist window;
      by_day_loop window cols (seen ++ [x]) todo' (set_loc x.1 w out)
  end.

Definition sma_trend_weights_by_day {sort_kind : SortKind} (prices : DataFrame)
    (window : nat) : result DataFrame :=
  let prices := sort_index prices in
  let out :=
    mkFrame (columns prices)
      ((λ x : Timestamp * list float, (x.1, (λ _, Fin 0) <$> columns prices))
         <$> rows prices) in
  by_day_loop window (columns prices) [] (rows prices) out.

End SmaTrend.

(** ** algo/scripts/run_backtest.py *)

Module RunBacktest.
Import Pandas EngineFast SmaTrend.

Section kind.
Context {sort_kind : SortKind}.

(** [build_weights]; [window] stands for the module constant [WINDOW]. *)
Definition build_weights (window : nat) (strategy : string) (prices : DataFrame)
  : result DataFrame :=
  if bool_decide (strategy = "sma_trend")
  then sma_trend_weights_by_day prices window
  else Raise (ValueError ("Unknown strategy: " +:+ strategy)).

(** Lines 53-56 of [main]: the weights of the strategy on the loaded
    prices, then the backtest of these weights on the same prices. *)
Definition backtest (pad : bool) (window : nat) (strategy : string)
    (px : DataFrame) (start_date : option Timestamp) : result Series :=
  wmat ←! build_weights window strategy px;
  run_backtest_fast_daily pad px wmat start_date.

End kind.

End RunBacktest.

(** ** algo/scripts/find_extreme_returns.py *)

Module ExtremeReturns.
Import Pandas Prices SmaTrend.

(** [Series.pct_change()], with the fill default of the installed pandas
    as for a table. *)
Fixpoint ffill_series (prev : float) (s : Series) : Series :=
  match s with
  | [] => []
  | x :: s' =>
      let v := if isna x.2 then prev else x.2 in
      (x.1, v) :: ffill_series v s'
  end.

Fixpoint change_series (prev : float) (s : Series) : Series :=
  match s with
  | [] => []
  | x :: s' => (x.1, change x.2 prev) :: change_series x.2 s'
  end.

Definition pct_change_series (pad : bool) (s : Series) : Series :=
  change_series NaN (if pad then ffill_series NaN s else s).

(** [(r < lower) | (r > upper)] on one return. *)
Definition outside (lower upper r : float) : bool :=
  fgt lower r || fgt r upper.

Definition find_extreme_returns (pad : bool) (prices : Series)
    (lower upper : float) : Series :=
  let r := pct_change_series pad prices in
  dropna (filter (λ x, outside lower upper x.2 = true) r).

(** [extreme_dates.max()] of an index that holds a date. *)
Definition max_date (d : Timestamp) (ds : list Timestamp) : Timestamp :=
  foldl Z.max d ds.

Definition suggest_clean_start (extreme_dates : list Timestamp)
    (search_from : Timestamp) : option Timestamp :=
  match extreme_dates with
  | [] => None
  | _ :: _ =>
      let cutoff := search_from in
      match filter (λ d, cutoff ≤ d) extreme_dates with
      | [] => None
      | d :: ds => Some (max_date d ds + day_ns)
      end
  end.

End ExtremeReturns.

Import Pandas EngineFast Registry Prices.
Import SmaTrend RunBacktest ExtremeReturns.

(** ** Vocabulary of the specification *)

(** A table as pandas builds it: distinct column labels, one cell per column
    in every row. *)
Definition table {A} (df : Frame A) : Prop :=
  NoDup (columns df) ∧ Forall (λ x, length x.2 = length (columns df)) (rows df).

(** A table indexed by date: no date labels two rows. *)
Definition dated_table {A} (df : Frame A) : Prop :=
  NoDup (index df) ∧ table df.

(** Dates strictly increasing. *)
Definition increasing (l : list Timestamp) : Prop := StronglySorted Z.lt l.

(** The target weight recorded for instrument [c] at decision date [t];
    0 where the matrix has no such date, no such instrument, or no value. *)
Definition weight_at (weights : DataFrame) (t : Timestamp) (c : string) : float :=
  match assoc t (rows weights) with
  | Some r =>
      let x := cell_of (columns weights) r c in
      if isna x then Fin 0 else x
  | None => Fin 0
  end.

(** [fillna(0.0)] on one cell. *)
Definition fill0 (x : float) : float := if isna x then Fin 0 else x.

(** The weights the engine applies: on the price axes, the row of every
    date holding the weights recorded at the date before it, the first row
    holding zeros. *)
Definition decided (weights : DataFrame) (cols : list string) (t : Timestamp)
  : list float :=
  weight_at weights t <$> cols.

Definition lagged (prices weights : DataFrame) : DataFrame :=
  mkFrame (columns prices)
    (zip (index prices)
       (((λ _, Fin 0) <$> columns prices) ::
        (decided weights (columns prices) <$> index prices))).

(** The portfolio return of each row of returns [rets], the first row
    weighted by [z] and the row after date [t] by [G t]; NaN products are
    skipped as [sum(axis=1)] skips them. *)
Fixpoint weighted_returns (rets : list (Timestamp * list float))
    (z : list float) (G : Timestamp → list float) : Series :=
  match rets with
  | [] => []
  | x :: rets' =>
      (x.1, nansum (zip_with fmul x.2 z)) :: weighted_returns rets' (G x.1) G
  end.

(** The weights matrix with the row of date [t] zeroed. *)
Definition zero_row (t : Timestamp) (weights : DataFrame) : DataFrame :=
  mkFrame (columns weights)
    ((λ x : Timestamp * list float,
        if bool_decide (x.1 = t) then (x.1, (λ _, Fin 0) <$> x.2) else x)
       <$> rows weights).

(** [d] is the date that follows [t] on the axis [idx]. *)
Definition follows (idx : list Timestamp) (t d : Timestamp) : Prop :=
  ∃ k : nat, idx !! k = Some t ∧ idx !! S k = Some d.

(** The lookahead invariant, read to the letter: the two equity curves agree
    at every date but the one that follows [t]. *)
Definition differ_only_at_transition {sort_kind : SortKind} (pad : bool)
    (prices weights : DataFrame)
    (start_date : option Timestamp) (t : Timestamp) : Prop :=
  ∀ e1 e2,
    run_backtest_fast_daily pad prices weights start_date = Ok e1 →
    run_backtest_fast_daily pad prices (zero_row t weights) start_date = Ok e2 →
    ∀ d, ¬ follows (index (clip_history prices start_date)) t d →
         assoc d e1 = assoc d e2.

(** The bar a series holds for a date (the last one, should the date
    repeat), and the dates of an absent-or-present series. *)
Definition bar (df : DataFrame) (t : Timestamp) : option (list float) :=
  last_at t (rows df).

Definition dates (existing : option DataFrame) : list Timestamp :=
  from_option index [] existing.

(** The value a series holds for a date under a field. *)
Definition value (df : DataFrame) (t : Timestamp) (c : string) : option float :=
  (λ r, cell_of (columns df) r c) <$> bar df t.

(** The column axis of two stacked tables, and the rows of a table laid out
    on a column axis. *)
Definition joined_columns (a b : DataFrame) : list string :=
  columns a ++ filter (λ c, c ∉ columns a) (columns b).

Definition aligned (u : list string) (df : DataFrame)
  : list (Timestamp * list float) :=
  (λ x, (x.1, realign u (columns df) x.2)) <$> rows df.

(** The identifier resolver of the specification: the symbol of an
    instrument under a provider, absent for an instrument the registry does
    not hold. *)
Definition resolve (registry : list Asset) (k provider : string) : option string :=
  by_key registry !! k ≫= λ a, identifiers a !! provider.

(** The error of the last provider of the list that was tried. *)
Definition last_failure (registry : list Asset)
    (attempt : string → result DataFrame * Store)
    (k : string) (provider_priority : list string) : option exn :=
  last (omap (λ p, if bool_decide (is_Some (resolve registry k p))
                   then match (attempt p).1 with
                        | Raise e => Some e
                        | Ok _ => None
                        end
                   else None) provider_priority).

(** A writer whose failures at a path leave there what was there. *)
Definition leaves_file_on_failure
    (to_parquet : Path → DataFrame → option file → option (exn * option file))
    (path : Path) : Prop :=
  ∀ df old e residue, to_parquet path df old = Some (e, residue) → residue = old.

(** A cache file in good order: unreadable, or a table without a column
    labelled [date]. *)
Definition well_kept (f : file) : Prop :=
  match f with
  | Parquet df => table df ∧ "date" ∉ columns df
  | Damaged _ => True
  end.

(** A writer whose failures leave at the path what was there, nothing, or
    an unreadable file. *)
Definition residue_old_or_unreadable
    (to_parquet : Path → DataFrame → option file → option (exn * option file))
  : Prop :=
  ∀ path df old e residue,
    to_parquet path df old = Some (e, residue) →
    residue = old ∨ ∀ f, residue = Some f → ∃ e', f = Damaged e'.

(** The fallback claim for any key whatever. *)
Definition fallback_fails_closed {sort_kind : SortKind} (registry : list Asset)
    (http_stooq : string → result (Frame raw))
    (yf_download : string → result (option (Frame raw)))
    (casefold : string → string)
    (to_parquet : Path → DataFrame → option file → option (exn * option file))
    (set_index_date : DataFrame → result DataFrame)
    (k : string) (provider_priority : list string) (fs : Store) : Prop :=
  let attempt p :=
    update_cache registry http_stooq yf_download casefold to_parquet
      set_index_date p k fs in
  (∀ p, p ∈ provider_priority →
        resolve registry k p = None ∨ ∃ e, (attempt p).1 = Raise e) →
  ∃ last_err,
    _choose_provider_and_update registry http_stooq yf_download casefold
      to_parquet set_index_date k provider_priority fs
    = (Raise (RuntimeError k last_err), fs).

(** The six fields of the canonical dataset. *)
Definition canonical_fields : list string := ohlcv ++ ["adj_close"].

(** ** Inputs of the scenarios *)

Definition px3 : DataFrame :=
  mkFrame ["spy"] [(0, [Fin 100]); (1, [Fin 110]); (2, [Fin 121])].
Definition w3 : DataFrame :=
  mkFrame ["spy"] [(0, [Fin 1]); (1, [Fin 1]); (2, [Fin 0])].

(** A registry holding [spy] under its yahoo symbol, and a yahoo response
    with one bar stamped 16:00 on the second day of the epoch. *)
Definition yahoo_registry : list Asset :=
  [mkAsset "spy" "etf" "SPDR S&P 500" {["yahoo" := "SPY"]}].

Definition afternoon : Timestamp := day_ns + 16 * 3600 * 1000000000.

Definition yahoo_afternoon (sym : string) : result (option (Frame raw)) :=
  Ok (Some (mkFrame ["Open"; "High"; "Low"; "Close"; "Volume"]
              [(afternoon,
                [RNum (Fin 1); RNum (Fin 2); RNum (Fin (1 # 2));
                 RNum (Fin (3 # 2)); RNum (Fin 1000)])])).

(** The same bar as a stooq response, for an asset with a stooq symbol. *)
Definition stooq_registry : list Asset :=
  [mkAsset "spy" "etf" "SPDR S&P 500" {["stooq" := "spy.us"]}].

Definition stooq_afternoon (sym : string) : result (Frame raw) :=
  Ok (mkFrame ["Open"; "High"; "Low"; "Close"; "Volume"]
        [(afternoon,
          [RNum (Fin 1); RNum (Fin 2); RNum (Fin (1 # 2));
           RNum (Fin (3 # 2)); RNum (Fin 1000)])]).

(** A cached series and a fetch that overlaps it on the second date. *)
Definition cached2 : DataFrame :=
  mkFrame ohlcv
    [(1, [Fin 10; Fin 12; Fin 9; Fin 11; Fin 500]);
     (2, [Fin 11; Fin 13; Fin 10; Fin 12; Fin 600])].

Definition fetched2 : DataFrame :=
  mkFrame ohlcv
    [(3, [Fin 12; Fin 14; Fin 11; Fin 13; Fin 700]);
     (2, [Fin 11; Fin 13; Fin 10; Fin (25 # 2); Fin 650])].

(** A stooq endpoint that is down, a yahoo endpoint without data, a parquet
    writer that never fails, the name folding of Windows on the letters A
    to Z, and a reader that refuses every stored [date] column. *)
Definition stooq_down (sym : string) : result (Frame raw) :=
  Raise (TransportError "down").

Definition yahoo_silent (sym : string) : result (option (Frame raw)) := Ok None.

Definition writes_succeed (path : Path) (df : DataFrame) (old : option file)
  : option (exn * option file) := None.

Definition ascii_lower (c : ascii) : ascii :=
  let n := nat_of_ascii c in
  if (65 <=? n)%nat && (n <=? 90)%nat then ascii_of_nat (n + 32) else c.

Fixpoint str_lower (s : string) : string :=
  match s with
  | EmptyString => EmptyString
  | String c s' => String (ascii_lower c) (str_lower s')
  end.

Definition date_column_refused (df : DataFrame) : result DataFrame :=
  Raise (TypeError "date").

(** A disk that fills up during every write, leaving at the path a file cut
    short, which [read_parquet] refuses. *)
Definition disk_full : exn := OSError "No space left on device".
Definition cut_short : exn := OSError "Parquet magic bytes not found in footer".

Definition writes_cut_short (path : Path) (df : DataFrame) (old : option file)
  : option (exn * option file) :=
  Some (disk_full, Some (Damaged cut_short)).

(** A cache of five dates whose bars all close at 10, and a fetch of
    thirteen dates from the same first date on, every bar restated to
    close at 11. *)
Definition bar_closing (close : Q) (d : Timestamp) : Timestamp * list float :=
  (d, [Fin close; Fin close; Fin close; Fin close; Fin 1000]).

Definition cached5 : DataFrame :=
  mkFrame ohlcv (bar_closing 10 <$> [1; 2; 3; 4; 5]).

Definition fetched13 : DataFrame :=
  mkFrame ohlcv (bar_closing 11 <$> [1; 2; 3; 4; 5; 6; 7; 8; 9; 10; 11; 12; 13]).

(** The labels of [cached5] followed by those of [fetched13], and thirteen
    dates written twice: the indexes that [merge_prices] sorts when the
    fetch is merged into the cache, and when it is merged a second time.
    With them, the order numpy's quicksort returns for each. *)
Definition labels18 : list Timestamp :=
  [1; 2; 3; 4; 5; 1; 2; 3; 4; 5; 6; 7; 8; 9; 10; 11; 12; 13].

Definition order18 : list nat :=
  [0; 5; 1; 6; 2; 7; 8; 3; 9; 4; 10; 11; 12; 13; 14; 15; 16; 17]%nat.

Definition labels26 : list Timestamp :=
  [1; 2; 3; 4; 5; 6; 7; 8; 9; 10; 11; 12; 13;
   1; 2; 3; 4; 5; 6; 7; 8; 9; 10; 11; 12; 13].

Definition order26 : list nat :=
  [0; 13; 1; 14; 2; 15; 3; 16; 4; 17; 5; 18; 19; 6; 7; 20; 21; 8; 22; 9; 23;
   10; 24; 11; 12; 25]%nat.

(** What the merge of [fetched13] into [cached5] comes to under that order,
    and the thirteen bars of the fetch. *)
Definition merged_once : DataFrame :=
  mkFrame ohlcv
    ((bar_closing 11 <$> [1; 2; 3]) ++ (bar_closing 10 <$> [4; 5]) ++
     (bar_closing 11 <$> [6; 7; 8; 9; 10; 11; 12; 13])).

(** ** Further vocabulary *)

(** The characters [_asset_key_to_filename] replaces. *)
Definition unsafe : list Ascii.ascii :=
  ["/"; "\"; ":"; "*"; "?"; Ascii.ascii_of_nat 34; "<"; ">"; "|"]%char.

(** One [replace] of a character by a character, seen on one character. *)
Definition replace_one (c d x : Ascii.ascii) : Ascii.ascii :=
  if bool_decide (x = c) then d else x.

Definition sanitize_char (c : Ascii.ascii) : Ascii.ascii :=
  if bool_decide (c ∈ unsafe) then "_"%char else c.

Fixpoint smap (f : Ascii.ascii → Ascii.ascii) (s : string) : string :=
  match s with
  | EmptyString => EmptyString
  | String c s' => String (f c) (smap f s')
  end.

Definition chars (s : string) : list Ascii.ascii := String.list_ascii_of_string s.

(** A key none of whose characters is replaced. *)
Definition safe_key (s : string) : Prop := Forall (λ c, c ∉ unsafe) (chars s).

(** The price history up to and including date [t]. *)
Definition history_upto (t : Timestamp) (prices : DataFrame) : DataFrame :=
  mkFrame (columns prices) (filter (λ x, x.1 ≤ t) (rows prices)).

(** The prices of instrument [c] on the last [window] rows of a table,
    oldest first. *)
Definition recent (window : nat) (df : DataFrame) (c : string) : list float :=
  (λ x, cell_of (columns df) x.2 c)
    <$> drop (length (rows df) - window) (rows df).

Definition Qsum (qs : list Q) : Q := foldr Qplus 0%Q qs.

(** Instrument [c] trades above its moving average: its last [window]
    prices are there and are numbers, and the latest exceeds their mean. *)
Definition above_sma (window : nat) (df : DataFrame) (c : string) : Prop :=
  ∃ (qs : list Q) (p : Q),
    recent window df c = Fin <$> qs ∧ length qs = window ∧ last qs = Some p ∧
    (Qsum qs / inject_Z (Z.of_nat window) < p)%Q.

(** The row of weights a dict of weights stands for: 0 for an instrument
    the dict does not hold. *)
Definition weights_row (cols : list string) (w : gmap string float) : list float :=
  (λ c, default (Fin 0) (w !! c)) <$> cols.

(** The rows of weights [sma_trend_weights_by_day] starts from. *)
Definition zero_rows (cols : list string) (l : list (Timestamp * list float))
  : list (Timestamp * list float) :=
  (λ x : Timestamp * list float, (x.1, (λ _, Fin 0) <$> cols)) <$> l.

(** A price table on which the two instruments cross their two-day
    averages in turn. *)
Definition px_trend : DataFrame :=
  mkFrame ["a"; "b"]
    [(0, [Fin 10; Fin 5]); (1, [Fin 12; Fin 4]); (2, [Fin 11; Fin 6]);
     (3, [Fin 13; NaN])].

(** A series that doubles on the second date and collapses on the fourth,
    and the band of the script. *)
Definition s_jump : Series :=
  [(0, Fin 100); (1, Fin 200); (2, Fin 210); (3, Fin 90)].

Definition band_lower : float := Fin (-1 # 2).
Definition band_upper : float := Fin (1 # 2).

(** * Proofs *)

Section claims.
Context {sort_kind : SortKind}.

(** ** Rows keyed by date *)

Section keyed_rows.
Context {A : Type}.
Implicit Types (l : list (Timestamp * A)) (t : Timestamp) (x : Timestamp * A).

Lemma last_at_None t l : last_at t l = None ↔ t ∉ l.*1.
Proof.
  induction l as [|x l IH]; simpl.
  - split; [intros _; apply not_elem_of_nil | done].
  - rewrite not_elem_of_cons. destruct (last_at t l) eqn:E.
    + split; [done|]. intros [_ Hin]. by apply IH in Hin.
    + case_bool_decide as Ex; split; try done.
      * intros [Hne _]. by destruct Hne.
      * intros _. split; [done|]. by apply IH.
Qed.

Lemma last_at_is_Some t l : is_Some (last_at t l) ↔ t ∈ l.*1.
Proof.
  rewrite <- not_eq_None_Some, last_at_None.
  split; [apply dec_stable | auto].
Qed.

Lemma last_at_cons t x l :
  last_at t (x :: l) =
    match last_at t l with
    | Some r => Some r
    | None => if bool_decide (x.1 = t) then Some x.2 else None
    end.
Proof. done. Qed.

Lemma last_at_app t l1 l2 :
  last_at t (l1 ++ l2) =
    match last_at t l2 with Some r => Some r | None => last_at t l1 end.
Proof.
  induction l1 as [|x l1 IH]; simpl.
  - by destruct (last_at t l2).
  - rewrite IH. by destruct (last_at t l2).
Qed.

Lemma assoc_None t l : assoc t l = None ↔ t ∉ l.*1.
Proof.
  induction l as [|x l IH]; simpl.
  - split; [intros _; apply not_elem_of_nil | done].
  - rewrite not_elem_of_cons. case_bool_decide; split; try done.
    + intros [H' _]. by destruct H'.
    + intros H'. split; [done|]. by apply IH.
    + intros [_ H']. by apply IH.
Qed.

Lemma assoc_last_at t l : NoDup l.*1 → assoc t l = last_at t l.
Proof.
  induction l as [|x l IH]; [done|]. simpl.
  intros [Hx Hl]%NoDup_cons. rewrite <- IH by done.
  case_bool_decide as E.
  - subst t. by apply assoc_None in Hx as ->.
  - by destruct (assoc t l).
Qed.

(** *** [sort_index] *)

Lemma is_monotonic_increasing_spec (keys : list Timestamp) :
  is_monotonic_increasing keys = true ↔ StronglySorted Z.le keys.
Proof.
  induction keys as [|t keys IH]; [by split; [constructor|]|].
  destruct keys as [|t' keys]; [by split; [repeat constructor|]|].
  cbn [is_monotonic_increasing] in *.
  rewrite andb_true_iff, IH, Z.leb_le. split.
  - intros [Hle Hs]. constructor; [done|].
    inversion_clear Hs as [|? ? _ Ht']. constructor; [done|].
    eapply Forall_impl; [exact Ht'|]. simpl. lia.
  - intros Hs. inversion_clear Hs as [|? ? Hl Ht].
    split; [by apply Forall_cons in Ht as [? _] | done].
Qed.

Lemma take_rows_seq {B} (l : list B) : take_rows l (seq 0 (length l)) = l.
Proof.
  induction l as [|x l IH]; [done|]. unfold take_rows in *. simpl. f_equal.
  rewrite <- fmap_S_seq. rewrite <- IH at 2.
  generalize (seq 0 (length l)). intros order.
  induction order as [|i order IHo]; [done|].
  rewrite fmap_cons. cbn [omap list_omap] in *. cbn [lookup list_lookup].
  by rewrite IHo.
Qed.

Lemma take_rows_perm {B} (l : list B) order :
  order ≡ₚ seq 0 (length l) → take_rows l order ≡ₚ l.
Proof. intros Hp. rewrite <- (take_rows_seq l) at 2. unfold take_rows. by rewrite Hp. Qed.

Lemma take_rows_labels l order :
  (take_rows l order).*1 = omap (λ i, l.*1 !! i) order.
Proof.
  unfold take_rows. induction order as [|i order IH]; [done|]. csimpl.
  rewrite list_lookup_fmap. destruct (l !! i); csimpl; by rewrite IH.
Qed.

Lemma sort_rows_perm l : sort_rows l ≡ₚ l.
Proof.
  unfold sort_rows. case_match; [done|].
  apply take_rows_perm. rewrite argsort_perm. by rewrite length_fmap.
Qed.

Lemma sort_rows_sorted l : StronglySorted Z.le (sort_rows l).*1.
Proof.
  unfold sort_rows. case_match eqn:E.
  - by apply is_monotonic_increasing_spec.
  - rewrite take_rows_labels. apply argsort_sorted.
Qed.

(** An index that ascends already is left as it is. *)
Lemma sort_rows_sorted_id l : StronglySorted Z.le l.*1 → sort_rows l = l.
Proof.
  intros Hs. unfold sort_rows.
  by rewrite (proj2 (is_monotonic_increasing_spec _) Hs).
Qed.

Lemma sorted_by_label l :
  StronglySorted Z.le l.*1 → StronglySorted (λ x y, x.1 ≤ y.1) l.
Proof.
  induction l as [|x l IH]; [constructor|]. rewrite fmap_cons.
  intros Hs. inversion_clear Hs as [|? ? Hl Hx].
  constructor; [by apply IH|]. by rewrite Forall_fmap in Hx.
Qed.

(** Where no label repeats, sorting has one outcome, whatever the kind. *)
Lemma sort_rows_unique l l' :
  NoDup l.*1 → l' ≡ₚ l → StronglySorted Z.le l'.*1 → sort_rows l = l'.
Proof.
  intros Hnd Hp Hs.
  apply (StronglySorted_unique_strong (λ x y : Timestamp * A, x.1 ≤ y.1)).
  - intros x y Hx Hy Hxy Hyx.
    rewrite sort_rows_perm in Hx. rewrite Hp in Hy.
    assert (x.1 = y.1) as Hk by lia.
    apply list_elem_of_lookup in Hx as [i Hi]. apply list_elem_of_lookup in Hy as [j Hj].
    assert (i = j) as ->.
    { eapply NoDup_lookup; [exact Hnd| |]; rewrite list_lookup_fmap.
      - by rewrite Hi.
      - rewrite Hj. simpl. by rewrite Hk. }
    congruence.
  - apply sorted_by_label, sort_rows_sorted.
  - by apply sorted_by_label.
  - by rewrite sort_rows_perm, Hp.
Qed.

(** *** [duplicated(keep="last")] *)

Lemma last_at_drop_dup t l : last_at t (drop_dup_rows l) = last_at t l.
Proof.
  induction l as [|x l IH]; [done|]. cbn [drop_dup_rows].
  case_bool_decide as E.
  - rewrite IH, last_at_cons. destruct (last_at t l) eqn:El; [done|].
    apply last_at_None in El. case_bool_decide; [|done]. by subst.
  - by rewrite !last_at_cons, IH.
Qed.

Lemma elem_of_drop_dup t l : t ∈ (drop_dup_rows l).*1 ↔ t ∈ l.*1.
Proof. by rewrite <- !last_at_is_Some, last_at_drop_dup. Qed.

Lemma drop_dup_increasing l :
  StronglySorted Z.le l.*1 → increasing (drop_dup_rows l).*1.
Proof.
  induction l as [|x l IH]; simpl; intros Hs; [constructor|].
  inversion_clear Hs as [|? ? Hl Hx].
  case_bool_decide as E; [by apply IH|].
  simpl. constructor; [by apply IH|].
  apply Forall_forall. intros t Ht. apply (proj1 (elem_of_drop_dup _ _)) in Ht.
  rewrite Forall_forall in Hx. specialize (Hx t Ht).
  assert (t ≠ x.1) by (by intros ->). lia.
Qed.

Lemma drop_dup_NoDup_id l : NoDup l.*1 → drop_dup_rows l = l.
Proof.
  induction l as [|x l IH]; [done|]. simpl.
  intros [Hx Hl]%NoDup_cons. rewrite bool_decide_eq_false_2 by done.
  by rewrite IH.
Qed.

Lemma increasing_NoDup (idx : list Timestamp) : increasing idx → NoDup idx.
Proof.
  induction 1 as [|t idx Hs IH Ht]; constructor; [|done].
  intros Hin. rewrite Forall_forall in Ht. specialize (Ht _ Hin). lia.
Qed.

Lemma increasing_sorted (idx : list Timestamp) :
  increasing idx → StronglySorted Z.le idx.
Proof.
  induction 1 as [|t idx Hs IH Ht]; constructor; [done|].
  eapply Forall_impl; [exact Ht|]. simpl. lia.
Qed.

(** A series with strictly increasing dates is determined by the bar it
    holds for each date. *)
Lemma increasing_ext l1 l2 :
  increasing l1.*1 → increasing l2.*1 →
  (∀ t, assoc t l1 = assoc t l2) → l1 = l2.
Proof.
  revert l2. induction l1 as [|x l1 IH]; intros [|y l2] H1 H2 Heq.
  - done.
  - specialize (Heq y.1). simpl in Heq. by rewrite bool_decide_eq_true_2 in Heq.
  - specialize (Heq x.1). simpl in Heq. by rewrite bool_decide_eq_true_2 in Heq.
  - simpl in H1, H2.
    inversion_clear H1 as [|? ? H1' Hx]. inversion_clear H2 as [|? ? H2' Hy].
    rewrite Forall_forall in Hx, Hy.
    assert (x.1 = y.1) as Hk.
    { destruct (Z.lt_trichotomy x.1 y.1) as [Hlt|[?|Hlt]]; [|done|].
      - pose proof (Heq x.1) as E. simpl in E.
        rewrite bool_decide_eq_true_2, bool_decide_eq_false_2 in E by lia.
        assert (assoc x.1 l2 = None) as EN.
        { rewrite assoc_None. intros Hin. apply Hy in Hin. lia. }
        congruence.
      - pose proof (Heq y.1) as E. simpl in E.
        rewrite (bool_decide_eq_true_2 (y.1 = y.1)), bool_decide_eq_false_2 in E by lia.
        assert (assoc y.1 l1 = None) as EN.
        { rewrite assoc_None. intros Hin. apply Hx in Hin. lia. }
        congruence. }
    assert (x = y) as ->.
    { pose proof (Heq x.1) as E. simpl in E.
      rewrite !bool_decide_eq_true_2 in E by done.
      destruct x, y; simpl in *. congruence. }
    f_equal. apply IH; [done..|]. intros t.
    specialize (Heq t). simpl in Heq. case_bool_decide as E; [|done].
    subst t. transitivity (@None A); [|symmetry]; rewrite assoc_None.
    + intros Hin. apply Hx in Hin. lia.
    + intros Hin. apply Hy in Hin. lia.
Qed.

(** *** Sort, then keep the last of each date *)

Lemma normal_increasing l : increasing (drop_dup_rows (sort_rows l)).*1.
Proof. apply drop_dup_increasing, sort_rows_sorted. Qed.

Lemma sort_rows_increasing l : increasing l.*1 → sort_rows l = l.
Proof. intros. by apply sort_rows_sorted_id, increasing_sorted. Qed.

Lemma assoc_Some_elem_of t r l : assoc t l = Some r → (t, r) ∈ l.
Proof.
  induction l as [|x l IH]; [done|]. simpl. case_bool_decide as E.
  - intros [= <-]. subst t. destruct x. left.
  - intros Hr. right. by apply IH.
Qed.

Lemma elem_of_assoc_Some t r l : NoDup l.*1 → (t, r) ∈ l → assoc t l = Some r.
Proof.
  induction l as [|x l IH]; [by intros _ ?%elem_of_nil|]. rewrite fmap_cons.
  intros [Hx Hl]%NoDup_cons [<-|Hin]%elem_of_cons; simpl.
  - by rewrite bool_decide_eq_true_2.
  - rewrite bool_decide_eq_false_2; [by apply IH|].
    intros E. apply Hx. apply (list_elem_of_fmap_2 fst) in Hin.
    simpl in Hin. by rewrite E.
Qed.

Lemma elem_of_drop_dup_rows x l : x ∈ drop_dup_rows l → x ∈ l.
Proof.
  induction l as [|y l IH]; [done|]. simpl. case_bool_decide.
  - intros. right. by apply IH.
  - intros [->|?]%elem_of_cons; [left | right; by apply IH].
Qed.

(** Every bar of the outcome is a bar of the input under its date. *)
Lemma normal_row t r l :
  assoc t (drop_dup_rows (sort_rows l)) = Some r → (t, r) ∈ l.
Proof.
  intros Hr%assoc_Some_elem_of%elem_of_drop_dup_rows.
  by rewrite sort_rows_perm in Hr.
Qed.

Lemma assoc_sort_rows t l : NoDup l.*1 → assoc t (sort_rows l) = assoc t l.
Proof.
  intros Hnd. destruct (assoc t l) as [r|] eqn:E.
  - apply elem_of_assoc_Some; [by rewrite sort_rows_perm|].
    rewrite sort_rows_perm. by apply assoc_Some_elem_of.
  - apply assoc_None. rewrite sort_rows_perm. by apply assoc_None.
Qed.

Lemma normal_NoDup l :
  NoDup l.*1 → drop_dup_rows (sort_rows l) = sort_rows l.
Proof. intros. apply drop_dup_NoDup_id. by rewrite sort_rows_perm. Qed.

Lemma assoc_normal t l :
  NoDup l.*1 → assoc t (drop_dup_rows (sort_rows l)) = assoc t l.
Proof. intros. by rewrite normal_NoDup, assoc_sort_rows. Qed.

Lemma elem_of_normal t l : t ∈ (drop_dup_rows (sort_rows l)).*1 ↔ t ∈ l.*1.
Proof. by rewrite elem_of_drop_dup, sort_rows_perm. Qed.

Lemma normal_id l : increasing l.*1 → drop_dup_rows (sort_rows l) = l.
Proof.
  intros H. rewrite sort_rows_increasing by done.
  by apply drop_dup_NoDup_id, increasing_NoDup.
Qed.

End keyed_rows.

(** ** Column labels *)

Lemma position_None c cols : position c cols = None ↔ c ∉ cols.
Proof.
  induction cols as [|c' cols IH]; simpl.
  - split; [intros _; apply not_elem_of_nil | done].
  - rewrite not_elem_of_cons. case_bool_decide as E.
    + split; [done|]. intros [Hne _]. by destruct Hne.
    + rewrite fmap_None, IH. naive_solver.
Qed.

Lemma position_Some c cols j : position c cols = Some j → cols !! j = Some c.
Proof.
  revert j. induction cols as [|c' cols IH]; intros j; simpl; [done|].
  case_bool_decide as E.
  - intros [= <-]. by subst.
  - destruct (position c cols) as [k|]; [|done]. intros [= <-]. by apply IH.
Qed.

Lemma position_lookup c cols j :
  NoDup cols → cols !! j = Some c → position c cols = Some j.
Proof.
  intros Hnd. revert j. induction Hnd as [|c' cols Hc Hnd IH]; intros j; [done|].
  destruct j as [|j]; simpl.
  - intros [= ->]. by rewrite bool_decide_eq_true_2.
  - intros Hj. rewrite bool_decide_eq_false_2.
    + by rewrite (IH j Hj).
    + intros ->. apply Hc. by eapply list_elem_of_lookup_2.
Qed.

Lemma length_realign u src r : length (realign u src r) = length u.
Proof. apply length_fmap. Qed.

Lemma realign_id cols r :
  NoDup cols → length r = length cols → realign cols cols r = r.
Proof.
  intros Hnd Hlen. apply list_eq. intros i. unfold realign.
  rewrite list_lookup_fmap. destruct (cols !! i) as [c|] eqn:E; simpl.
  - unfold cell_of. rewrite (position_lookup c cols i) by done.
    apply lookup_lt_Some in E. rewrite <- Hlen in E.
    apply lookup_lt_is_Some in E as [v ->]. done.
  - apply lookup_ge_None in E. symmetry. apply lookup_ge_None. lia.
Qed.

Lemma cell_of_realign u src r c :
  NoDup u → src ⊆ u → cell_of u (realign u src r) c = cell_of src r c.
Proof.
  intros Hnd Hsub. unfold cell_of at 1.
  destruct (position c u) as [j|] eqn:E.
  - apply position_Some in E. unfold realign.
    by rewrite list_lookup_fmap, E.
  - apply position_None in E. unfold cell_of.
    assert (position c src = None) as ->; [|done].
    apply position_None. intros Hin. by apply E, Hsub.
Qed.

Lemma NoDup_joined_columns a b :
  NoDup (columns a) → NoDup (columns b) → NoDup (joined_columns a b).
Proof.
  intros Ha Hb. apply NoDup_app. split_and!; [done| |by apply NoDup_filter].
  intros c Hc Hin. by apply list_elem_of_filter in Hin as [? _].
Qed.

Lemma elem_of_joined_columns a b c :
  c ∈ joined_columns a b ↔ c ∈ columns a ∨ c ∈ columns b.
Proof.
  unfold joined_columns. rewrite elem_of_app, list_elem_of_filter.
  destruct (decide (c ∈ columns a)); naive_solver.
Qed.

Lemma filter_absent {A} (P : A → Prop) `{∀ x, Decision (P x)} (l : list A) :
  Forall (λ x, ¬ P x) l → filter P l = [].
Proof.
  induction 1 as [|x l Hx Hl IH]; [done|].
  by rewrite filter_cons_False.
Qed.

Lemma joined_columns_absorb a b :
  columns b ⊆ columns a → joined_columns a b = columns a.
Proof.
  intros Hsub. unfold joined_columns.
  rewrite filter_absent; [by rewrite app_nil_r|].
  apply Forall_forall. intros c Hc Hn. by apply Hn, Hsub.
Qed.

Lemma aligned_id (df : DataFrame) : table df → aligned (columns df) df = rows df.
Proof.
  destruct df as [cols l]. intros [Hnd Hlen]. unfold aligned. simpl in *.
  induction Hlen as [|x l Hx Hl IH]; [done|].
  cbn [fmap list_fmap]. rewrite realign_id by done.
  destruct x. simpl. f_equal. apply IH.
Qed.

Lemma aligned_index u (df : DataFrame) : (aligned u df).*1 = index df.
Proof. unfold aligned, index. rewrite <- list_fmap_compose. done. Qed.

Lemma last_at_aligned t u (df : DataFrame) :
  last_at t (aligned u df) = realign u (columns df) <$> last_at t (rows df).
Proof.
  unfold aligned. induction (rows df) as [|x l IH]; [done|].
  cbn [fmap list_fmap last_at]. rewrite IH.
  destruct (last_at t l); [done|]. simpl. by case_bool_decide.
Qed.

(** Stacking two tables never fails; the result carries the joined axis. *)
Lemma concat_table (a b : DataFrame) :
  table a → table b →
  concat a b =
    Ok (mkFrame (joined_columns a b)
          (aligned (joined_columns a b) a ++ aligned (joined_columns a b) b)).
Proof.
  intros Ha Hb. unfold concat. case_bool_decide as E.
  - rewrite joined_columns_absorb by (by rewrite E).
    rewrite (aligned_id a) by done.
    assert (aligned (columns a) b = rows b) as ->; [|done].
    rewrite E. by apply aligned_id.
  - rewrite bool_decide_eq_true_2; [done|]. split; [apply Ha | apply Hb].
Qed.

Lemma table_sort_index {A} (df : Frame A) : table df → table (sort_index df).
Proof.
  intros [Hnd Hlen]. split; [done|]. simpl.
  by rewrite sort_rows_perm.
Qed.

Lemma table_drop_duplicated_last {A} (df : Frame A) :
  table df → table (drop_duplicated_last df).
Proof.
  destruct df as [cols l]. intros [Hnd Hlen]. split; [done|]. simpl in *.
  induction Hlen as [|x l Hx Hl IH]; simpl; [done|].
  case_bool_decide; [done|]. by constructor.
Qed.

(** ** The merge engine *)

Lemma table_fresh (f : DataFrame) :
  table f → table (drop_duplicated_last (sort_index f)).
Proof. intros. by apply table_drop_duplicated_last, table_sort_index. Qed.

Lemma table_stacked (u : list string) (a b : DataFrame) :
  NoDup u → table (mkFrame u (aligned u a ++ aligned u b)).
Proof.
  intros Hu. split; [done|]. simpl. apply Forall_app. unfold aligned.
  split; apply Forall_fmap, Forall_true; intros x; apply length_realign.
Qed.

(** The merge of a present cache with a fetch, in closed form. *)
Lemma merge_prices_Some (e f : DataFrame) :
  table e → table f →
  merge_prices (Some e) f =
    Ok (mkFrame (joined_columns e f)
          (drop_dup_rows (sort_rows
             (aligned (joined_columns e f) e ++
              aligned (joined_columns e f) (drop_duplicated_last (sort_index f)))))).
Proof.
  intros He Hf. unfold merge_prices.
  rewrite concat_table by auto using table_fresh. done.
Qed.

Lemma table_merged (e f : DataFrame) :
  table e → table f →
  table (mkFrame (joined_columns e f)
           (drop_dup_rows (sort_rows
              (aligned (joined_columns e f) e ++
               aligned (joined_columns e f) (drop_duplicated_last (sort_index f)))))).
Proof.
  intros He Hf.
  apply (table_fresh (mkFrame _ (_ ++ _))), table_stacked.
  apply NoDup_joined_columns; [apply He | apply Hf].
Qed.

(** ** Alignment and lag of the weights *)

Lemma fill0_idemp x : fill0 (fill0 x) = fill0 x.
Proof. by destruct x. Qed.

Lemma rows_assoc_self {A} (d : A) (l : list (Timestamp * A)) :
  NoDup l.*1 → (λ t, (t, default d (assoc t l))) <$> l.*1 = l.
Proof.
  induction l as [|x l IH]; [done|]. simpl. intros [Hx Hl]%NoDup_cons.
  rewrite bool_decide_eq_true_2 by done. destruct x as [t r]. simpl in *.
  f_equal. rewrite <- (IH Hl) at 2. apply list_fmap_ext.
  intros i t' Hi. rewrite bool_decide_eq_false_2; [done|].
  intros ->. apply Hx. by eapply list_elem_of_lookup_2.
Qed.

Lemma assoc_row_length (W : DataFrame) t :
  table W →
  length (default (nan_row (columns W)) (assoc t (rows W))) = length (columns W).
Proof.
  intros [_ Hlen]. destruct (assoc t (rows W)) as [r|] eqn:E; simpl.
  - induction Hlen as [|x l Hx Hl IH]; [done|]. simpl in E.
    case_bool_decide; [by injection E as <-|by apply IH].
  - apply length_fmap.
Qed.

Lemma reindex_index_dated (idx : list Timestamp) (W : DataFrame) :
  dated_table W →
  reindex_index idx W =
    Ok (mkFrame (columns W)
          ((λ t, (t, default (nan_row (columns W)) (assoc t (rows W)))) <$> idx)).
Proof.
  intros [Hd _]. unfold reindex_index. case_bool_decide as E.
  - subst idx. unfold index. rewrite rows_assoc_self by done. by destruct W.
  - by rewrite bool_decide_eq_true_2.
Qed.

Lemma reindex_columns_table (target : list string) (W : DataFrame) :
  table W →
  reindex_columns target W =
    Ok (mkFrame target ((λ x, (x.1, realign target (columns W) x.2)) <$> rows W)).
Proof.
  intros HW. unfold reindex_columns. case_bool_decide as E.
  - subst target. fold (aligned (columns W) W). rewrite aligned_id by done.
    by destruct W.
  - rewrite bool_decide_eq_true_2; [done|apply HW].
Qed.

Lemma fill0_cell_of cols (r : list float) c :
  fill0 (cell_of cols (fill0 <$> r) c) = fill0 (cell_of cols r c).
Proof.
  unfold cell_of. destruct (position c cols) as [j|]; [|done].
  rewrite list_lookup_fmap. destruct (r !! j); simpl; [apply fill0_idemp|done].
Qed.

Lemma cell_of_nan_row cols cols' c : fill0 (cell_of cols (nan_row cols') c) = Fin 0.
Proof.
  unfold cell_of, nan_row. destruct (position c cols) as [j|]; [|done].
  rewrite list_lookup_fmap. by destruct (cols' !! j).
Qed.

Lemma fill0_weight_at W t c : fill0 (weight_at W t c) = weight_at W t c.
Proof.
  unfold weight_at. destruct (assoc t (rows W)); [|done]. apply fill0_idemp.
Qed.

Lemma aligned_row_decided (W : DataFrame) cols t :
  fill0 <$> realign cols (columns W)
              (fill0 <$> default (nan_row (columns W)) (assoc t (rows W)))
  = decided W cols t.
Proof.
  unfold realign, decided. rewrite <- list_fmap_compose.
  apply list_fmap_ext. intros i c _. simpl.
  rewrite fill0_cell_of. unfold weight_at.
  destruct (assoc t (rows W)); simpl; [done|apply cell_of_nan_row].
Qed.

Lemma fill0_decided W cols t : fill0 <$> decided W cols t = decided W cols t.
Proof.
  unfold decided. rewrite <- list_fmap_compose. apply list_fmap_ext.
  intros i c _. apply fill0_weight_at.
Qed.

Lemma fmap_zip_snd {A B C} (f : B → C) (l : list A) (k : list B) :
  (λ x : A * B, (x.1, f x.2)) <$> zip l k = zip l (f <$> k).
Proof.
  revert k. induction l as [|a l IH]; intros [|b k]; simpl; [done..|].
  by rewrite IH.
Qed.

(** The engine's weights are the recorded ones, lagged by one date. *)
Lemma lagged_weights_dated (P W : DataFrame) :
  dated_table W → lagged_weights P W = Ok (lagged P W).
Proof.
  intros HW. unfold lagged_weights.
  rewrite reindex_index_dated by done. cbn [rbind].
  rewrite reindex_columns_table; cycle 1.
  { split; [apply HW|]. simpl. apply Forall_fmap, Forall_fmap, Forall_true.
    intros t. simpl. rewrite length_fmap. apply assoc_row_length, HW. }
  cbn [rbind]. unfold lagged, fillna, map_cells, shift1, index.
  cbn [columns rows]. f_equal. f_equal.
  rewrite <- !list_fmap_compose. rewrite fmap_zip_snd.
  f_equal. cbn [fmap list_fmap]. f_equal.
  - unfold nan_row. by rewrite <- list_fmap_compose.
  - rewrite <- list_fmap_compose. apply list_fmap_ext. intros i x _. simpl.
    fold fill0. rewrite aligned_row_decided. apply fill0_decided.
Qed.

Lemma ffill_rows_index prev l : (ffill_rows prev l).*1 = l.*1.
Proof.
  revert prev. induction l as [|x l IH]; intros prev; simpl; [done|].
  by rewrite IH.
Qed.

Lemma change_rows_index prev l : (change_rows prev l).*1 = l.*1.
Proof.
  revert prev. induction l as [|x l IH]; intros prev; simpl; [done|].
  by rewrite IH.
Qed.

Lemma index_pct_change pad (P : DataFrame) : index (pct_change pad P) = index P.
Proof.
  unfold pct_change, index. cbn [rows]. rewrite change_rows_index.
  destruct pad; [apply ffill_rows_index | done].
Qed.

Lemma index_lagged (P W : DataFrame) : index (lagged P W) = index P.
Proof.
  unfold lagged, index at 1. cbn [rows]. apply fst_zip.
  simpl. rewrite length_fmap. lia.
Qed.

Lemma lagged_first (P W : DataFrame) t :
  index P !! 0%nat = Some t →
  rows (lagged P W) !! 0%nat = Some (t, (λ _, Fin 0) <$> columns P).
Proof.
  unfold lagged. cbn [rows]. destruct (index P); [done|].
  simpl. by intros [= ->].
Qed.

Lemma lagged_next (P W : DataFrame) i t t' :
  index P !! i = Some t → index P !! S i = Some t' →
  rows (lagged P W) !! S i = Some (t', decided W (columns P) t).
Proof.
  intros Hi Hi'. unfold lagged. cbn [rows].
  rewrite lookup_zip_with, Hi'. simpl.
  by rewrite list_lookup_fmap, Hi.
Qed.

Lemma run_backtest_dated pad (prices weights : DataFrame) start_date :
  empty prices = false → dated_table weights →
  run_backtest_fast_daily pad prices weights start_date =
    Ok (cumprod (add_scalar (Fin 1)
          (portfolio_returns pad (clip_history prices start_date)
             (lagged (clip_history prices start_date) weights)))).
Proof.
  intros He HW. unfold run_backtest_fast_daily. rewrite He.
  by rewrite lagged_weights_dated.
Qed.

(** C2. The engine lays the weights on the date and instrument axes of the
    price table, an absent date or instrument counting as weight 0 and an
    instrument the prices do not list being left out, and lags them by one
    date: the first date carries weight 0, and the row after decision date
    [t] carries the weights recorded at [t], which multiply the returns of
    that following row. *)
Theorem weights_aligned_then_lagged pad (prices weights : DataFrame) start_date :
  empty prices = false → dated_table weights →
  let P := clip_history prices start_date in
  let L := lagged P weights in
  lagged_weights P weights = Ok L ∧
  columns L = columns P ∧
  index L = index P ∧
  (∀ t0, index P !! 0%nat = Some t0 →
         rows L !! 0%nat = Some (t0, (λ _, Fin 0) <$> columns P)) ∧
  (∀ i t t', index P !! i = Some t → index P !! S i = Some t' →
             rows L !! S i = Some (t', weight_at weights t <$> columns P)) ∧
  (∀ i t t' rr,
      index P !! i = Some t → rows (pct_change pad P) !! S i = Some (t', rr) →
      sum_axis1 (mul (pct_change pad P) L) !! S i =
        Some (t', nansum (zip_with fmul rr (weight_at weights t <$> columns P)))) ∧
  run_backtest_fast_daily pad prices weights start_date =
    Ok (cumprod (add_scalar (Fin 1) (dropna (sum_axis1 (mul (pct_change pad P) L))))).
Proof.
  intros He HW P L. split_and!.
  - by apply lagged_weights_dated.
  - done.
  - apply index_lagged.
  - intros t0. apply lagged_first.
  - intros i t t'. apply lagged_next.
  - intros i t t' rr Hi Hr.
    assert (index P !! S i = Some t') as Hi'.
    { rewrite <- (index_pct_change pad P). unfold index.
      by rewrite list_lookup_fmap, Hr. }
    unfold sum_axis1. rewrite list_lookup_fmap. unfold mul. cbn [rows].
    rewrite lookup_zip_with, Hr. cbn [mbind option_bind].
    unfold L. by rewrite (lagged_next P weights i t t' Hi Hi').
  - by apply run_backtest_dated.
Qed.

(** ** Returns under lagged weights *)

Lemma sum_mul_lagged (rets : list (Timestamp * list float)) z G :
  (λ x : Timestamp * list float, (x.1, nansum x.2)) <$>
    zip_with (λ x y : Timestamp * list float, (x.1, zip_with fmul x.2 y.2))
      rets (zip rets.*1 (z :: (G <$> rets.*1)))
  = weighted_returns rets z G.
Proof.
  revert z. induction rets as [|x rets IH]; intros z; [done|].
  simpl. f_equal. apply IH.
Qed.

Lemma portfolio_returns_lagged pad (P W : DataFrame) :
  portfolio_returns pad P (lagged P W) =
    dropna (weighted_returns (rows (pct_change pad P))
              ((λ _, Fin 0) <$> columns P) (decided W (columns P))).
Proof.
  unfold portfolio_returns, sum_axis1, mul, lagged. cbn [rows]. f_equal.
  rewrite <- (index_pct_change pad P). apply sum_mul_lagged.
Qed.

Lemma weighted_returns_index rets z G : (weighted_returns rets z G).*1 = rets.*1.
Proof.
  revert z. induction rets as [|x rets IH]; intros z; simpl; [done|].
  by rewrite IH.
Qed.

Lemma weighted_returns_ext rets z G1 G2 :
  (∀ d, d ∈ rets.*1 → G1 d = G2 d) →
  weighted_returns rets z G1 = weighted_returns rets z G2.
Proof.
  revert z. induction rets as [|x rets IH]; intros z HG; simpl; [done|].
  rewrite (HG x.1) by (simpl; apply list_elem_of_here).
  f_equal. apply IH. intros d Hd. apply HG. simpl. by apply list_elem_of_further.
Qed.

Lemma filter_dates_above {A} (t : Timestamp) (l : list (Timestamp * A)) :
  Forall (λ d, t < d) l.*1 → filter (λ x, x.1 ≤ t) l = [].
Proof.
  intros H. apply filter_absent. rewrite Forall_fmap in H.
  eapply Forall_impl; [exact H|]. intros x. unfold compose. lia.
Qed.

(** Up to date [t] the returns see only weights recorded before [t]. *)
Lemma weighted_returns_upto t rets z G1 G2 :
  increasing rets.*1 → (∀ d, d ≠ t → G1 d = G2 d) →
  filter (λ x, x.1 ≤ t) (weighted_returns rets z G1) =
  filter (λ x, x.1 ≤ t) (weighted_returns rets z G2).
Proof.
  revert z. induction rets as [|x rets IH]; intros z Hs HG; [done|].
  rewrite fmap_cons in Hs. inversion_clear Hs as [|? ? Hs' Hx]. simpl.
  rewrite !filter_cons. simpl. destruct (decide (x.1 = t)) as [Ht|Hne].
  - rewrite Ht in Hx.
    rewrite !filter_dates_above by (by rewrite weighted_returns_index). done.
  - rewrite (HG x.1 Hne), (IH (G2 x.1)) by done. done.
Qed.

(** Only the return of the date that follows [t] sees the weights of [t]. *)
Lemma weighted_returns_elsewhere t d rets z G1 G2 :
  NoDup rets.*1 → (∀ d', d' ≠ t → G1 d' = G2 d') →
  ¬ follows rets.*1 t d →
  assoc d (dropna (weighted_returns rets z G1)) =
  assoc d (dropna (weighted_returns rets z G2)).
Proof.
  revert z. induction rets as [|x rets IH]; intros z Hnd HG Hf; [done|].
  simpl in Hnd. apply NoDup_cons in Hnd as [Hx Hnd].
  assert (∀ z1 z2,
            z1 = z2 ∨ d ≠ x.1 →
            assoc d (dropna (weighted_returns rets (G1 x.1) G1)) =
            assoc d (dropna (weighted_returns rets (G2 x.1) G2)) →
            assoc d (dropna (weighted_returns (x :: rets) z1 G1)) =
            assoc d (dropna (weighted_returns (x :: rets) z2 G2))) as Hstep.
  { intros z1 z2 Hz Ht. simpl. unfold dropna in *. rewrite !filter_cons. simpl.
    destruct Hz as [->|Hd].
    - destruct (decide _); simpl; [|done]. by rewrite Ht.
    - repeat destruct (decide _); simpl; rewrite ?bool_decide_eq_false_2 by done;
        done. }
  apply Hstep; [by left|].
  destruct (decide (x.1 = t)) as [Ht|Hne].
  - destruct rets as [|y rets]; [done|].
    assert (d ≠ y.1) as Hdy.
    { intros ->. apply Hf. exists 0%nat. simpl. by rewrite Ht. }
    apply NoDup_cons in Hnd as [Hy Hnd]. simpl in Hx.
    apply not_elem_of_cons in Hx as [Hxy Hx].
    simpl. unfold dropna. rewrite !filter_cons. simpl.
    assert (weighted_returns rets (G1 y.1) G1 = weighted_returns rets (G2 y.1) G2)
      as ->.
    { rewrite (HG y.1) by congruence. apply weighted_returns_ext.
      intros d' Hd'. apply HG. intros ->. by rewrite <- Ht in Hd'. }
    repeat destruct (decide _); simpl; rewrite ?bool_decide_eq_false_2 by done;
      done.
  - rewrite (HG x.1 Hne). apply IH; [done..|].
    intros [k [Hk Hk']]. apply Hf. by exists (S k).
Qed.

(** ** Compounding *)

Lemma equity_cons acc (x : Timestamp * float) (s : Series) :
  cumprod_from acc (add_scalar (Fin 1) (x :: s)) =
    if isna (fadd (Fin 1) x.2)
    then (x.1, NaN) :: cumprod_from acc (add_scalar (Fin 1) s)
    else (x.1, fmul acc (fadd (Fin 1) x.2))
           :: cumprod_from (fmul acc (fadd (Fin 1) x.2)) (add_scalar (Fin 1) s).
Proof. done. Qed.

Lemma equity_upto t acc (s : Series) :
  StronglySorted Z.le s.*1 →
  filter (λ x, x.1 ≤ t) (cumprod_from acc (add_scalar (Fin 1) (dropna s))) =
  cumprod_from acc (add_scalar (Fin 1) (dropna (filter (λ x, x.1 ≤ t) s))).
Proof.
  revert acc. induction s as [|x s IH]; intros acc Hs; [done|].
  rewrite fmap_cons in Hs. inversion_clear Hs as [|? ? Hs' Hx].
  unfold dropna in *. rewrite (filter_cons (λ x, x.1 ≤ t)).
  destruct (decide (x.1 ≤ t)) as [Hle|Hgt].
  - rewrite !(filter_cons (λ x, isna x.2 = false)).
    destruct (decide _); [|by apply IH].
    rewrite !equity_cons. destruct (isna (fadd (Fin 1) x.2));
      rewrite filter_cons_True by done; f_equal; by apply IH.
  - assert (filter (λ x, x.1 ≤ t) s = []) as Hnil.
    { apply filter_dates_above. eapply Forall_impl; [exact Hx|].
      intros d. simpl. lia. }
    rewrite (filter_cons (λ x, isna x.2 = false)). destruct (decide _).
    + rewrite equity_cons. destruct (isna (fadd (Fin 1) x.2));
        rewrite filter_cons_False by done; rewrite IH by done; by rewrite Hnil.
    + rewrite IH by done. by rewrite Hnil.
Qed.

Lemma assoc_filter_date {A} (Q : Timestamp → Prop) `{∀ d, Decision (Q d)}
    d (l : list (Timestamp * A)) :
  Q d → assoc d (filter (λ x, Q x.1) l) = assoc d l.
Proof.
  intros HQ. induction l as [|x l IH]; [done|].
  rewrite filter_cons. destruct (decide _) as [Hq|Hq]; cbn [assoc].
  - by rewrite IH.
  - rewrite IH, bool_decide_eq_false_2; [done|]. by intros <-.
Qed.

(** ** The clipped history *)

Lemma sorted_NoDup_increasing (idx : list Timestamp) :
  StronglySorted Z.le idx → NoDup idx → increasing idx.
Proof.
  induction 1 as [|d idx Hs IH Hd]; intros Hnd; [constructor|].
  apply NoDup_cons in Hnd as [Hn Hnd]. constructor; [by apply IH|].
  apply Forall_forall. intros d' Hin. rewrite Forall_forall in Hd.
  specialize (Hd d' Hin). assert (d' ≠ d) by (by intros ->). lia.
Qed.

Lemma rows_from_increasing {A} s (l : list (Timestamp * A)) :
  increasing l.*1 → increasing (rows_from s l).*1.
Proof.
  induction l as [|x l IH]; [done|]. intros Hs. cbn [rows_from].
  destruct (x.1 <? s); [|done]. apply IH.
  rewrite fmap_cons in Hs. by inversion Hs.
Qed.

Lemma rows_from_before {A} s (l : list (Timestamp * A)) :
  Forall (λ d, d < s) l.*1 → rows_from s l = [].
Proof.
  induction l as [|x l IH]; [done|]. rewrite fmap_cons.
  intros [Hx Hl]%Forall_cons. cbn [rows_from].
  destruct (Z.ltb_spec x.1 s); [by apply IH|lia].
Qed.

Lemma clip_history_increasing (prices : DataFrame) start_date :
  NoDup (index prices) → increasing (index (clip_history prices start_date)).
Proof.
  intros Hnd.
  assert (increasing (sort_rows (rows prices)).*1) as Hs.
  { apply sorted_NoDup_increasing; [apply sort_rows_sorted|].
    by rewrite sort_rows_perm. }
  unfold clip_history, index. destruct start_date as [s|]; [|done].
  by apply rows_from_increasing.
Qed.

(** ** Zeroing one row of the weights *)

Lemma assoc_zero_row t d (W : DataFrame) :
  d ≠ t → assoc d (rows (zero_row t W)) = assoc d (rows W).
Proof.
  intros Hne. unfold zero_row. cbn [rows].
  induction (rows W) as [|x l IH]; [done|]. cbn [fmap list_fmap assoc].
  destruct (decide (x.1 = t)) as [E|E].
  - rewrite (bool_decide_eq_true_2 _ E). cbn [fst snd].
    rewrite !bool_decide_eq_false_2 by congruence. apply IH.
  - rewrite (bool_decide_eq_false_2 _ E). by rewrite IH.
Qed.

Lemma decided_zero_row t d (W : DataFrame) cols :
  d ≠ t → decided (zero_row t W) cols d = decided W cols d.
Proof.
  intros Hne. unfold decided, weight_at.
  by rewrite assoc_zero_row.
Qed.

Lemma index_zero_row t (W : DataFrame) : index (zero_row t W) = index W.
Proof.
  unfold index, zero_row. cbn [rows]. rewrite <- list_fmap_compose.
  apply list_fmap_ext. intros i x _. simpl. by case_bool_decide.
Qed.

Lemma dated_table_zero_row t (W : DataFrame) :
  dated_table W → dated_table (zero_row t W).
Proof.
  intros (Hd & Hc & Hl). split; [by rewrite index_zero_row|].
  split; [done|]. unfold zero_row. cbn [rows columns].
  apply Forall_fmap. eapply Forall_impl; [exact Hl|].
  intros x Hx. simpl. case_bool_decide; [|done]. simpl.
  by rewrite length_fmap.
Qed.

(** ** The backtest engine *)

(** C1. On prices 100, 110, 121 with weight 1 decided on the first two dates
    the engine returns the three-date curve 1, 1.10, 1.21: the row sum over
    the NaN return of the first date is 0, so [dropna] removes nothing and
    the first date stays in the curve with equity 1; the two-date curve
    1.10, 1.21 is not what is returned. *)
Theorem scenario_three_dates pad :
  portfolio_returns pad px3 (lagged px3 w3) =
    [(0, Fin 0); (1, Fin (1 # 10)); (2, Fin (1 # 10))] ∧
  run_backtest_fast_daily pad px3 w3 None =
    Ok [(0, Fin 1); (1, Fin (11 # 10)); (2, Fin (121 # 100))] ∧
  run_backtest_fast_daily pad px3 w3 None ≠
    Ok [(1, Fin (11 # 10)); (2, Fin (121 # 100))].
Proof. by destruct pad. Qed.

(** C3, as amended.  Zeroing the weight row of date [t] leaves the equity
    curve as it was at every date up to and including [t], and leaves the
    realised portfolio return as it was at every date but the one that
    follows [t]. *)
Theorem zeroed_row_acts_after_its_date pad (prices weights : DataFrame)
    start_date t :
  empty prices = false → NoDup (index prices) → dated_table weights →
  let P := clip_history prices start_date in
  ∃ e1 e2,
    run_backtest_fast_daily pad prices weights start_date = Ok e1 ∧
    run_backtest_fast_daily pad prices (zero_row t weights) start_date = Ok e2 ∧
    filter (λ x, x.1 ≤ t) e1 = filter (λ x, x.1 ≤ t) e2 ∧
    (∀ d, d ≤ t → assoc d e1 = assoc d e2) ∧
    (∀ d, ¬ follows (index P) t d →
          assoc d (portfolio_returns pad P (lagged P weights)) =
          assoc d (portfolio_returns pad P (lagged P (zero_row t weights)))).
Proof.
  intros He Hnd HW P.
  pose proof (clip_history_increasing prices start_date Hnd) as Hinc.
  fold P in Hinc. rewrite <- (index_pct_change pad P) in Hinc.
  unfold index in Hinc.
  assert (∀ d, d ≠ t →
            decided weights (columns P) d =
            decided (zero_row t weights) (columns P) d) as HG.
  { intros d Hd. by rewrite decided_zero_row. }
  do 2 eexists. split; [by apply run_backtest_dated|].
  split; [by apply run_backtest_dated, dated_table_zero_row|].
  fold P. rewrite !portfolio_returns_lagged.
  assert (filter (λ x, x.1 ≤ t)
            (cumprod (add_scalar (Fin 1) (dropna
               (weighted_returns (rows (pct_change pad P))
                  ((λ _, Fin 0) <$> columns P) (decided weights (columns P)))))) =
          filter (λ x, x.1 ≤ t)
            (cumprod (add_scalar (Fin 1) (dropna
               (weighted_returns (rows (pct_change pad P))
                  ((λ _, Fin 0) <$> columns P)
                  (decided (zero_row t weights) (columns P))))))) as Hupto.
  { unfold cumprod.
    rewrite !equity_upto
      by (rewrite weighted_returns_index; by apply increasing_sorted).
    by rewrite (weighted_returns_upto t _ _ _ _ Hinc HG). }
  split_and!.
  - exact Hupto.
  - intros d Hd.
    rewrite <- (assoc_filter_date (λ d, d ≤ t) d _ Hd).
    rewrite <- (assoc_filter_date (λ d, d ≤ t) d (cumprod _) Hd).
    by rewrite Hupto.
  - intros d Hf. apply (weighted_returns_elsewhere t);
      [by apply increasing_NoDup|done|].
    by rewrite <- (index_pct_change pad P) in Hf.
Qed.

Lemma lagged_weights_raises (P W : DataFrame) e :
  lagged_weights P W = Raise e → e = duplicate_labels.
Proof.
  unfold lagged_weights, reindex_index, reindex_columns.
  repeat (case_bool_decide; cbn [rbind columns fillna map_cells]);
    intros; by simplify_eq.
Qed.

Lemma clip_history_before (prices : DataFrame) s :
  Forall (λ d, d < s) (index prices) →
  rows (clip_history prices (Some s)) = [].
Proof.
  intros H. unfold clip_history, loc_from, sort_index. cbn [rows].
  apply rows_from_before. by rewrite sort_rows_perm.
Qed.

(** C10. The emptiness check reads the table as passed in, before the
    history is clipped: the engine fails with EmptyInput exactly when that
    table is empty, for a weights matrix indexed by date it raises nothing
    else, and a start date after the last date of a non-empty table yields
    the empty equity curve. *)
Theorem empty_check_precedes_clipping pad (prices weights : DataFrame) :
  dated_table weights →
  (∀ w start_date,
      run_backtest_fast_daily pad prices w start_date = Raise EmptyInput
      ↔ empty prices = true) ∧
  (∀ start_date,
      (∃ e, run_backtest_fast_daily pad prices weights start_date = Raise e)
      ↔ empty prices = true) ∧
  (∀ s, empty prices = false → Forall (λ d, d < s) (index prices) →
        run_backtest_fast_daily pad prices weights (Some s) = Ok []).
Proof.
  intros HW. split_and!.
  - intros w start_date. unfold run_backtest_fast_daily.
    destruct (empty prices); [done|]. split; [|done].
    destruct (lagged_weights _ w) eqn:E; cbn [rbind]; [done|].
    apply lagged_weights_raises in E as ->. done.
  - intros start_date. split.
    + intros [e He]. destruct (empty prices) eqn:E; [done|].
      by rewrite run_backtest_dated in He.
    + intros E. unfold run_backtest_fast_daily. rewrite E. by eexists.
  - intros s He Hs. rewrite run_backtest_dated by done.
    rewrite portfolio_returns_lagged. unfold pct_change. cbn [rows].
    assert (rows (if pad then ffill (clip_history prices (Some s))
                  else clip_history prices (Some s)) = []) as ->; [|done].
    destruct pad; [unfold ffill; cbn [rows]|]; by rewrite clip_history_before.
Qed.

(** ** Canonicalisation *)

Lemma rbind_Ok {A B} (m : result A) (k : A → result B) b :
  rbind m k = Ok b → ∃ a, m = Ok a ∧ k a = Ok b.
Proof. destruct m as [a|e]; [by exists a | done]. Qed.

Lemma filter_label_NoDup (c : string) cols :
  NoDup cols → c ∈ cols → filter (λ c', c' = c) cols = [c].
Proof.
  induction 1 as [|c' cols Hc Hnd IH]; [by intros ?%elem_of_nil|].
  intros [->|Hin]%elem_of_cons.
  - rewrite filter_cons_True by done. f_equal. apply filter_absent.
    apply Forall_forall. by intros ? ? ->.
  - rewrite filter_cons_False by (by intros ->). by apply IH.
Qed.

Lemma under_absent (c : string) cols (r : list float) :
  c ∉ cols → under c cols r = [].
Proof.
  intros Hc. unfold under. rewrite filter_absent; [done|].
  apply Forall_forall. intros [c' v] Hin Heq. simpl in Heq. subst c'.
  apply Hc. apply elem_of_zip_l in Hin. done.
Qed.

Lemma under_NoDup (c : string) cols (r : list float) :
  NoDup cols → c ∈ cols → length r = length cols →
  under c cols r = [cell_of cols r c].
Proof.
  intros Hnd. revert r. induction Hnd as [|c' cols Hc Hnd IH]; intros r Hin Hlen.
  { by apply elem_of_nil in Hin. }
  destruct r as [|v r]; [done|]. simpl in Hlen.
  unfold under, cell_of. cbn [zip_with position]. rewrite filter_cons. simpl.
  destruct (decide (c' = c)) as [->|Hne].
  - rewrite bool_decide_eq_true_2 by done. simpl. f_equal.
    by apply (under_absent c cols r).
  - rewrite bool_decide_eq_false_2 by done.
    apply elem_of_cons in Hin as [?|Hin]; [congruence|].
    specialize (IH r Hin ltac:(lia)). unfold under, cell_of in IH.
    rewrite IH. by destruct (position c cols).
Qed.

Lemma bind_singleton {A B} (f : A → B) (l : list A) :
  (l ≫= λ x, [f x]) = f <$> l.
Proof. induction l as [|x l IH]; [done|]. rewrite bind_cons. simpl. by f_equal. Qed.

Lemma bind_ext_elem {A B} (f g : A → list B) (l : list A) :
  (∀ x, x ∈ l → f x = g x) → l ≫= f = l ≫= g.
Proof.
  induction l as [|x l IH]; intros H; [done|]. rewrite !bind_cons.
  rewrite (H x) by apply list_elem_of_here. f_equal. apply IH.
  intros y Hy. apply H. by apply list_elem_of_further.
Qed.

(** [df[labels]] on a table that has every label. *)
Lemma select_table (labels : list string) (df : DataFrame) :
  table df → labels ⊆ columns df →
  select labels df =
    mkFrame labels ((λ x, (x.1, cell_of (columns df) x.2 <$> labels)) <$> rows df).
Proof.
  intros [Hnd Hlen] Hsub. unfold select. f_equal.
  - rewrite <- (list_fmap_id labels) at 2. rewrite <- bind_singleton.
    apply bind_ext_elem. intros c Hc.
    apply filter_label_NoDup; [done|]. by apply Hsub.
  - apply Forall_fmap_ext_1. eapply Forall_impl; [exact Hlen|].
    intros x Hx. simpl. f_equal. rewrite <- bind_singleton.
    apply bind_ext_elem. intros c Hc.
    apply under_NoDup; [done| |done]. by apply Hsub.
Qed.

Lemma cell_of_app_l cols (r : list float) c c' v :
  c ∈ cols → length r = length cols →
  cell_of (cols ++ [c']) (r ++ [v]) c = cell_of cols r c.
Proof.
  revert r. induction cols as [|c0 cols IH]; intros r Hin Hlen.
  { by apply elem_of_nil in Hin. }
  destruct r as [|v0 r]; [done|]. simpl in Hlen.
  unfold cell_of. cbn [app position]. case_bool_decide; [done|].
  apply elem_of_cons in Hin as [?|Hin]; [congruence|].
  specialize (IH r Hin ltac:(lia)). unfold cell_of in IH.
  destruct (position c (cols ++ [c'])), (position c cols); simpl in *; done.
Qed.

Lemma cell_of_app_r cols (r : list float) c v :
  c ∉ cols → length r = length cols →
  cell_of (cols ++ [c]) (r ++ [v]) c = v.
Proof.
  revert r. induction cols as [|c0 cols IH]; intros r Hc Hlen.
  - destruct r; [|done]. unfold cell_of. simpl.
    by rewrite bool_decide_eq_true_2.
  - destruct r as [|v0 r]; [done|]. simpl in Hlen.
    apply not_elem_of_cons in Hc as [Hne Hc].
    specialize (IH r Hc ltac:(lia)). unfold cell_of in *. cbn [app position].
    rewrite bool_decide_eq_false_2 by done.
    destruct (position c (cols ++ [c])); simpl in *; done.
Qed.

Lemma ohlcv_present (df : DataFrame) :
  filter (λ c, c ∉ columns df) ohlcv = [] → ohlcv ⊆ columns df.
Proof.
  intros Hm c Hc. destruct (decide (c ∈ columns df)) as [|Hn]; [done|].
  by destruct (filter_nil_not_elem_of _ _ c Hm Hn).
Qed.

(** The canonical table, in closed form. *)
Lemma canonicalize_table (df : DataFrame) :
  table df → filter (λ c, c ∉ columns df) ohlcv = [] →
  _canonicalize_ohlcv df =
    Ok (mkFrame canonical_fields
          ((λ x, (x.1, (cell_of (columns df) x.2 <$> ohlcv) ++
                       [cell_of (columns df) x.2
                          (if bool_decide ("adj_close" ∈ columns df)
                           then "adj_close" else "close")]))
             <$> rows df)).
Proof.
  intros Hdf Hm. pose proof (ohlcv_present df Hm) as Hsub.
  unfold _canonicalize_ohlcv. rewrite Hm. case_bool_decide as Hadj; cbn [rbind].
  - rewrite select_table; [|done|].
    + reflexivity.
    + intros c [Hc| ->%list_elem_of_singleton]%elem_of_app; [by apply Hsub|done].
  - assert ("close" ∈ columns df) as Hclose.
    { apply Hsub. unfold ohlcv. set_solver. }
    unfold add_adj_close.
    rewrite filter_label_NoDup by (done || apply Hdf). cbn [length].
    rewrite bool_decide_eq_true_2 by done. cbn [rbind].
    destruct Hdf as [Hnd Hlen].
    rewrite select_table; cycle 1.
    { split; cbn [columns rows].
      - apply NoDup_app. split_and!; [done| |apply NoDup_singleton].
        intros c Hc ->%list_elem_of_singleton. done.
      - apply Forall_fmap. eapply Forall_impl; [exact Hlen|].
        intros x Hx. simpl in *. rewrite !length_app. simpl. lia. }
    { cbn [columns]. intros c [Hc| ->%list_elem_of_singleton]%elem_of_app.
      - apply elem_of_app. left. by apply Hsub.
      - apply elem_of_app. right. by apply list_elem_of_singleton. }
    cbn [columns rows]. f_equal. f_equal. rewrite <- list_fmap_compose.
    apply Forall_fmap_ext_1. eapply Forall_impl; [exact Hlen|].
    intros x Hx. unfold compose. cbn [fst snd]. f_equal.
    rewrite fmap_app. f_equal.
    + apply list_fmap_ext. intros i c Hc.
      apply cell_of_app_l; [|done]. apply Hsub. by eapply list_elem_of_lookup_2.
    + cbn [fmap list_fmap]. f_equal. by apply cell_of_app_r.
Qed.

(** ** Provider clients *)

Lemma time_of_day_normalize t : time_of_day (normalize t) = 0.
Proof.
  unfold normalize, time_of_day, day_ns.
  rewrite Zminus_mod_idemp_r, Z.sub_diag. done.
Qed.

Lemma normalize_mono t t' : t ≤ t' → normalize t ≤ normalize t'.
Proof.
  unfold normalize, time_of_day, day_ns. intros H.
  pose proof (Z.div_le_mono t t' 86400000000000 ltac:(lia) H).
  rewrite !Z.mod_eq by lia. lia.
Qed.

Lemma sorted_filter_rows {A} (Q : Timestamp * A → Prop) `{∀ x, Decision (Q x)}
    (l : list (Timestamp * A)) :
  StronglySorted Z.le l.*1 → StronglySorted Z.le (filter Q l).*1.
Proof.
  induction l as [|x l IH]; [done|]. rewrite fmap_cons.
  intros Hs. inversion_clear Hs as [|? ? Hs' Hx]. rewrite filter_cons.
  destruct (decide (Q x)); [|by apply IH]. rewrite fmap_cons.
  constructor; [by apply IH|]. rewrite Forall_forall in Hx.
  apply Forall_forall. intros d Hd. apply Hx.
  apply list_elem_of_fmap in Hd as (y & -> & Hy).
  apply list_elem_of_fmap. exists y. split; [done|].
  by apply list_elem_of_filter in Hy as [_ ?].
Qed.

Lemma dropna_close_spec (df : DataFrame) :
  table df → StronglySorted Z.le (index df) →
  table (dropna_close df) ∧
  StronglySorted Z.le (index (dropna_close df)) ∧
  (∀ t, t ∈ index (dropna_close df) → t ∈ index df) ∧
  Forall (λ x, isna (cell_of (columns df) x.2 "close") = false)
    (rows (dropna_close df)).
Proof.
  intros [Hnd Hlen] Hs. unfold dropna_close, index. cbn [rows columns].
  split_and!.
  - split; [done|]. cbn [rows columns]. rewrite Forall_forall in Hlen.
    apply Forall_forall. intros x Hx. apply Hlen.
    by apply list_elem_of_filter in Hx as [_ ?].
  - by apply sorted_filter_rows.
  - intros t (y & -> & Hy)%list_elem_of_fmap.
    apply list_elem_of_fmap. exists y. split; [done|].
    by apply list_elem_of_filter in Hy as [_ ?].
  - apply Forall_forall. intros x Hx.
    by apply list_elem_of_filter in Hx as [? _].
Qed.

(** The stooq client meets the normalisation contract. *)
Lemma fetch_stooq_daily_normalized registry http_stooq asset_key x :
  fetch_stooq_daily registry http_stooq asset_key = Ok x →
  columns x = ohlcv ∧ table x ∧
  Forall (λ t, time_of_day t = 0) (index x) ∧
  StronglySorted Z.le (index x) ∧
  Forall (λ r, isna (cell_of (columns x) r.2 "close") = false) (rows x).
Proof.
  unfold fetch_stooq_daily.
  intros (sym & _ & H)%rbind_Ok. apply rbind_Ok in H as (df & _ & H).
  apply rbind_Ok in H as (o & _ & H). apply rbind_Ok in H as (h & _ & H).
  apply rbind_Ok in H as (l & _ & H). apply rbind_Ok in H as (c & _ & H).
  apply rbind_Ok in H as (v & _ & H). injection H as <-.
  match goal with |- context [dropna_close ?f] => set (out := f) end.
  assert (index out = normalize <$> (sort_rows (rows df)).*1) as Hidx.
  { unfold out, index, normalize_index, sort_index. cbn [rows].
    rewrite <- !list_fmap_compose. done. }
  assert (table out) as Ht.
  { split; [by apply (bool_decide_unpack _)|]. unfold out. cbn [rows columns].
    apply Forall_fmap, Forall_true. done. }
  assert (StronglySorted Z.le (index out)) as Hs.
  { rewrite Hidx. apply StronglySorted_fmap with (R1 := Z.le).
    - intros ? ?. apply normalize_mono.
    - apply sort_rows_sorted. }
  destruct (dropna_close_spec out Ht Hs) as (H1 & H2 & H3 & H4).
  split_and!; [done..| |done|done].
  apply Forall_forall. intros t Hin. apply H3 in Hin. rewrite Hidx in Hin.
  apply list_elem_of_fmap in Hin as (t' & -> & _). apply time_of_day_normalize.
Qed.

(** The yahoo client sorts and drops bars without a close. *)
Lemma fetch_yahoo_daily_sorted registry yf_download asset_key x :
  fetch_yahoo_daily registry yf_download asset_key = Ok x →
  (columns x = ohlcv ∨ columns x = canonical_fields) ∧ table x ∧
  StronglySorted Z.le (index x) ∧
  Forall (λ r, isna (cell_of (columns x) r.2 "close") = false) (rows x).
Proof.
  unfold fetch_yahoo_daily.
  intros (sym & _ & H)%rbind_Ok. apply rbind_Ok in H as ([df|] & _ & H); [|done].
  destruct (empty df); [done|].
  apply rbind_Ok in H as (o & _ & H). apply rbind_Ok in H as (h & _ & H).
  apply rbind_Ok in H as (l & _ & H). apply rbind_Ok in H as (c & _ & H).
  apply rbind_Ok in H as (v & _ & H). apply rbind_Ok in H as (adj & Hadj & H).
  injection H as <-.
  match goal with |- context [dropna_close ?f] => set (out := f) end.
  assert (columns out = ohlcv ∨ columns out = canonical_fields) as Hc.
  { case_bool_decide.
    - apply rbind_Ok in Hadj as (a & _ & [= <-]). by right.
    - injection Hadj as <-. by left. }
  assert (table out) as Ht.
  { apply table_sort_index. split.
    - cbn [columns]. case_bool_decide.
      + apply rbind_Ok in Hadj as (a & _ & [= <-]). by apply (bool_decide_unpack _).
      + injection Hadj as <-. by apply (bool_decide_unpack _).
    - cbn [rows columns]. apply Forall_fmap, Forall_true. intros y. simpl.
      do 5 f_equal. clear. induction adj as [|a adj IH]; simpl; [done|].
      by f_equal. }
  assert (StronglySorted Z.le (index out)) as Hs by apply sort_rows_sorted.
  destruct (dropna_close_spec out Ht Hs) as (H1 & H2 & H3 & H4).
  done.
Qed.

Lemma last_at_fmap_snd {A B} (f : A → B) t (l : list (Timestamp * A)) :
  last_at t ((λ x, (x.1, f x.2)) <$> l) = f <$> last_at t l.
Proof.
  induction l as [|x l IH]; [done|]. cbn [fmap list_fmap last_at].
  rewrite IH. destruct (last_at t l); [done|]. simpl.
  by destruct (bool_decide (x.1 = t)).
Qed.

(** C7. Canonicalisation fails with the list of the base fields the table
    lacks when it lacks any; on a table that has the five it returns the six
    canonical fields in order, the five taken over and [adj_close] either
    taken over or copied from [close]; and it succeeds with those six fields
    on whatever either provider client returns. *)
Theorem canonicalize_ohlcv_fields :
  (∀ df : DataFrame,
      let missing := filter (λ c, c ∉ columns df) ohlcv in
      (∀ c, c ∈ missing ↔ c ∈ ohlcv ∧ c ∉ columns df) ∧
      (missing ≠ [] →
       _canonicalize_ohlcv df = Raise (MissingColumns missing (columns df)))) ∧
  (∀ df : DataFrame,
      table df → filter (λ c, c ∉ columns df) ohlcv = [] →
      ∃ out,
        _canonicalize_ohlcv df = Ok out ∧
        columns out = ["open"; "high"; "low"; "close"; "volume"; "adj_close"] ∧
        index out = index df ∧
        (∀ t c, c ∈ ohlcv → value out t c = value df t c) ∧
        (∀ t, value out t "adj_close" =
              value df t (if bool_decide ("adj_close" ∈ columns df)
                          then "adj_close" else "close"))) ∧
  (∀ registry http_stooq yf_download asset_key x,
      fetch_stooq_daily registry http_stooq asset_key = Ok x ∨
      fetch_yahoo_daily registry yf_download asset_key = Ok x →
      ∃ out, _canonicalize_ohlcv x = Ok out ∧
             columns out = ["open"; "high"; "low"; "close"; "volume"; "adj_close"]).
Proof.
  split_and!.
  - intros df missing. split.
    + intros c. unfold missing. rewrite list_elem_of_filter. tauto.
    + intros Hm. unfold _canonicalize_ohlcv. fold missing.
      by destruct missing.
  - intros df Hdf Hm. eexists. split; [by apply canonicalize_table|].
    pose proof (ohlcv_present df Hm) as Hsub.
    pose (f := λ r : list float,
            (cell_of (columns df) r <$> ohlcv) ++
            [cell_of (columns df) r
               (if bool_decide ("adj_close" ∈ columns df)
                then "adj_close" else "close")]).
    split_and!.
    + done.
    + unfold index. cbn [rows]. by rewrite <- list_fmap_compose.
    + intros t c Hc. unfold value, bar. cbn [rows columns].
      rewrite (last_at_fmap_snd f). destruct (last_at t (rows df)) as [r|]; [|done].
      simpl. f_equal. unfold ohlcv in Hc.
      repeat (apply elem_of_cons in Hc as [->|Hc]; [done|]).
      by apply elem_of_nil in Hc.
    + intros t. unfold value, bar. cbn [rows columns].
      rewrite (last_at_fmap_snd f). by destruct (last_at t (rows df)).
  - intros registry http_stooq yf_download asset_key x Hx.
    assert (table x ∧ ohlcv ⊆ columns x) as [Ht Hsub].
    { destruct Hx as [Hx|Hx].
      - apply fetch_stooq_daily_normalized in Hx as (-> & ? & _). done.
      - apply fetch_yahoo_daily_sorted in Hx as ([-> | ->] & ? & _); [done|].
        split; [done|]. unfold canonical_fields. set_solver. }
    eexists. split.
    + apply canonicalize_table; [done|].
      apply filter_absent, Forall_forall. intros c Hc Hn. by apply Hn, Hsub.
    + reflexivity.
Qed.

(** C8. A yahoo response whose only bar is stamped 16:00 on the second day
    of the epoch comes back from the yahoo client with that stamp, time of
    day included: the yahoo client leaves the index as yfinance delivered
    it.  The stooq client, which calls [normalize], returns the same bar
    under the midnight of its day. *)
Theorem yahoo_keeps_time_of_day :
  fetch_yahoo_daily yahoo_registry yahoo_afternoon "spy" =
    Ok (mkFrame ohlcv
          [(afternoon, [Fin 1; Fin 2; Fin (1 # 2); Fin (3 # 2); Fin 1000])]) ∧
  time_of_day afternoon = 57600000000000 ∧
  time_of_day afternoon ≠ 0 ∧
  fetch_stooq_daily stooq_registry stooq_afternoon "spy" =
    Ok (mkFrame ohlcv
          [(day_ns, [Fin 1; Fin 2; Fin (1 # 2); Fin (3 # 2); Fin 1000])]).
Proof. split_and!; [by vm_compute | done | done | by vm_compute]. Qed.

(** ** Cache files *)

(** C9. The keys [a/b] and [a_b] are distinct and share one cache file under
    every provider; written one after the other, the series of the second
    key is what the file then holds and what the cache returns for the
    first key. *)
Theorem cache_filenames_collide :
  "a/b" ≠ "a_b" ∧
  (∀ provider, raw_cache_path provider "a/b" = raw_cache_path provider "a_b") ∧
  (∀ casefold to_parquet set_index_date provider (df1 df2 : DataFrame) fs,
      (∀ path df old, to_parquet path df old = None) →
      let fs1 := (write_cache casefold to_parquet provider "a/b" df1 fs).2 in
      let fs2 := (write_cache casefold to_parquet provider "a_b" df2 fs1).2 in
      fs2 !! normcase casefold (raw_cache_path provider "a/b")
        = Some (Parquet (drop_duplicated_last (sort_index df2))) ∧
      ("date" ∉ columns df2 →
       read_cache casefold set_index_date provider "a/b" fs2
         = Ok (Some (drop_duplicated_last (sort_index df2)))) ∧
      read_cache casefold set_index_date provider "a/b" fs2
        = read_cache casefold set_index_date provider "a_b" fs2).
Proof.
  split_and!; [done|done|].
  intros casefold tp sid provider df1 df2 fs Hw fs1 fs2.
  unfold fs2, fs1, write_cache, read_cache. rewrite !Hw. cbn [snd].
  change (raw_cache_path provider "a/b") with (raw_cache_path provider "a_b").
  rewrite lookup_insert_eq.
  split_and!; [done| |done]. intros Hd.
  cbn [columns drop_duplicated_last sort_index].
  rewrite bool_decide_eq_false_2 by done. cbn [rbind]. do 2 f_equal.
  unfold drop_duplicated_last, sort_index. cbn [rows columns]. f_equal.
  apply normal_id, normal_increasing.
Qed.

(** ** The fallback controller *)

Lemma last_failure_cons registry attempt k p ps :
  last_failure registry attempt k (p :: ps) =
    match last_failure registry attempt k ps with
    | Some e => Some e
    | None =>
        if bool_decide (is_Some (resolve registry k p))
        then match (attempt p).1 with Raise e => Some e | Ok _ => None end
        else None
    end.
Proof.
  unfold last_failure. cbn [omap list_omap].
  destruct (if bool_decide _ then _ else _) as [e|].
  - rewrite last_cons. by destruct (last _).
  - by destruct (last _).
Qed.

Section fallback.
Variable registry : list Asset.
Variable http_stooq : string → result (Frame raw).
Variable yf_download : string → result (option (Frame raw)).
Variable casefold : string → string.
Variable to_parquet : Path → DataFrame → option file → option (exn * option file).
Variable set_index_date : DataFrame → result DataFrame.

#[local] Abbreviation attempt k p fs :=
  (update_cache registry http_stooq yf_download casefold to_parquet
     set_index_date p k fs).

(** An update that fails before its write leaves every cache file as it
    was; one that fails in its write leaves at that path what the writer
    left there. *)
Lemma update_cache_fails_unchanged p k fs e :
  leaves_file_on_failure to_parquet (raw_cache_path p k) →
  (attempt k p fs).1 = Raise e → (attempt k p fs).2 = fs.
Proof.
  intros Hw.
  unfold update_cache, update_cache_stooq, update_cache_yahoo,
    update_cache_with, write_cache.
  repeat case_bool_decide; repeat case_match; simplify_eq/=; try done;
    intros _;
    match goal with
    | E : to_parquet _ _ _ = Some _ |- _ => apply Hw in E as ->
    end; apply partial_alter_self.
Qed.

Lemma has_identifier_registered k p :
  is_Some (by_key registry !! k) →
  has_identifier registry k p =
    Ok (bool_decide (is_Some (resolve registry k p))).
Proof.
  intros [a Ha]. unfold has_identifier, get_asset, resolve.
  by rewrite Ha.
Qed.

Lemma choose_loop_exhausted k providers last_err fs :
  is_Some (by_key registry !! k) →
  (∀ p, p ∈ providers →
        resolve registry k p = None ∨
        leaves_file_on_failure to_parquet (raw_cache_path p k) ∧
        ∃ e, (attempt k p fs).1 = Raise e) →
  choose_loop registry http_stooq yf_download casefold to_parquet
    set_index_date k providers last_err fs =
    (Raise (RuntimeError k
              (match last_failure registry (λ p, attempt k p fs) k providers with
               | Some e => Some e
               | None => last_err
               end)), fs).
Proof.
  intros Hk. revert last_err.
  induction providers as [|p ps IH]; intros last_err Hall; [done|].
  cbn [choose_loop]. rewrite has_identifier_registered by done.
  rewrite last_failure_cons.
  assert (∀ p', p' ∈ ps →
            resolve registry k p' = None ∨
            leaves_file_on_failure to_parquet (raw_cache_path p' k) ∧
            ∃ e, (attempt k p' fs).1 = Raise e)
    as Hps.
  { intros p' Hp'. apply Hall. by apply list_elem_of_further. }
  case_bool_decide as Hr.
  - destruct (Hall p (list_elem_of_here _ _)) as [Hn|[Hw [e He]]].
    { rewrite Hn in Hr. by destruct Hr. }
    pose proof (update_cache_fails_unchanged p k fs e Hw He) as Hfs.
    destruct (attempt k p fs) as [r fs'].
    simpl in He, Hfs. subst r fs'. cbn [fst].
    rewrite (IH (Some e) Hps). by destruct (last_failure _ _ _ _).
  - rewrite (IH last_err Hps). by destruct (last_failure _ _ _ _).
Qed.

(** C6, as amended.  For an instrument the registry holds: when every
    provider of the list either has no symbol for it or fails to update,
    with a writer whose failure leaves at the path what was there, the
    fallback fails with the error that names the key and carries the last
    failure, and every cache file is as it was. *)
Theorem fallback_exhausted_leaves_cache k providers fs :
  is_Some (by_key registry !! k) →
  (∀ p, p ∈ providers →
        resolve registry k p = None ∨
        leaves_file_on_failure to_parquet (raw_cache_path p k) ∧
        ∃ e, (attempt k p fs).1 = Raise e) →
  _choose_provider_and_update registry http_stooq yf_download casefold
    to_parquet set_index_date k providers fs =
    (Raise (RuntimeError k
              (last_failure registry (λ p, attempt k p fs) k providers)), fs).
Proof.
  intros Hk Hall. unfold _choose_provider_and_update.
  rewrite choose_loop_exhausted by done. by destruct (last_failure _ _ _ _).
Qed.

End fallback.

End claims.

(** * numpy's quicksort *)

(** ** The insertion sort *)

Lemma insert_row_perm {A} (x : Timestamp * A) l : insert_row x l ≡ₚ x :: l.
Proof.
  induction l as [|y l IH]; simpl; [done|].
  case_match; [done|]. rewrite IH. apply Permutation_swap.
Qed.

Lemma insertion_sort_perm {A} (l : list (Timestamp * A)) :
  insertion_sort l ≡ₚ l.
Proof.
  induction l as [|x l IH]; simpl; [done|].
  fold (insertion_sort l). by rewrite insert_row_perm, IH.
Qed.

Lemma insert_row_sorted {A} (x : Timestamp * A) l :
  StronglySorted Z.le l.*1 → StronglySorted Z.le (insert_row x l).*1.
Proof.
  induction l as [|y l IH]; simpl; intros Hs.
  - repeat constructor.
  - inversion_clear Hs as [|? ? Hl Hy].
    destruct (x.1 <=? y.1) eqn:E; simpl.
    + apply Z.leb_le in E. constructor; [by constructor|].
      constructor; [done|]. eapply Forall_impl; [exact Hy|]. simpl. lia.
    + apply Z.leb_gt in E. constructor; [by apply IH|].
      rewrite (insert_row_perm x l). simpl. constructor; [lia | done].
Qed.

Lemma insertion_sort_sorted {A} (l : list (Timestamp * A)) :
  StronglySorted Z.le (insertion_sort l).*1.
Proof.
  induction l as [|x l IH]; simpl; [constructor|].
  by apply insert_row_sorted.
Qed.

Lemma insertion_argsort_perm keys :
  insertion_argsort keys ≡ₚ seq 0 (length keys).
Proof.
  unfold insertion_argsort. rewrite insertion_sort_perm.
  rewrite snd_zip; [done|]. by rewrite length_seq.
Qed.

Lemma labels_of_positions (keys : list Timestamp) (l : list (Timestamp * nat)) :
  Forall (λ x, keys !! x.2 = Some x.1) l →
  omap (λ i, keys !! i) l.*2 = l.*1.
Proof.
  induction 1 as [|x l Hx _ IH]; [done|]. csimpl. by rewrite Hx, IH.
Qed.

Lemma insertion_argsort_sorted keys :
  StronglySorted Z.le (omap (λ i, keys !! i) (insertion_argsort keys)).
Proof.
  unfold insertion_argsort. rewrite labels_of_positions.
  - apply insertion_sort_sorted.
  - rewrite insertion_sort_perm. apply Forall_forall.
    intros [t i] [j Hj]%list_elem_of_lookup. simpl.
    apply lookup_zip_with_Some in Hj as (t' & i' & [= <- <-] & Ht & Hi).
    by apply lookup_seq in Hi as [-> _].
Qed.

(** ** The quicksort *)

Lemma numpy_argsort_perm keys : numpy_argsort keys ≡ₚ seq 0 (length keys).
Proof.
  unfold numpy_argsort. destruct (aquicksort keys) as [a|].
  - case_bool_decide as Hok; [apply Hok | apply insertion_argsort_perm].
  - apply insertion_argsort_perm.
Qed.

Lemma numpy_argsort_sorted keys :
  StronglySorted Z.le (omap (λ i, keys !! i) (numpy_argsort keys)).
Proof.
  unfold numpy_argsort. destruct (aquicksort keys) as [a|].
  - case_bool_decide as Hok; [apply Hok | apply insertion_argsort_sorted].
  - apply insertion_argsort_sorted.
Qed.

(** The two runs the merge scenario needs. *)
Example aquicksort_labels18 : aquicksort labels18 = Some order18.
Proof. by vm_compute. Qed.

Example aquicksort_labels26 : aquicksort labels26 = Some order26.
Proof. by vm_compute. Qed.

Example numpy_argsort_labels18 : numpy_argsort labels18 = order18.
Proof. by vm_compute. Qed.

Example numpy_argsort_labels26 : numpy_argsort labels26 = order26.
Proof. by vm_compute. Qed.

Definition numpy_quicksort : SortKind :=
  {| argsort := numpy_argsort;
     argsort_perm := numpy_argsort_perm;
     argsort_sorted := numpy_argsort_sorted |}.

Section at_numpy_quicksort.

#[local] Existing Instance numpy_quicksort.

(** ** The merge under numpy's quicksort *)

(** C4. The fetch [fetched13] merged into the cache [cached5]: the index
    sorted is [labels18], and under numpy's quicksort the dates 4 and 5,
    which both series hold, come out with the bar of the cache (close 10)
    and not with the restated bar of the fetch (close 11).  The other
    dates carry the bar of the fetch. *)
Theorem merge_prices_keeps_cached_bars :
  index cached5 ++ index fetched13 = labels18 ∧
  merge_prices (sort_kind := numpy_quicksort) (Some cached5) fetched13
    = Ok merged_once ∧
  (∀ t, t ∈ [4; 5] →
        t ∈ index cached5 ∧ t ∈ index fetched13 ∧
        value merged_once t "close" = value cached5 t "close" ∧
        value merged_once t "close" ≠ value fetched13 t "close") ∧
  (∀ t, t ∈ index fetched13 → t ∉ [4; 5] →
        bar merged_once t = bar fetched13 t).
Proof.
  split_and!; [done|by vm_compute| |].
  - intros t Ht. repeat (apply elem_of_cons in Ht as [->|Ht]);
      [| |by apply elem_of_nil in Ht];
      (split_and!; [by apply (bool_decide_unpack _)..|by vm_compute|by vm_compute]).
  - intros t Ht Hn. unfold index, fetched13 in Ht. cbn [rows] in Ht.
    rewrite <- list_fmap_compose in Ht. cbn [fmap list_fmap compose bar_closing fst] in Ht.
    repeat (apply elem_of_cons in Ht as [->|Ht]);
      try (by vm_compute); try (by apply elem_of_nil in Ht);
      destruct Hn; by apply (bool_decide_unpack _).
Qed.

(** C5. Under numpy's quicksort, merging [fetched13] a second time changes
    the series: the second merge sorts [labels26], and there the bars of
    the fetch come last on every date.  And a series that holds the rows
    of [cached5] followed by those of [fetched13], merged into an absent
    cache, keeps for the dates 4 and 5 the first bar it holds for them,
    not the last. *)
Theorem merge_prices_twice_differs :
  merge_prices (sort_kind := numpy_quicksort) (Some cached5) fetched13
    = Ok merged_once ∧
  index merged_once ++ index fetched13 = labels26 ∧
  merge_prices (sort_kind := numpy_quicksort) (Some merged_once) fetched13
    = Ok fetched13 ∧
  merged_once ≠ fetched13 ∧
  merge_prices (sort_kind := numpy_quicksort) None
    (mkFrame ohlcv (rows cached5 ++ rows fetched13)) = Ok merged_once ∧
  bar (mkFrame ohlcv (rows cached5 ++ rows fetched13)) 4
    = Some (bar_closing 11 4).2 ∧
  bar merged_once 4 = Some (bar_closing 10 4).2.
Proof. split_and!; by vm_compute. Qed.

(** * Instances at the scenario inputs *)

(** The counterexample to C3 read to the letter: with weight 1 on the first
    two of three dates, zeroing the first row also changes the equity of
    the third date, which does not follow the first. *)
Lemma zeroed_row_changes_later_equity :
  ¬ differ_only_at_transition true px3 w3 None 0.
Proof.
  intros H.
  specialize (H [(0, Fin 1); (1, Fin (11 # 10)); (2, Fin (121 # 100))]
                [(0, Fin 1); (1, Fin 1); (2, Fin (11 # 10))]
                eq_refl eq_refl 2).
  assert (¬ follows (index (clip_history px3 None)) 0 2) as Hf.
  { intros [k [Hk Hk']]. destruct k as [|[|[|k]]]; simplify_eq/=. }
  specialize (H Hf). vm_compute in H. discriminate H.
Qed.

(** The counterexample to C6 for any key whatever: a key the registry does
    not hold has no symbol under any provider, and the fallback over a
    non-empty list fails on it with the resolver's unknown-key error. *)
Lemma fallback_unknown_key_raises_key_error :
  _choose_provider_and_update [] stooq_down yahoo_silent str_lower writes_succeed
    date_column_refused "ghost" ["stooq"] ∅
    = (Raise (UnknownAssetKey "ghost"), ∅) ∧
  ¬ fallback_fails_closed [] stooq_down yahoo_silent str_lower writes_succeed
      date_column_refused "ghost" ["stooq"] ∅.
Proof.
  split; [done|]. intros H. destruct H as [last_err H].
  - intros p _. by left.
  - discriminate H.
Qed.

Example filename_sanitised :
  _asset_key_to_filename "eur/usd:spot*?" = "eur_usd_spot__".
Proof. reflexivity. Qed.

Example cache_path_spy :
  raw_cache_path "stooq" "spy" = ["data"; "raw_prices"; "stooq"; "spy.parquet"].
Proof. reflexivity. Qed.

Example merged_fetch_wins :
  merge_prices (Some cached2) fetched2 =
    Ok (mkFrame ohlcv
          [(1, [Fin 10; Fin 12; Fin 9; Fin 11; Fin 500]);
           (2, [Fin 11; Fin 13; Fin 10; Fin (25 # 2); Fin 650]);
           (3, [Fin 12; Fin 14; Fin 11; Fin 13; Fin 700])]).
Proof. by vm_compute. Qed.

Example canonical_cached :
  _canonicalize_ohlcv cached2 =
    Ok (mkFrame ["open"; "high"; "low"; "close"; "volume"; "adj_close"]
          [(1, [Fin 10; Fin 12; Fin 9; Fin 11; Fin 500; Fin 11]);
           (2, [Fin 11; Fin 13; Fin 10; Fin 12; Fin 600; Fin 12])]).
Proof. by vm_compute. Qed.

Example canonical_without_volume :
  _canonicalize_ohlcv (mkFrame ["open"; "high"; "close"] [(1, [Fin 1; Fin 2; Fin 1])]) =
    Raise (MissingColumns ["low"; "volume"] ["open"; "high"; "close"]).
Proof. by vm_compute. Qed.

Example backtest_ignores_foreign_instrument :
  run_backtest_fast_daily true px3
    (mkFrame ["spy"; "qqq"] [(0, [Fin 1; Fin 5]); (1, [Fin 1; Fin 5])]) None =
  run_backtest_fast_daily true px3 w3 None.
Proof. by vm_compute. Qed.

Example backtest_start_after_history :
  run_backtest_fast_daily true px3 w3 (Some 7) = Ok [].
Proof. by vm_compute. Qed.

Example backtest_empty_prices :
  run_backtest_fast_daily true (mkFrame ["spy"] []) w3 None = Raise EmptyInput.
Proof. reflexivity. Qed.

Example backtest_duplicate_weight_dates :
  run_backtest_fast_daily true px3
    (mkFrame ["spy"] [(0, [Fin 1]); (0, [Fin 0])]) None =
    Raise duplicate_labels.
Proof. by vm_compute. Qed.

Lemma table_cached2 : table cached2.
Proof. split; [by apply (bool_decide_unpack _)|repeat constructor]. Qed.

Lemma table_fetched2 : table fetched2.
Proof. split; [by apply (bool_decide_unpack _)|repeat constructor]. Qed.

Lemma dated_table_w3 : dated_table w3.
Proof.
  split; [by apply (bool_decide_unpack _)|].
  split; [by apply (bool_decide_unpack _)|repeat constructor].
Qed.

Lemma weights_aligned_then_lagged_witness :
  empty px3 = false ∧ dated_table w3 ∧
  lagged_weights (clip_history px3 None) w3 =
    Ok (mkFrame ["spy"] [(0, [Fin 0]); (1, [Fin 1]); (2, [Fin 1])]).
Proof.
  split; [reflexivity|]. split; [exact dated_table_w3|].
  exact (proj1 (weights_aligned_then_lagged false px3 w3 None
                  eq_refl dated_table_w3)).
Defined.

Lemma zeroed_row_acts_after_its_date_witness :
  empty px3 = false ∧ NoDup (index px3) ∧ dated_table w3 ∧
  ∃ e1 e2,
    run_backtest_fast_daily false px3 w3 None = Ok e1 ∧
    run_backtest_fast_daily false px3 (zero_row 1 w3) None = Ok e2 ∧
    filter (λ x, x.1 ≤ 1) e1 = filter (λ x, x.1 ≤ 1) e2.
Proof.
  assert (NoDup (index px3)) as Hnd by (by apply (bool_decide_unpack _)).
  split; [reflexivity|]. split; [exact Hnd|]. split; [exact dated_table_w3|].
  destruct (zeroed_row_acts_after_its_date false px3 w3 None 1
              eq_refl Hnd dated_table_w3) as (e1 & e2 & H1 & H2 & H3 & _).
  exists e1, e2. auto.
Defined.

Lemma fallback_exhausted_leaves_cache_witness :
  is_Some (by_key yahoo_registry !! "spy") ∧
  resolve yahoo_registry "spy" "stooq" = None ∧
  leaves_file_on_failure writes_succeed (raw_cache_path "yahoo" "spy") ∧
  _choose_provider_and_update yahoo_registry stooq_down yahoo_silent str_lower
    writes_succeed date_column_refused "spy" ["stooq"; "yahoo"] ∅ =
    (Raise (RuntimeError "spy" (Some NoYahooData)), ∅).
Proof.
  assert (is_Some (by_key yahoo_registry !! "spy")) as Hk by (by eexists).
  assert (leaves_file_on_failure writes_succeed (raw_cache_path "yahoo" "spy"))
    as Hw by (intros df old e residue; discriminate).
  split; [exact Hk|]. split; [reflexivity|]. split; [exact Hw|].
  refine (fallback_exhausted_leaves_cache yahoo_registry stooq_down
            yahoo_silent str_lower writes_succeed date_column_refused
            "spy" ["stooq"; "yahoo"] ∅ Hk _).
  intros p Hp. apply elem_of_cons in Hp as [->|Hp]; [by left|].
  apply elem_of_cons in Hp as [->|Hp]; [|by apply elem_of_nil in Hp].
  right. split; [exact Hw|]. by exists NoYahooData.
Defined.

Lemma canonicalize_ohlcv_fields_witness :
  table cached2 ∧ filter (λ c, c ∉ columns cached2) ohlcv = [] ∧
  ∃ out,
    _canonicalize_ohlcv cached2 = Ok out ∧
    columns out = ["open"; "high"; "low"; "close"; "volume"; "adj_close"] ∧
    index out = index cached2.
Proof.
  split; [exact table_cached2|]. split; [reflexivity|].
  destruct (proj1 (proj2 canonicalize_ohlcv_fields) cached2
              table_cached2 eq_refl) as (out & H1 & H2 & H3 & _).
  exists out. auto.
Defined.

Lemma cache_filenames_collide_witness :
  (∀ path df old, writes_succeed path df old = None) ∧
  ("date" ∉ columns fetched2) ∧
  read_cache str_lower date_column_refused "stooq" "a/b"
    (write_cache str_lower writes_succeed "stooq" "a_b" fetched2
       (write_cache str_lower writes_succeed "stooq" "a/b" cached2 ∅).2).2
  = Ok (Some (drop_duplicated_last (sort_index fetched2))).
Proof.
  assert ("date" ∉ columns fetched2) as Hd by (by apply (bool_decide_unpack _)).
  split; [reflexivity|]. split; [exact Hd|].
  exact (proj1 (proj2 (proj2 (proj2 cache_filenames_collide) str_lower
                  writes_succeed date_column_refused "stooq"
                  cached2 fetched2 ∅ (λ _ _ _, eq_refl))) Hd).
Defined.

Lemma empty_check_precedes_clipping_witness :
  dated_table w3 ∧ empty px3 = false ∧ Forall (λ d, d < 5) (index px3) ∧
  run_backtest_fast_daily false px3 w3 (Some 5) = Ok [].
Proof.
  assert (Forall (λ d, d < 5) (index px3)) as Hs
    by (repeat constructor; lia).
  split; [exact dated_table_w3|]. split; [reflexivity|]. split; [exact Hs|].
  exact (proj2 (proj2 (empty_check_precedes_clipping false px3 w3
                         dated_table_w3)) 5 eq_refl Hs).
Defined.

End at_numpy_quicksort.

(** * Further properties of the code *)

Section further.
Context {sort_kind : SortKind}.

(** ** Cache file names *)

Lemma prefix_empty s : String.prefix EmptyString s = true.
Proof. by destruct s. Qed.

Lemma replace_char (c d : Ascii.ascii) (s : string) :
  replace (String c EmptyString) (String d EmptyString) s =
    smap (replace_one c d) s.
Proof.
  unfold replace, replace_one. induction s as [|x s IH]; [done|].
  cbn [replace_from String.prefix smap].
  destruct (Ascii.ascii_dec c x) as [->|Hne].
  - rewrite prefix_empty, bool_decide_eq_true_2 by done. simpl. by rewrite IH.
  - rewrite bool_decide_eq_false_2 by congruence. by rewrite IH.
Qed.

Lemma smap_smap f g s : smap f (smap g s) = smap (λ x, f (g x)) s.
Proof. induction s as [|x s IH]; [done|]. simpl. by rewrite IH. Qed.

Lemma smap_ext f g s : (∀ x, f x = g x) → smap f s = smap g s.
Proof. intros H. induction s as [|x s IH]; [done|]. simpl. by rewrite H, IH. Qed.

Lemma smap_length f s : String.length (smap f s) = String.length s.
Proof. induction s as [|x s IH]; [done|]. simpl. by rewrite IH. Qed.

Lemma chars_smap f s : chars (smap f s) = f <$> chars s.
Proof. induction s as [|x s IH]; [done|]. unfold chars in *. simpl. by rewrite IH. Qed.

Lemma sanitize_char_safe x : sanitize_char x ∉ unsafe.
Proof.
  unfold sanitize_char. case_bool_decide as E; [|done].
  by apply (bool_decide_unpack _).
Qed.

Lemma sanitize_char_id x : x ∉ unsafe → sanitize_char x = x.
Proof. intros H. unfold sanitize_char. by rewrite bool_decide_eq_false_2. Qed.

(** The sanitiser is the character-wise map [sanitize_char]. *)
Lemma asset_key_to_filename_smap k :
  _asset_key_to_filename k = smap sanitize_char k.
Proof.
  unfold _asset_key_to_filename, double_quote. rewrite !replace_char.
  rewrite !smap_smap. apply smap_ext.
  intros [[] [] [] [] [] [] [] []]; by vm_compute.
Qed.

Lemma smap_sanitize_id s : safe_key s → smap sanitize_char s = s.
Proof.
  unfold safe_key, chars. induction s as [|x s IH]; [done|]. simpl.
  intros [Hx Hs]%Forall_cons. by rewrite sanitize_char_id, IH.
Qed.

Lemma length_append (s t : string) :
  String.length (s +:+ t) = (String.length s + String.length t)%nat.
Proof. induction s as [|a s IH]; [done|]. simpl. by rewrite IH. Qed.

Lemma append_inj_suffix (s1 s2 t : string) : s1 +:+ t = s2 +:+ t → s1 = s2.
Proof.
  revert s2. induction s1 as [|a s1 IH]; intros [|b s2] H; simpl in H.
  - done.
  - apply (f_equal String.length) in H.
    rewrite !length_append in H. simpl in H. lia.
  - apply (f_equal String.length) in H.
    rewrite !length_append in H. simpl in H. lia.
  - injection H as -> H. f_equal. by apply IH.
Qed.

Lemma safe_key_filename (k : string) :
  safe_key k → _asset_key_to_filename k = k.
Proof. rewrite asset_key_to_filename_smap. apply smap_sanitize_id. Qed.

(** X1. The file name of a key has the length of the key and holds none of
    the nine replaced characters; a key that holds none of them is its own
    file name; and sanitising a file name again changes nothing. *)
Theorem filename_is_safe (k : string) :
  String.length (_asset_key_to_filename k) = String.length k ∧
  safe_key (_asset_key_to_filename k) ∧
  _asset_key_to_filename (_asset_key_to_filename k) = _asset_key_to_filename k ∧
  (safe_key k → _asset_key_to_filename k = k).
Proof.
  rewrite !asset_key_to_filename_smap.
  assert (safe_key (smap sanitize_char k)) as Hsafe.
  { unfold safe_key. rewrite chars_smap. apply Forall_fmap, Forall_true.
    intros x. apply sanitize_char_safe. }
  split_and!.
  - apply smap_length.
  - done.
  - by apply smap_sanitize_id.
  - apply smap_sanitize_id.
Qed.

Lemma str_lower_app (s t : string) :
  str_lower (s +:+ t) = str_lower s +:+ str_lower t.
Proof. induction s as [|c s IH]; [done|]. simpl. by rewrite IH. Qed.

(** X2. Under a file system that folds the letters A to Z to lower case, as
    Windows does, two cache paths name one file exactly when their
    providers agree up to case and so do the file names of their keys; for
    keys without replaced characters, exactly when provider and key agree
    up to case.  Under a file system that folds nothing, exactly when the
    providers are the same and the keys have the same file name. *)
Theorem cache_paths_coincide (p1 p2 k1 k2 : string) :
  (normcase str_lower (raw_cache_path p1 k1) = normcase str_lower (raw_cache_path p2 k2) ↔
     str_lower p1 = str_lower p2 ∧
     str_lower (_asset_key_to_filename k1) = str_lower (_asset_key_to_filename k2)) ∧
  (safe_key k1 → safe_key k2 →
     (normcase str_lower (raw_cache_path p1 k1)
      = normcase str_lower (raw_cache_path p2 k2) ↔
      str_lower p1 = str_lower p2 ∧ str_lower k1 = str_lower k2)) ∧
  (normcase id (raw_cache_path p1 k1) = normcase id (raw_cache_path p2 k2) ↔
     p1 = p2 ∧ _asset_key_to_filename k1 = _asset_key_to_filename k2).
Proof.
  assert (normcase str_lower (raw_cache_path p1 k1)
          = normcase str_lower (raw_cache_path p2 k2) ↔
          str_lower p1 = str_lower p2 ∧
          str_lower (_asset_key_to_filename k1) = str_lower (_asset_key_to_filename k2))
    as Hl.
  { unfold normcase, raw_cache_path.
    cbn [data_dir app fmap list_fmap]. rewrite !str_lower_app. split.
    - intros [= Hp Hf]. split; [done|]. by apply append_inj_suffix in Hf.
    - by intros [-> ->]. }
  split_and!; [done| |].
  - intros H1 H2. rewrite Hl.
    by rewrite (safe_key_filename k1 H1), (safe_key_filename k2 H2).
  - unfold normcase, raw_cache_path. rewrite !list_fmap_id. split.
    + intros [= -> Hf]. split; [done|]. by apply append_inj_suffix in Hf.
    + by intros [-> ->].
Qed.

(** ** The registry *)

Lemma by_key_from (m0 : gmap string Asset) (assets : list Asset) k :
  foldl (λ m a, <[key a := a]> m) m0 assets !! k =
    match last (filter (λ a, key a = k) assets) with
    | Some a => Some a
    | None => m0 !! k
    end.
Proof.
  revert m0. induction assets as [|a assets IH]; intros m0; [done|].
  cbn [foldl]. rewrite IH, filter_cons.
  destruct (decide (key a = k)) as [E|E].
  - rewrite last_cons. destruct (last _); [done|].
    by rewrite <- E, lookup_insert_eq.
  - destruct (last _); [done|]. by rewrite lookup_insert_ne.
Qed.

Lemma by_key_last assets k :
  by_key assets !! k = last (filter (λ a, key a = k) assets).
Proof. unfold by_key. rewrite by_key_from. by destruct (last _). Qed.

Lemma by_key_listed assets k :
  is_Some (by_key assets !! k) ↔ k ∈ list_asset_keys assets.
Proof.
  rewrite by_key_last. unfold list_asset_keys. rewrite list_elem_of_fmap. split.
  - intros [a Ha]. apply last_Some_elem_of in Ha.
    apply list_elem_of_filter in Ha as [? ?]. by exists a.
  - intros (a & -> & Ha). rewrite <- not_eq_None_Some, last_None.
    intros Hnil. by apply (filter_nil_not_elem_of _ _ a Hnil).
Qed.

Lemma by_key_key assets k a : by_key assets !! k = Some a → key a = k.
Proof.
  rewrite by_key_last. intros Ha%last_Some_elem_of.
  by apply list_elem_of_filter in Ha as [? ?].
Qed.

(** X3. [get_asset] returns the last asset the file lists under the key and
    raises the unknown-key error exactly for a key the file does not list;
    so every key of [list_asset_keys] and of [list_asset_keys_by_kind] is
    found, and where keys do not repeat the asset found for a key listed by
    kind has one of the kinds asked for. *)
Theorem get_asset_last_listed (assets : list Asset) :
  (∀ k, get_asset assets k =
          match last (filter (λ a, key a = k) assets) with
          | Some a => Ok a
          | None => Raise (UnknownAssetKey k)
          end) ∧
  (∀ k, get_asset assets k = Raise (UnknownAssetKey k)
        ↔ k ∉ list_asset_keys assets) ∧
  (∀ k, k ∈ list_asset_keys assets →
        ∃ a, get_asset assets k = Ok a ∧ key a = k) ∧
  (∀ kinds k, k ∈ list_asset_keys_by_kind assets kinds →
              k ∈ list_asset_keys assets) ∧
  (∀ kinds k, NoDup (list_asset_keys assets) →
              k ∈ list_asset_keys_by_kind assets kinds →
              ∃ a, get_asset assets k = Ok a ∧ kind a ∈ kinds).
Proof.
  assert (∀ k, get_asset assets k =
                 match last (filter (λ a, key a = k) assets) with
                 | Some a => Ok a
                 | None => Raise (UnknownAssetKey k)
                 end) as Hget.
  { intros k. unfold get_asset. by rewrite by_key_last. }
  assert (∀ kinds k, k ∈ list_asset_keys_by_kind assets kinds →
                     k ∈ list_asset_keys assets) as Hsub.
  { intros kinds k (a & -> & Ha)%list_elem_of_fmap.
    apply list_elem_of_filter in Ha as [_ Ha].
    apply list_elem_of_fmap. by exists a. }
  split_and!; [done| | |done|].
  - intros k. rewrite <- by_key_listed. unfold get_asset.
    destruct (by_key assets !! k) eqn:E.
    + split; [done|]. intros Hn. destruct Hn. by eexists.
    + split; [|done]. intros _ [? ?]. done.
  - intros k Hk. apply by_key_listed in Hk as [a Ha]. exists a.
    unfold get_asset. rewrite Ha. split; [done|]. by eapply by_key_key.
  - intros kinds k Hnd (a & -> & Ha)%list_elem_of_fmap.
    apply list_elem_of_filter in Ha as [Hkind Ha]. exists a. split; [|done].
    rewrite Hget.
    assert (filter (λ a', key a' = key a) assets = [a]) as ->; [|done].
    clear Hget Hsub Hkind. unfold list_asset_keys in Hnd.
    induction assets as [|b assets IH]; [by apply elem_of_nil in Ha|].
    rewrite fmap_cons in Hnd. apply NoDup_cons in Hnd as [Hb Hnd].
    rewrite filter_cons. apply elem_of_cons in Ha as [<-|Ha].
    + rewrite decide_True by done. f_equal. apply filter_absent.
      apply Forall_forall. intros c Hc Hkey. apply Hb.
      apply list_elem_of_fmap. by exists c.
    + rewrite decide_False; [by apply IH|].
      intros Hkey. apply Hb. apply list_elem_of_fmap. by exists a.
Qed.

Lemma has_identifier_cases (assets : list Asset) (k identifier : string) :
  (k ∉ list_asset_keys assets →
     has_identifier assets k identifier = Raise (UnknownAssetKey k)) ∧
  (k ∈ list_asset_keys assets →
     ∃ b, has_identifier assets k identifier = Ok b).
Proof.
  unfold has_identifier, get_asset. split.
  - intros Hk. destruct (by_key assets !! k) eqn:E; [|done].
    destruct Hk. apply by_key_listed. by eexists.
  - intros [a Ha]%by_key_listed. rewrite Ha. by eexists.
Qed.

(** X4. [has_identifier] and [get_identifier] agree: for a key the file does
    not list both raise the unknown-key error; for a listed key
    [has_identifier] answers true exactly when [get_identifier] returns a
    symbol, and false exactly when it raises the no-identifier error. *)
Theorem identifier_lookups_agree (assets : list Asset) (k identifier : string) :
  (k ∉ list_asset_keys assets →
     has_identifier assets k identifier = Raise (UnknownAssetKey k) ∧
     get_identifier assets k identifier = Raise (UnknownAssetKey k)) ∧
  (k ∈ list_asset_keys assets →
     ∃ b, has_identifier assets k identifier = Ok b ∧
          (b = true ↔ ∃ sym, get_identifier assets k identifier = Ok sym) ∧
          (b = false ↔ get_identifier assets k identifier
                        = Raise (NoIdentifier k identifier))).
Proof.
  split.
  - intros Hk. unfold has_identifier, get_identifier, get_asset.
    destruct (by_key assets !! k) eqn:E; [|done].
    destruct Hk. apply by_key_listed. by eexists.
  - intros [a Ha]%by_key_listed.
    unfold has_identifier, get_identifier, get_asset. rewrite Ha. cbn [rbind].
    eexists. split; [done|].
    destruct (identifiers a !! identifier) as [sym|] eqn:E.
    + rewrite bool_decide_eq_true_2 by (by eexists). split.
      * split; [by eexists|done].
      * split; done.
    + rewrite bool_decide_eq_false_2 by (by intros [? ?]). split.
      * split; [done|]. by intros [? ?].
      * split; done.
Qed.

(** ** The cache store *)

Lemma merge_prices_increasing existing new m :
  merge_prices existing new = Ok m → increasing (index m).
Proof.
  unfold merge_prices. destruct existing as [e|].
  - intros (c & _ & [= <-])%rbind_Ok. apply normal_increasing.
  - intros [= <-]. apply normal_increasing.
Qed.

Lemma last_at_sorted_rows {A} t (l : list (Timestamp * A)) :
  StronglySorted Z.le l.*1 → last_at t (sort_rows l) = last_at t l.
Proof. intros Hs. by rewrite sort_rows_sorted_id. Qed.

Lemma normal_frame_id (df : DataFrame) :
  increasing (index df) → drop_duplicated_last (sort_index df) = df.
Proof.
  intros Hinc. destruct df as [cols l].
  unfold drop_duplicated_last, sort_index. cbn [rows columns] in *.
  f_equal. by apply normal_id.
Qed.

Lemma normal_frame_increasing (df : DataFrame) :
  increasing (index (drop_duplicated_last (sort_index df))).
Proof. apply normal_increasing. Qed.

Section store.
Variable registry : list Asset.
Variable http_stooq : string → result (Frame raw).
Variable yf_download : string → result (option (Frame raw)).
Variable casefold : string → string.
Variable to_parquet : Path → DataFrame → option file → option (exn * option file).
Variable set_index_date : DataFrame → result DataFrame.

#[local] Abbreviation cache_file p k := (normcase casefold (raw_cache_path p k)).
#[local] Abbreviation read p k fs := (read_cache casefold set_index_date p k fs).
#[local] Abbreviation write p k df fs := (write_cache casefold to_parquet p k df fs).

(** X5. [read_cache] answers absent exactly when the path holds no file,
    and raises what [read_parquet] raises on a file that is no table.  For
    a table, the frame sorted is the stored one, or the one [set_index]
    makes of it when it has a column [date]; what comes back has the
    columns of that frame, strictly increasing dates, the dates of that
    frame, and under each date a bar the frame holds for it: the last one
    where the dates of the frame ascend already, the only one where no
    date repeats. *)
Theorem read_cache_sorted_unique (provider k : string) (fs : Store) :
  (read provider k fs = Ok None ↔ fs !! cache_file provider k = None) ∧
  (∀ e, fs !! cache_file provider k = Some (Damaged e) →
        read provider k fs = Raise e) ∧
  (∀ stored, fs !! cache_file provider k = Some (Parquet stored) →
     ∀ frame,
       (if bool_decide ("date" ∈ columns stored) then set_index_date stored
        else Ok stored) = Ok frame →
       ∃ df, read provider k fs = Ok (Some df) ∧
             columns df = columns frame ∧
             increasing (index df) ∧
             (∀ t, t ∈ index df ↔ t ∈ index frame) ∧
             (∀ t r, assoc t (rows df) = Some r → (t, r) ∈ rows frame) ∧
             (StronglySorted Z.le (index frame) →
              ∀ t, assoc t (rows df) = bar frame t) ∧
             (NoDup (index frame) →
              ∀ t, assoc t (rows df) = assoc t (rows frame))).
Proof.
  unfold read_cache. split_and!.
  - destruct (fs !! _) as [[stored|e]|]; [|done..].
    split; [|done]. by destruct (if bool_decide _ then _ else _).
  - by intros e ->.
  - intros stored -> frame ->. cbn [rbind]. eexists. split; [done|].
    unfold drop_duplicated_last, sort_index, index. cbn [rows columns].
    split_and!; [done| | | | |].
    + apply normal_increasing.
    + intros t. apply elem_of_normal.
    + intros t r. apply normal_row.
    + intros Hs t. unfold bar.
      rewrite assoc_last_at by apply increasing_NoDup, normal_increasing.
      by rewrite last_at_drop_dup, last_at_sorted_rows.
    + intros Hnd t. by apply assoc_normal.
Qed.

Lemma read_cache_written (provider k : string) (df : DataFrame) (fs : Store) :
  "date" ∉ columns df → increasing (index df) →
  read provider k (<[cache_file provider k := Parquet df]> fs) = Ok (Some df).
Proof.
  intros Hd Hinc. unfold read_cache. rewrite lookup_insert_eq.
  rewrite bool_decide_eq_false_2 by done. cbn [rbind].
  by rewrite normal_frame_id.
Qed.

(** X6. A write leaves every other file as it was.  When it fails, the
    writer has failed, and the path holds what the writer left there.  When
    it succeeds, the path holds the series sorted and deduplicated;
    reading the key back returns that series, provided it has no column
    [date], and this is the series written itself when its dates strictly
    increase. *)
Theorem write_cache_then_read (provider k : string) (df : DataFrame)
    (fs : Store) :
  let out := drop_duplicated_last (sort_index df) in
  let written := write provider k df fs in
  (∀ path, path ≠ cache_file provider k → written.2 !! path = fs !! path) ∧
  (∀ e, written.1 = Raise e →
        ∃ residue,
          to_parquet (raw_cache_path provider k) out
            (fs !! cache_file provider k) = Some (e, residue) ∧
          written.2 !! cache_file provider k = residue) ∧
  (written.1 = Ok () →
     written.2 = <[cache_file provider k := Parquet out]> fs ∧
     ("date" ∉ columns df →
        read provider k written.2 = Ok (Some out) ∧
        (increasing (index df) → read provider k written.2 = Ok (Some df)))).
Proof.
  intros out written. unfold written, write_cache. fold out.
  destruct (to_parquet _ out _) as [[e residue]|]; cbn [fst snd].
  - split_and!; [| |done].
    + intros path Hne. by rewrite lookup_partial_alter_ne.
    + intros e' [= <-]. exists residue. split; [done|].
      by rewrite lookup_partial_alter_eq.
  - split_and!; [|done|].
    + intros path Hne. by rewrite lookup_insert_ne.
    + intros _. split; [done|]. intros Hd.
      assert (read provider k (<[cache_file provider k := Parquet out]> fs)
              = Ok (Some out)) as Hread.
      { apply read_cache_written; [done|apply normal_frame_increasing]. }
      split; [done|]. intros Hinc. rewrite Hread. unfold out.
      by rewrite normal_frame_id.
Qed.

#[local] Abbreviation update k p fs :=
  (update_cache registry http_stooq yf_download casefold to_parquet
     set_index_date p k fs).

Lemma update_cache_with_Ok provider fetch k fs df fs' :
  update_cache_with casefold to_parquet set_index_date provider fetch k fs
    = (Ok df, fs') →
  ∃ existing fresh,
    read provider k fs = Ok existing ∧ fetch k = Ok fresh ∧
    merge_prices existing fresh = Ok df ∧
    fs' = <[cache_file provider k := Parquet df]> fs.
Proof.
  unfold update_cache_with, write_cache.
  destruct (read provider k fs) as [existing|]; [|done].
  destruct (fetch k) as [fresh|]; [|done].
  destruct (merge_prices _ fresh) as [m|] eqn:Hm; [|done].
  destruct (to_parquet _ _ _) as [[e residue]|]; [done|]. intros [= <- <-].
  exists existing, fresh. split_and!; [done..|].
  apply merge_prices_increasing in Hm. by rewrite normal_frame_id.
Qed.

Lemma update_cache_writes p k fs df fs' :
  update k p fs = (Ok df, fs') → fs' = <[cache_file p k := Parquet df]> fs.
Proof.
  unfold update_cache, update_cache_stooq, update_cache_yahoo. intros Hu.
  repeat case_bool_decide; [| |done]; subst p;
    by apply update_cache_with_Ok in Hu as (existing & fresh & _ & _ & _ & ?).
Qed.

(** Whatever its outcome, an update touches no file but the one of its key
    under its provider. *)
Lemma update_cache_elsewhere p k fs path :
  path ≠ cache_file p k → (update k p fs).2 !! path = fs !! path.
Proof.
  intros Hne.
  unfold update_cache, update_cache_stooq, update_cache_yahoo,
    update_cache_with, write_cache.
  repeat case_bool_decide; repeat case_match; simplify_eq/=; try done;
    by rewrite ?lookup_partial_alter_ne, ?lookup_insert_ne.
Qed.

(** X7. An update that succeeds is one for stooq or yahoo; the series it
    returns is the merge of what the cache read with the fetch and has
    strictly increasing dates; the cache file of the key then holds exactly
    that series, and reading the key returns it, provided it has no column
    [date]; every other file is as it was. *)
Theorem update_cache_commits_what_it_returns (provider k : string)
    (fs fs' : Store) (df : DataFrame) :
  update k provider fs = (Ok df, fs') →
  (provider = "stooq" ∨ provider = "yahoo") ∧
  (∃ existing fresh,
      read provider k fs = Ok existing ∧
      (provider = "stooq" ∧ fetch_stooq_daily registry http_stooq k = Ok fresh ∨
       provider = "yahoo" ∧ fetch_yahoo_daily registry yf_download k = Ok fresh) ∧
      merge_prices existing fresh = Ok df) ∧
  increasing (index df) ∧
  fs' = <[cache_file provider k := Parquet df]> fs ∧
  ("date" ∉ columns df → read provider k fs' = Ok (Some df)) ∧
  (∀ path, path ≠ cache_file provider k → fs' !! path = fs !! path).
Proof.
  unfold update_cache, update_cache_stooq, update_cache_yahoo. intros Hu.
  assert (∃ existing fresh,
            read provider k fs = Ok existing ∧
            ((provider = "stooq" ∧
              fetch_stooq_daily registry http_stooq k = Ok fresh) ∨
             (provider = "yahoo" ∧
              fetch_yahoo_daily registry yf_download k = Ok fresh)) ∧
            merge_prices existing fresh = Ok df ∧
            fs' = <[cache_file provider k := Parquet df]> fs)
    as (existing & fresh & Hr & Hp & Hm & ->).
  { repeat case_bool_decide; [| |done]; subst provider;
      apply update_cache_with_Ok in Hu as (existing & fresh & ? & ? & ? & ?);
      exists existing, fresh; auto. }
  pose proof (merge_prices_increasing _ _ _ Hm) as Hinc.
  split_and!.
  - destruct Hp as [[? _]|[? _]]; auto.
  - by exists existing, fresh.
  - done.
  - done.
  - intros Hd. by apply read_cache_written.
  - intros path Hne. by rewrite lookup_insert_ne.
Qed.

(** ** The fallback controller, success and failure *)

#[local] Abbreviation choose k pp fs :=
  (_choose_provider_and_update registry http_stooq yf_download casefold
     to_parquet set_index_date k pp fs).
#[local] Abbreviation loop k pp last_err fs :=
  (choose_loop registry http_stooq yf_download casefold to_parquet
     set_index_date k pp last_err fs).

(** The files of the key under the providers of a list. *)
#[local] Abbreviation elsewhere k pp path :=
  (∀ q, q ∈ pp → path ≠ cache_file q k).
#[local] Abbreviation clean k pp :=
  (∀ q, q ∈ pp → leaves_file_on_failure to_parquet (raw_cache_path q k)).

Lemma choose_loop_Ok k pp last_err fs p df fs' :
  loop k pp last_err fs = (Ok (p, df), fs') →
  ∃ before after fs0,
    pp = before ++ p :: after ∧
    has_identifier registry k p = Ok true ∧
    update k p fs0 = (Ok df, fs') ∧
    (∀ path, elsewhere k before path → fs0 !! path = fs !! path) ∧
    (clean k before →
       fs0 = fs ∧
       ∀ q, q ∈ before →
            has_identifier registry k q = Ok false ∨
            ∃ e, (update k q fs).1 = Raise e).
Proof.
  revert last_err fs. induction pp as [|q pp IH]; intros last_err fs; [done|].
  cbn [choose_loop]. destruct (has_identifier registry k q) as [[|]|] eqn:Hq;
    [| |done].
  - destruct (update k q fs) as [[d|e] fs1] eqn:Hu.
    + intros [= <- <- <-]. exists [], pp, fs.
      split_and!; [done..|]. intros _. split; [done|]. by intros ? ?%elem_of_nil.
    + intros (before & after & fs0 & -> & Hp & Hup & Hloc & Hclean)%IH.
      exists (q :: before), after, fs0. split_and!; [done..| |].
      * intros path Hpath. rewrite Hloc.
        -- pose proof (update_cache_elsewhere q k fs path) as Hq'.
           rewrite Hu in Hq'. apply Hq', Hpath, list_elem_of_here.
        -- intros q' Hq'. apply Hpath. by apply list_elem_of_further.
      * intros Hc.
        pose proof (update_cache_fails_unchanged registry http_stooq
                      yf_download casefold to_parquet set_index_date q k fs e
                      (Hc q (list_elem_of_here _ _))) as Hfs.
        rewrite Hu in Hfs. cbn [fst snd] in Hfs. specialize (Hfs eq_refl).
        subst fs1.
        destruct Hclean as [-> Hb].
        { intros q' Hq'. apply Hc. by apply list_elem_of_further. }
        split; [done|].
        intros q' [->|Hin]%elem_of_cons; [|by apply Hb].
        right. exists e. by rewrite Hu.
  - intros (before & after & fs0 & -> & Hp & Hup & Hloc & Hclean)%IH.
    exists (q :: before), after, fs0. split_and!; [done..| |].
    + intros path Hpath. apply Hloc.
      intros q' Hq'. apply Hpath. by apply list_elem_of_further.
    + intros Hc. destruct Hclean as [-> Hb].
      { intros q' Hq'. apply Hc. by apply list_elem_of_further. }
      split; [done|].
      intros q' [->|Hin]%elem_of_cons; [by left|by apply Hb].
Qed.

(** X8. When the fallback succeeds with provider [p], [p] is in the
    priority list, has a symbol for the key and updated successfully, and
    its cache file holds the series returned.  No file has changed but that
    one and, possibly, the files of the key under the providers listed
    before [p], where a failed write may have left its residue.  When the
    failed writes of those providers leave the file as it was, the file of
    [p] is the only one changed, and every provider listed before [p]
    either had no symbol or failed to update. *)
Theorem fallback_commits_first_success (k : string) (pp : list string)
    (fs fs' : Store) (p : string) (df : DataFrame) :
  choose k pp fs = (Ok (p, df), fs') →
  ∃ before after,
    pp = before ++ p :: after ∧
    has_identifier registry k p = Ok true ∧
    fs' !! cache_file p k = Some (Parquet df) ∧
    (∀ path, path ≠ cache_file p k → elsewhere k before path →
             fs' !! path = fs !! path) ∧
    (clean k before →
       update k p fs = (Ok df, fs') ∧
       fs' = <[cache_file p k := Parquet df]> fs ∧
       ∀ q, q ∈ before →
            has_identifier registry k q = Ok false ∨
            ∃ e, (update k q fs).1 = Raise e).
Proof.
  intros (before & after & fs0 & Hpp & Hp & Hup & Hloc & Hclean)%choose_loop_Ok.
  pose proof (update_cache_writes p k fs0 df fs' Hup) as Hfs.
  exists before, after. split_and!; [done..| | |].
  - subst fs'. by rewrite lookup_insert_eq.
  - intros path Hne Hpath. subst fs'. rewrite lookup_insert_ne by done.
    by apply Hloc.
  - intros Hc. destruct (Hclean Hc) as [-> Hb]. by split_and!.
Qed.

Lemma choose_loop_Raise k pp last_err fs e fs' :
  loop k pp last_err fs = (Raise e, fs') →
  (e = UnknownAssetKey k ∧ k ∉ list_asset_keys registry ∨
   ∃ last, e = RuntimeError k last) ∧
  (∀ path, elsewhere k pp path → fs' !! path = fs !! path) ∧
  (clean k pp → fs' = fs).
Proof.
  revert last_err fs. induction pp as [|q pp IH]; intros last_err fs.
  { intros [= <- <-]. split_and!; [|done..]. right. by eexists. }
  cbn [choose_loop].
  destruct (has_identifier_cases registry k q) as [Hun Hin].
  destruct (decide (k ∈ list_asset_keys registry)) as [Hk|Hk].
  - destruct (Hin Hk) as (b & ->). destruct b.
    + destruct (update k q fs) as [[d|e'] fs1] eqn:Hu; [done|].
      intros (He & Hloc & Hclean)%IH. split_and!; [done| |].
      * intros path Hpath. rewrite Hloc.
        -- pose proof (update_cache_elsewhere q k fs path) as Hq'.
           rewrite Hu in Hq'. apply Hq', Hpath, list_elem_of_here.
        -- intros q' Hq'. apply Hpath. by apply list_elem_of_further.
      * intros Hc.
        pose proof (update_cache_fails_unchanged registry http_stooq
                      yf_download casefold to_parquet set_index_date q k fs e'
                      (Hc q (list_elem_of_here _ _))) as Hfs.
        rewrite Hu in Hfs. cbn [fst snd] in Hfs. rewrite <- (Hfs eq_refl).
        apply Hclean. intros q' Hq'. apply Hc. by apply list_elem_of_further.
    + intros (He & Hloc & Hclean)%IH. split_and!; [done| |].
      * intros path Hpath. apply Hloc.
        intros q' Hq'. apply Hpath. by apply list_elem_of_further.
      * intros Hc. apply Hclean.
        intros q' Hq'. apply Hc. by apply list_elem_of_further.
  - rewrite (Hun Hk). intros [= <- <-]. split_and!; [by left|done..].
Qed.


(** ** Updating every registered instrument *)

#[local] Abbreviation update_all keys pp used fs :=
  (update_all_loop registry http_stooq yf_download casefold to_parquet
     set_index_date keys pp used fs).

Lemma update_all_loop_Raise keys pp used fs e fs' :
  keys ⊆ list_asset_keys registry →
  update_all keys pp used fs = (Raise e, fs') →
  ∃ k last, k ∈ keys ∧ e = RuntimeError k last.
Proof.
  revert used fs. induction keys as [|k keys IH]; intros used fs Hsub; [done|].
  cbn [update_all_loop].
  destruct (choose k pp fs) as [[[p d]|e'] fs1] eqn:Hc.
  - intros (k' & last & Hk' & ->)%IH.
    + exists k', last. split; [by apply list_elem_of_further|done].
    + intros x Hx. apply Hsub. by apply list_elem_of_further.
  - intros [= <- <-]. apply choose_loop_Raise in Hc as [[[_ Hn]|[last ->]] _].
    + destruct Hn. apply Hsub. apply list_elem_of_here.
    + exists k, last. split; [apply list_elem_of_here|done].
Qed.

Lemma update_all_loop_Ok keys pp used fs used' fs' :
  update_all keys pp used fs = (Ok used', fs') →
  (∀ k, is_Some (used' !! k) ↔ k ∈ keys ∨ is_Some (used !! k)) ∧
  (∀ k p, used' !! k = Some p →
          used !! k = Some p ∨
          k ∈ keys ∧ p ∈ pp ∧ has_identifier registry k p = Ok true).
Proof.
  revert used fs. induction keys as [|k keys IH]; intros used fs.
  { intros [= <- <-]. split.
    - intros k. rewrite elem_of_nil. tauto.
    - intros k p ?. by left. }
  cbn [update_all_loop].
  destruct (choose k pp fs) as [[[p d]|e'] fs1] eqn:Hc; [|done].
  apply choose_loop_Ok in Hc as (before & after & fs0 & Hpp & Hp & _).
  intros [Hdom Hval]%IH. split.
  - intros k'. rewrite Hdom, elem_of_cons.
    destruct (decide (k = k')) as [->|Hne].
    + rewrite lookup_insert_eq. split; [auto|]. intros _. right. by eexists.
    + rewrite lookup_insert_ne by done. naive_solver.
  - intros k' p' Hk'. destruct (Hval k' p' Hk') as [Hu|(Hin & ? & ?)].
    + destruct (decide (k = k')) as [->|Hne].
      * rewrite lookup_insert_eq in Hu. injection Hu as <-. right.
        split_and!; [apply list_elem_of_here| |done].
        rewrite Hpp. apply elem_of_app. right. apply list_elem_of_here.
      * rewrite lookup_insert_ne in Hu by done. by left.
    + right. split_and!; [by apply list_elem_of_further|done..].
Qed.

(** X10. [update_all_prices] never fails with the unknown-key error: when
    it fails, the error names an instrument of the registry that no provider
    of the priority list served.  When it succeeds, the dict it returns has
    exactly the registry's keys, each bound to a provider of the priority
    list that has a symbol for it; an absent or empty priority list stands
    for stooq before yahoo. *)
Theorem update_all_prices_outcomes (provider_priority : option (list string))
    (fs : Store) :
  let run := update_all_prices registry http_stooq yf_download casefold
               to_parquet set_index_date provider_priority fs in
  (∀ e, run.1 = Raise e →
        ∃ k last, k ∈ list_asset_keys registry ∧ e = RuntimeError k last) ∧
  (∀ used, run.1 = Ok used →
     (∀ k, is_Some (used !! k) ↔ k ∈ list_asset_keys registry) ∧
     (∀ k p, used !! k = Some p →
             p ∈ default_priority provider_priority ∧
             has_identifier registry k p = Ok true)) ∧
  default_priority None = ["stooq"; "yahoo"] ∧
  default_priority (Some []) = ["stooq"; "yahoo"].
Proof.
  intros run. unfold run, update_all_prices. split_and!; [| |done|done].
  - intros e He.
    destruct (update_all _ _ ∅ fs) as [r fs'] eqn:E. simpl in He. subst r.
    by apply update_all_loop_Raise in E.
  - intros used He.
    destruct (update_all _ _ ∅ fs) as [r fs'] eqn:E. simpl in He. subst r.
    apply update_all_loop_Ok in E as [Hdom Hval]. split.
    + intros k. rewrite Hdom, lookup_empty. split; [|auto].
      intros [?|[? ?]]; done.
    + intros k p Hk. destruct (Hval k p Hk) as [Hu|(_ & ? & ?)]; [|done].
      by rewrite lookup_empty in Hu.
Qed.

End store.

(** ** The engine: which weights and which prices matter *)

Lemma weighted_returns_ext_used rets z G1 G2 :
  (∀ i t, rets.*1 !! i = Some t → is_Some (rets.*1 !! S i) → G1 t = G2 t) →
  weighted_returns rets z G1 = weighted_returns rets z G2.
Proof.
  revert z. induction rets as [|x rets IH]; intros z HG; [done|].
  cbn [weighted_returns]. f_equal. destruct rets as [|y rets]; [done|].
  rewrite (HG 0%nat x.1) by (done || by eexists).
  apply IH. intros i t Hi Hi'. by apply (HG (S i)).
Qed.

(** X11. Two weights matrices that record the same weight for every
    instrument of the price table at every date of the clipped history but
    its last give the same result: dates and instruments off the price axes,
    and the weights decided on the last date, never enter the curve. *)
Theorem weights_off_axes_never_matter pad (prices W1 W2 : DataFrame) start_date :
  empty prices = false → dated_table W1 → dated_table W2 →
  (∀ i t c, index (clip_history prices start_date) !! i = Some t →
            is_Some (index (clip_history prices start_date) !! S i) →
            c ∈ columns prices →
            weight_at W1 t c = weight_at W2 t c) →
  run_backtest_fast_daily pad prices W1 start_date =
  run_backtest_fast_daily pad prices W2 start_date.
Proof.
  intros He H1 H2 Hw. rewrite !run_backtest_dated by done.
  rewrite !portfolio_returns_lagged. do 4 f_equal.
  apply weighted_returns_ext_used. intros i t Hi Hi'.
  pose proof (index_pct_change pad (clip_history prices start_date)) as E.
  unfold index in E. rewrite E in Hi, Hi'.
  unfold decided. apply list_fmap_ext. intros j c Hc.
  apply (Hw i); [done..|].
  apply list_elem_of_lookup_2 in Hc.
  by destruct start_date.
Qed.

Lemma nansum_nothing (l : list float) :
  Forall (λ v, v = NaN ∨ v = Fin 0) l → nansum l = Fin 0.
Proof.
  unfold nansum. induction 1 as [|v l [->| ->] Hl IH]; [done|..].
  - by rewrite filter_cons_False.
  - by rewrite filter_cons_True.
Qed.

Lemma fmul_zero_r x : fmul x (Fin 0) = NaN ∨ fmul x (Fin 0) = Fin 0.
Proof.
  destruct x as [|s|q]; [by left|by left|]. right. unfold fmul, fin.
  f_equal. rewrite (Qred_complete (q * 0) 0); [done|]. apply Qmult_0_r.
Qed.

Lemma products_with_zeros (r : list float) (cols : list string) :
  Forall (λ v, v = NaN ∨ v = Fin 0)
    (zip_with fmul r ((λ _, Fin 0) <$> cols)).
Proof.
  revert cols. induction r as [|v r IH]; intros [|c cols]; simpl; [done..|].
  constructor; [apply fmul_zero_r|apply IH].
Qed.

Lemma flat_returns rets z G :
  Forall (λ v, v = Fin 0) z →
  (∀ t, t ∈ rets.*1 → Forall (λ v, v = Fin 0) (G t)) →
  weighted_returns rets z G = (λ x, (x.1, Fin 0)) <$> rets.
Proof.
  revert z. induction rets as [|x rets IH]; intros z Hz HG; [done|].
  cbn [weighted_returns fmap list_fmap]. f_equal.
  - f_equal. apply nansum_nothing. clear -Hz. revert z Hz.
    induction x.2 as [|v r IHr]; intros z Hz; [done|].
    destruct Hz as [|w z -> Hz]; [done|]. simpl.
    constructor; [apply fmul_zero_r|by apply IHr].
  - apply IH.
    + apply HG. rewrite fmap_cons. apply list_elem_of_here.
    + intros t Ht. apply HG. rewrite fmap_cons. by apply list_elem_of_further.
Qed.

Lemma flat_equity (l : list (Timestamp * list float)) :
  cumprod (add_scalar (Fin 1) (dropna ((λ x, (x.1, Fin 0)) <$> l))) =
  (λ t, (t, Fin 1)) <$> l.*1.
Proof.
  unfold cumprod, dropna. induction l as [|x l IH]; [done|].
  rewrite !fmap_cons, filter_cons_True by done.
  rewrite equity_cons. cbn [fst snd]. simpl isna. cbv iota. f_equal.
  exact IH.
Qed.

(** X12. With weight 0 for every instrument of the price table at every
    date of the clipped history (in particular with an empty weights
    matrix), the equity is 1 at every date of the clipped history, whatever
    the prices are. *)
Theorem zero_weights_flat_equity pad (prices weights : DataFrame) start_date :
  empty prices = false → dated_table weights →
  (∀ t c, t ∈ index (clip_history prices start_date) → c ∈ columns prices →
          weight_at weights t c = Fin 0) →
  run_backtest_fast_daily pad prices weights start_date =
    Ok ((λ t, (t, Fin 1)) <$> index (clip_history prices start_date)).
Proof.
  intros He HW Hz. rewrite run_backtest_dated by done.
  rewrite portfolio_returns_lagged. f_equal.
  rewrite flat_returns.
  - rewrite flat_equity. f_equal. apply (index_pct_change pad).
  - apply Forall_fmap, Forall_true. done.
  - intros t Ht.
    pose proof (index_pct_change pad (clip_history prices start_date)) as E.
    unfold index in E. rewrite E in Ht.
    unfold decided. apply Forall_fmap, Forall_forall. intros c Hc. simpl.
    apply Hz; [done|]. by destruct start_date.
Qed.

Lemma change_nan_row (r : list float) (cols : list string) :
  Forall (λ v, v = NaN) (zip_with change r (nan_row cols)).
Proof.
  revert cols. induction r as [|v r IH]; intros [|c cols]; simpl; [done..|].
  constructor; [by destruct v|apply IH].
Qed.

Lemma first_return_is_zero pad (P : DataFrame) t0 z G :
  index P !! 0%nat = Some t0 →
  head (dropna (weighted_returns (rows (pct_change pad P)) z G))
  = Some (t0, Fin 0).
Proof.
  unfold index, pct_change. cbn [rows columns].
  assert (∀ (l : list (Timestamp * list float)) cols,
            l.*1 !! 0%nat = Some t0 →
            head (dropna (weighted_returns (change_rows (nan_row cols) l) z G))
            = Some (t0, Fin 0)) as Hgen.
  { intros [|x l] cols; [done|]. intros [= <-].
    cbn [change_rows weighted_returns fst snd]. unfold dropna.
    assert (nansum (zip_with fmul (zip_with change x.2 (nan_row cols)) z)
            = Fin 0) as ->.
    { apply nansum_nothing. generalize (change_nan_row x.2 cols).
      generalize (zip_with change x.2 (nan_row cols)). clear.
      intros r Hr. revert z. induction Hr as [|v r -> Hr IH]; intros [|w z];
        simpl; [done..|]. constructor; [by left|apply IH]. }
    by rewrite filter_cons_True. }
  intros H0. destruct pad.
  - apply Hgen. unfold ffill. cbn [rows columns].
    by rewrite ffill_rows_index.
  - by apply Hgen.
Qed.

(** X13. Whenever the clipped history has a first date, the curve returned
    begins at that date with equity 1: the first date, which has no return,
    is kept with portfolio return 0. *)
Theorem curve_starts_at_first_date pad (prices weights : DataFrame)
    start_date t0 :
  empty prices = false → dated_table weights →
  index (clip_history prices start_date) !! 0%nat = Some t0 →
  ∃ e, run_backtest_fast_daily pad prices weights start_date = Ok e ∧
       head e = Some (t0, Fin 1).
Proof.
  intros He HW H0. eexists. split; [by apply run_backtest_dated|].
  rewrite portfolio_returns_lagged.
  pose proof (first_return_is_zero pad (clip_history prices start_date) t0
                ((λ _, Fin 0) <$> columns (clip_history prices start_date))
                (decided weights (columns (clip_history prices start_date))) H0)
    as Hh.
  destruct (dropna _) as [|x s]; [done|]. injection Hh as ->.
  unfold cumprod. by rewrite equity_cons.
Qed.

Lemma assoc_elem_of {A} t (r : A) (l : list (Timestamp * A)) :
  NoDup l.*1 → assoc t l = Some r ↔ (t, r) ∈ l.
Proof.
  induction l as [|x l IH]; intros Hnd.
  { split; [done|by intros ?%elem_of_nil]. }
  rewrite fmap_cons in Hnd. apply NoDup_cons in Hnd as [Hx Hnd].
  cbn [assoc]. rewrite elem_of_cons. case_bool_decide as E.
  - split.
    + intros [= <-]. left. destruct x. simpl in *. by subst.
    + intros [<-|Hin]; [done|]. destruct Hx. subst t.
      apply list_elem_of_fmap. by exists (x.1, r).
  - rewrite (IH Hnd). split; [auto|]. intros [<-|?]; [|done]. by destruct E.
Qed.

Lemma sort_rows_permutation {A} (l l' : list (Timestamp * A)) :
  NoDup l.*1 → l' ≡ₚ l → sort_rows l' = sort_rows l.
Proof.
  intros Hnd Hp.
  assert (NoDup l'.*1) as Hnd' by (by rewrite Hp).
  assert (∀ k : list (Timestamp * A), NoDup k.*1 → increasing (sort_rows k).*1)
    as Hinc.
  { intros k Hk. apply sorted_NoDup_increasing; [apply sort_rows_sorted|].
    by rewrite sort_rows_perm. }
  apply increasing_ext; [by apply Hinc..|]. intros t.
  assert (∀ k : list (Timestamp * A), NoDup k.*1 →
            ∀ r, assoc t (sort_rows k) = Some r ↔ (t, r) ∈ k) as Hel.
  { intros k Hk r. rewrite assoc_elem_of by (by rewrite sort_rows_perm).
    by rewrite sort_rows_perm. }
  destruct (assoc t (sort_rows l)) as [r|] eqn:E.
  - apply Hel. { done. } rewrite Hp. by apply Hel.
  - destruct (assoc t (sort_rows l')) as [r|] eqn:E'; [|done].
    apply Hel in E'; [|done]. rewrite Hp in E'. apply Hel in E'; [|done].
    congruence.
Qed.

(** X14. The order in which the rows of the price table arrive does not
    matter: two price tables with the same columns and, in some order, the
    same rows of distinct dates give the same result. *)
Theorem price_row_order_irrelevant pad (prices prices' weights : DataFrame)
    start_date :
  columns prices' = columns prices → rows prices' ≡ₚ rows prices →
  NoDup (index prices) →
  run_backtest_fast_daily pad prices' weights start_date =
  run_backtest_fast_daily pad prices weights start_date.
Proof.
  intros Hc Hp Hnd. unfold run_backtest_fast_daily.
  assert (empty prices' = empty prices) as ->.
  { unfold empty. rewrite Hc. destruct (rows prices) as [|x l] eqn:E.
    - by apply Permutation_nil_r in Hp as ->.
    - destruct (rows prices'); [|done].
      by apply Permutation_nil_l in Hp. }
  assert (clip_history prices' start_date = clip_history prices start_date)
    as ->; [|done].
  unfold clip_history, sort_index, loc_from. cbn [rows columns].
  by rewrite Hc, (sort_rows_permutation (rows prices) (rows prices')).
Qed.

(** ** The engine: no lookahead on prices *)

Lemma filter_upto_take {A} t (l : list (Timestamp * A)) :
  StronglySorted Z.le l.*1 →
  filter (λ x, x.1 ≤ t) l = take (length (filter (λ d, d ≤ t) l.*1)) l.
Proof.
  induction l as [|x l IH]; [done|]. rewrite fmap_cons.
  intros Hs. inversion_clear Hs as [|? ? Hs' Hx].
  rewrite !filter_cons. destruct (decide (x.1 ≤ t)) as [Hle|Hgt].
  - simpl. f_equal. by apply IH.
  - rewrite (filter_dates_above t l)
      by (eapply Forall_impl; [exact Hx|]; intros d; simpl; lia).
    rewrite (filter_absent (λ d, d ≤ t) l.*1); [done|].
    eapply Forall_impl; [exact Hx|]. intros d. simpl. lia.
Qed.

Lemma labels_filter_upto {A} t (l : list (Timestamp * A)) :
  (filter (λ x, x.1 ≤ t) l).*1 = filter (λ d, d ≤ t) l.*1.
Proof.
  induction l as [|x l IH]; [done|].
  rewrite fmap_cons, !filter_cons. destruct (decide (x.1 ≤ t)); [|done].
  by rewrite fmap_cons, IH.
Qed.

(** Where no date repeats, sorting the history up to a date and cutting the
    sorted history at that date come to the same, whatever the kind. *)
Lemma filter_sort_rows {A} t (l : list (Timestamp * A)) :
  NoDup l.*1 →
  sort_rows (filter (λ x, x.1 ≤ t) l) = filter (λ x, x.1 ≤ t) (sort_rows l).
Proof.
  intros Hnd. apply sort_rows_unique.
  - rewrite labels_filter_upto. by apply NoDup_filter.
  - by rewrite sort_rows_perm.
  - apply sorted_filter_rows, sort_rows_sorted.
Qed.

Lemma filter_rows_from {A} s t (l : list (Timestamp * A)) :
  StronglySorted Z.le l.*1 →
  rows_from s (filter (λ x, x.1 ≤ t) l) = filter (λ x, x.1 ≤ t) (rows_from s l).
Proof.
  induction l as [|x l IH]; [done|]. rewrite fmap_cons.
  intros Hs. inversion_clear Hs as [|? ? Hs' Hx].
  rewrite filter_cons. cbn [rows_from].
  destruct (decide (x.1 ≤ t)) as [Hle|Hgt].
  - cbn [rows_from]. destruct (x.1 <? s); [by apply IH|].
    by rewrite filter_cons_True.
  - assert (filter (λ x, x.1 ≤ t) l = []) as Hnil.
    { apply filter_dates_above. eapply Forall_impl; [exact Hx|].
      intros d. simpl. lia. }
    rewrite Hnil. destruct (x.1 <? s).
    + rewrite <- IH by done. by rewrite Hnil.
    + by rewrite filter_cons_False, Hnil.
Qed.

Lemma ffill_rows_take n prev l :
  ffill_rows prev (take n l) = take n (ffill_rows prev l).
Proof.
  revert n prev. induction l as [|x l IH]; intros [|n] prev; [done..|].
  simpl. by rewrite IH.
Qed.

Lemma change_rows_take n prev l :
  change_rows prev (take n l) = take n (change_rows prev l).
Proof.
  revert n prev. induction l as [|x l IH]; intros [|n] prev; [done..|].
  simpl. by rewrite IH.
Qed.

Lemma weighted_returns_take n rets z G :
  weighted_returns (take n rets) z G = take n (weighted_returns rets z G).
Proof.
  revert n z. induction rets as [|x rets IH]; intros [|n] z; [done..|].
  simpl. by rewrite IH.
Qed.

Lemma clip_history_upto t (prices : DataFrame) start_date :
  NoDup (index prices) →
  clip_history (history_upto t prices) start_date =
    mkFrame (columns prices)
      (filter (λ x, x.1 ≤ t) (rows (clip_history prices start_date))).
Proof.
  intros Hnd.
  unfold clip_history, history_upto, sort_index, loc_from. cbn [rows columns].
  rewrite filter_sort_rows by done. destruct start_date as [s|]; [|done].
  cbn [rows columns]. by rewrite filter_rows_from by apply sort_rows_sorted.
Qed.

(** X15. No lookahead on prices: for a price table with distinct dates, the
    curve computed from the history up to and including date [t] alone is
    the part up to [t] of the curve computed from the whole history. *)
Theorem prices_after_a_date_never_reach_back pad (prices weights : DataFrame)
    start_date t :
  empty (history_upto t prices) = false → NoDup (index prices) →
  dated_table weights →
  ∃ e et,
    run_backtest_fast_daily pad prices weights start_date = Ok e ∧
    run_backtest_fast_daily pad (history_upto t prices) weights start_date
      = Ok et ∧
    filter (λ x, x.1 ≤ t) e = et.
Proof.
  intros Het Hnd HW.
  assert (empty prices = false) as He.
  { unfold empty, history_upto in *. cbn [rows columns] in Het.
    destruct (rows prices); [done|]. destruct (columns prices); [|done].
    by destruct (filter _ _). }
  do 2 eexists. split; [by apply run_backtest_dated|].
  split; [by apply run_backtest_dated|].
  rewrite !portfolio_returns_lagged. rewrite clip_history_upto by done.
  set (P := clip_history prices start_date).
  pose proof (clip_history_increasing prices start_date Hnd) as Hinc.
  fold P in Hinc. apply increasing_sorted in Hinc.
  assert (columns P = columns prices) as HcP by (unfold P; by destruct start_date).
  cbn [columns]. rewrite <- HcP.
  set (n := length (filter (λ d, d ≤ t) (index P))).
  assert (rows (pct_change pad (mkFrame (columns P)
                  (filter (λ x, x.1 ≤ t) (rows P)))) =
          take n (rows (pct_change pad P))) as ->.
  { rewrite (filter_upto_take t (rows P)) by done. fold (index P). fold n.
    unfold pct_change. destruct pad; cbn [rows columns ffill].
    - by rewrite ffill_rows_take, change_rows_take.
    - by rewrite change_rows_take. }
  rewrite weighted_returns_take. unfold cumprod.
  rewrite equity_upto
    by (rewrite weighted_returns_index; fold (index (pct_change pad P));
        by rewrite index_pct_change).
  rewrite filter_upto_take
    by (rewrite weighted_returns_index; fold (index (pct_change pad P));
        by rewrite index_pct_change).
  rewrite weighted_returns_index. fold (index (pct_change pad P)).
  by rewrite index_pct_change.
Qed.

(** ** The merge engine, whatever the sort kind *)

Lemma bar_NoDup (df : DataFrame) t :
  NoDup (index df) → bar df t = assoc t (rows df).
Proof. intros. unfold bar. symmetry. by apply assoc_last_at. Qed.

Lemma bar_normal (f : DataFrame) t :
  NoDup (index f) → bar (drop_duplicated_last (sort_index f)) t = bar f t.
Proof.
  intros Hnd. rewrite !bar_NoDup; [by apply assoc_normal|done|].
  apply increasing_NoDup, normal_increasing.
Qed.

Lemma elem_of_aligned t r u (df : DataFrame) :
  (t, r) ∈ aligned u df ↔
  ∃ r0, (t, r0) ∈ rows df ∧ r = realign u (columns df) r0.
Proof.
  unfold aligned. rewrite list_elem_of_fmap. split.
  - intros ([t' r0] & [= -> ->] & Hin). by exists r0.
  - intros (r0 & Hin & ->). by exists (t, r0).
Qed.

(** The bar a merged series holds for a date is the bar of the cache or
    the bar of the fetch for that date, laid out on the joined columns. *)
Lemma merged_bar_source u (e f : DataFrame) t r :
  NoDup (index e) → NoDup (index f) →
  assoc t (drop_dup_rows (sort_rows
     (aligned u e ++ aligned u (drop_duplicated_last (sort_index f))))) = Some r →
  (∃ r0, bar e t = Some r0 ∧ r = realign u (columns e) r0) ∨
  (∃ r0, bar f t = Some r0 ∧ r = realign u (columns f) r0).
Proof.
  intros He Hf [Hin|Hin]%normal_row%elem_of_app;
    apply elem_of_aligned in Hin as (r0 & Hin & ->); [left|right]; exists r0.
  - split; [|done]. rewrite bar_NoDup by done. by apply elem_of_assoc_Some.
  - split; [|done]. rewrite <- (bar_normal f) by done.
    rewrite bar_NoDup by apply increasing_NoDup, normal_increasing.
    apply elem_of_assoc_Some; [|done].
    apply increasing_NoDup, normal_increasing.
Qed.

Lemma value_merged u (l : list (Timestamp * list float)) t c :
  value (mkFrame u (drop_dup_rows (sort_rows l))) t c =
    (λ r, cell_of u r c) <$> assoc t (drop_dup_rows (sort_rows l)).
Proof.
  unfold value, bar. cbn [rows columns].
  by rewrite assoc_last_at by apply increasing_NoDup, normal_increasing.
Qed.

(** X16. Whatever the order the sort gives to rows of equal date: merging
    a fetch into a cache, each a table in which no date repeats, yields a
    series with the fields of both, strictly increasing dates, and exactly
    the dates of both.  A date that one of the two holds alone carries the
    bar of that one, and a date both hold carries the bar of one of them.
    When the dates of the cache ascend and none of them comes after a date
    of the fetch, a date both hold carries the bar of the fetch. *)
Theorem merge_prices_whatever_the_order
    (existing : option DataFrame) (fresh : DataFrame) :
  from_option dated_table True existing → dated_table fresh →
  ∃ merged,
    merge_prices existing fresh = Ok merged ∧
    increasing (index merged) ∧
    (∀ t, t ∈ index merged ↔ t ∈ dates existing ∨ t ∈ index fresh) ∧
    (∀ c, c ∈ columns merged ↔
            c ∈ from_option columns [] existing ∨ c ∈ columns fresh) ∧
    (∀ t c, t ∉ dates existing → value merged t c = value fresh t c) ∧
    (∀ e t c, existing = Some e → t ∉ index fresh →
              value merged t c = value e t c) ∧
    (∀ e t, existing = Some e →
            (∀ c, value merged t c = value fresh t c) ∨
            (∀ c, value merged t c = value e t c)) ∧
    (∀ e, existing = Some e →
          StronglySorted Z.le (index e) →
          (∀ d d', d ∈ index e → d' ∈ index fresh → d ≤ d') →
          ∀ t c, t ∈ index fresh → value merged t c = value fresh t c).
Proof.
  intros He [Hfd Hf]. destruct existing as [e|]; cbn [from_option] in He.
  - destruct He as [Hed He].
    eexists. split; [by apply merge_prices_Some|].
    pose proof (NoDup_joined_columns e fresh (proj1 He) (proj1 Hf)) as Hu.
    set (u := joined_columns e fresh) in *.
    set (L := aligned u e ++ aligned u (drop_duplicated_last (sort_index fresh))).
    assert (∀ t, t ∈ (drop_dup_rows (sort_rows L)).*1 ↔
                 t ∈ index e ∨ t ∈ index fresh) as Hdates.
    { intros t. unfold L.
      rewrite elem_of_normal, fmap_app, elem_of_app, !aligned_index.
      unfold index at 2. cbn [rows drop_duplicated_last sort_index].
      by rewrite elem_of_normal. }
    assert (∀ r0 c, cell_of u (realign u (columns e) r0) c
                    = cell_of (columns e) r0 c) as Hce.
    { intros r0 c. apply cell_of_realign; [done|].
      intros c' Hc'. apply elem_of_joined_columns. by left. }
    assert (∀ r0 c, cell_of u (realign u (columns fresh) r0) c
                    = cell_of (columns fresh) r0 c) as Hcf.
    { intros r0 c. apply cell_of_realign; [done|].
      intros c' Hc'. apply elem_of_joined_columns. by right. }
    assert (∀ t, (∀ c, value (mkFrame u (drop_dup_rows (sort_rows L))) t c
                       = value fresh t c) ∨
                 (∀ c, value (mkFrame u (drop_dup_rows (sort_rows L))) t c
                       = value e t c)) as Hone.
    { intros t.
      destruct (assoc t (drop_dup_rows (sort_rows L))) as [r|] eqn:Er.
      - destruct (merged_bar_source u e fresh t r Hed Hfd Er)
          as [(r0 & Hb & ->)|(r0 & Hb & ->)]; [right|left]; intros c;
          rewrite value_merged; fold L; rewrite Er; unfold value;
          rewrite Hb; cbn [fmap option_fmap option_map]; by rewrite ?Hce, ?Hcf.
      - left. intros c. rewrite value_merged. fold L. rewrite Er.
        apply assoc_None in Er. rewrite Hdates in Er.
        unfold value, bar.
        assert (last_at t (rows fresh) = None) as ->; [|done].
        apply last_at_None. fold (index fresh). tauto. }
    split_and!.
    + apply normal_increasing.
    + intros t. apply Hdates.
    + intros c. cbn [columns]. apply elem_of_joined_columns.
    + intros t c Ht. cbn [dates from_option] in Ht.
      destruct (Hone t) as [Hv|Hv]; [done|].
      destruct (assoc t (drop_dup_rows (sort_rows L))) as [r|] eqn:Er.
      * destruct (merged_bar_source u e fresh t r Hed Hfd Er)
          as [(r0 & Hb & ->)|(r0 & Hb & ->)].
        -- unfold bar in Hb. assert (is_Some (last_at t (rows e))) as Hs
             by (by eexists). by apply last_at_is_Some in Hs.
        -- rewrite value_merged. fold L. rewrite Er. unfold value.
           rewrite Hb. cbn [fmap option_fmap option_map]. by rewrite Hcf.
      * rewrite value_merged. fold L. rewrite Er.
        apply assoc_None in Er. rewrite Hdates in Er.
        unfold value, bar.
        assert (last_at t (rows fresh) = None) as ->; [|done].
        apply last_at_None. fold (index fresh). tauto.
    + intros e' t c [= <-] Ht.
      destruct (assoc t (drop_dup_rows (sort_rows L))) as [r|] eqn:Er.
      * destruct (merged_bar_source u e fresh t r Hed Hfd Er)
          as [(r0 & Hb & ->)|(r0 & Hb & ->)].
        -- rewrite value_merged. fold L. rewrite Er. unfold value.
           rewrite Hb. cbn [fmap option_fmap option_map]. by rewrite Hce.
        -- unfold bar in Hb. assert (is_Some (last_at t (rows fresh))) as Hs
             by (by eexists). by apply last_at_is_Some in Hs.
      * rewrite value_merged. fold L. rewrite Er.
        apply assoc_None in Er. rewrite Hdates in Er.
        unfold value, bar.
        assert (last_at t (rows e) = None) as ->; [|done].
        apply last_at_None. fold (index e). tauto.
    + intros e' t [= <-]. apply Hone.
    + intros e' [= <-] Hes Hle t c Ht.
      assert (StronglySorted Z.le L.*1) as HL.
      { unfold L. rewrite fmap_app, !aligned_index.
        rewrite StronglySorted_app. split_and!.
        - intros d d' Hd Hd'. apply Hle; [done|].
          unfold index in Hd'. cbn [rows drop_duplicated_last sort_index] in Hd'.
          by apply (proj1 (elem_of_normal _ _)) in Hd'.
        - exact Hes.
        - apply increasing_sorted, normal_frame_increasing. }
      unfold value at 1, bar at 1. cbn [rows columns].
      rewrite last_at_drop_dup, last_at_sorted_rows by done.
      unfold L. rewrite last_at_app, !last_at_aligned.
      fold (bar (drop_duplicated_last (sort_index fresh)) t).
      rewrite bar_normal by done.
      apply last_at_is_Some in Ht as [r Hr]. unfold value, bar. rewrite Hr.
      cbn [fmap option_fmap option_map]. by rewrite Hcf.
  - eexists. split; [done|]. split_and!.
    + apply normal_increasing.
    + intros t. unfold index at 1. cbn [rows drop_duplicated_last sort_index].
      rewrite elem_of_normal. unfold index, dates. cbn [from_option].
      rewrite elem_of_nil. tauto.
    + intros c. cbn [from_option columns drop_duplicated_last sort_index].
      rewrite elem_of_nil. tauto.
    + intros t c _. unfold value. by rewrite bar_normal.
    + by intros e t c [=].
    + by intros e t [=].
    + by intros e [=].
Qed.


(** ** The provider clients *)

Lemma getitem_Ok {A} label (df : Frame A) j :
  getitem label df = Ok j → columns df !! j = Some label.
Proof.
  unfold getitem. destruct (position label (columns df)) as [i|] eqn:E; [|done].
  case_bool_decide; [|done]. intros [= <-]. by apply position_Some.
Qed.

(** X17. The stooq client passes on, unchanged, the error of the identifier
    lookup and the error of the request.  What it returns has the five
    columns open, high, low, close, volume, midnight dates in ascending
    order and a close in every bar; and each bar is a bar of the response,
    under the midnight of its day, with the cells of the response's Open,
    High, Low, Close and Volume columns coerced to numbers. *)
Theorem fetch_stooq_daily_contract registry http_stooq (k : string) :
  (∀ e, get_identifier registry k "stooq" = Raise e →
        fetch_stooq_daily registry http_stooq k = Raise e) ∧
  (∀ sym e, get_identifier registry k "stooq" = Ok sym →
            http_stooq sym = Raise e →
            fetch_stooq_daily registry http_stooq k = Raise e) ∧
  (∀ x, fetch_stooq_daily registry http_stooq k = Ok x →
     columns x = ohlcv ∧
     Forall (λ t, time_of_day t = 0) (index x) ∧
     StronglySorted Z.le (index x) ∧
     Forall (λ r, isna (cell_of (columns x) r.2 "close") = false) (rows x) ∧
     ∃ sym resp o h l c v,
       get_identifier registry k "stooq" = Ok sym ∧
       http_stooq sym = Ok resp ∧
       columns resp !! o = Some "Open" ∧ columns resp !! h = Some "High" ∧
       columns resp !! l = Some "Low" ∧ columns resp !! c = Some "Close" ∧
       columns resp !! v = Some "Volume" ∧
       ∀ row, row ∈ rows x →
         ∃ src, src ∈ rows resp ∧
                row = (normalize src.1,
                       [to_numeric (src.2 !! o); to_numeric (src.2 !! h);
                        to_numeric (src.2 !! l); to_numeric (src.2 !! c);
                        to_numeric (src.2 !! v)])).
Proof.
  split_and!.
  - intros e He. unfold fetch_stooq_daily. by rewrite He.
  - intros sym e Hs He. unfold fetch_stooq_daily. rewrite Hs. cbn [rbind].
    by rewrite He.
  - intros x Hx.
    destruct (fetch_stooq_daily_normalized _ _ _ _ Hx) as (H1 & _ & H2 & H3 & H4).
    split_and!; [done..|].
    unfold fetch_stooq_daily in Hx.
    apply rbind_Ok in Hx as (sym & Hsym & H). apply rbind_Ok in H as (resp & Hr & H).
    apply rbind_Ok in H as (o & Ho & H). apply rbind_Ok in H as (h & Hh & H).
    apply rbind_Ok in H as (l & Hl & H). apply rbind_Ok in H as (c & Hc & H).
    apply rbind_Ok in H as (v & Hv & H). injection H as <-.
    exists sym, resp, o, h, l, c, v.
    apply getitem_Ok in Ho, Hh, Hl, Hc, Hv.
    split_and!; [done..|].
    intros row Hrow. unfold dropna_close in Hrow. cbn [rows columns] in Hrow.
    apply list_elem_of_filter in Hrow as [_ Hrow].
    apply list_elem_of_fmap in Hrow as (y & -> & Hy).
    apply list_elem_of_fmap in Hy as (src & -> & Hsrc).
    exists src. split; [|done]. by rewrite sort_rows_perm in Hsrc.
Qed.

(** X18. The yahoo client passes on the error of the identifier lookup and
    of the download, and raises its no-data error for an absent or empty
    answer.  What it returns has the five base columns, followed by
    adj_close exactly when the answer has an Adj Close column, dates in
    ascending order, each a date of the answer as delivered, and a close in
    every bar. *)
Theorem fetch_yahoo_daily_contract registry yf_download (k : string) :
  (∀ e, get_identifier registry k "yahoo" = Raise e →
        fetch_yahoo_daily registry yf_download k = Raise e) ∧
  (∀ sym e, get_identifier registry k "yahoo" = Ok sym →
            yf_download sym = Raise e →
            fetch_yahoo_daily registry yf_download k = Raise e) ∧
  (∀ sym, get_identifier registry k "yahoo" = Ok sym →
          (yf_download sym = Ok None ∨
           ∃ df, yf_download sym = Ok (Some df) ∧ empty df = true) →
          fetch_yahoo_daily registry yf_download k = Raise NoYahooData) ∧
  (∀ x, fetch_yahoo_daily registry yf_download k = Ok x →
     StronglySorted Z.le (index x) ∧
     Forall (λ r, isna (cell_of (columns x) r.2 "close") = false) (rows x) ∧
     ∃ sym resp,
       get_identifier registry k "yahoo" = Ok sym ∧
       yf_download sym = Ok (Some resp) ∧
       columns x = ohlcv ++ (if bool_decide ("Adj Close" ∈ columns resp)
                             then ["adj_close"] else []) ∧
       ∀ t, t ∈ index x → t ∈ index resp).
Proof.
  split_and!.
  - intros e He. unfold fetch_yahoo_daily. by rewrite He.
  - intros sym e Hs He. unfold fetch_yahoo_daily. rewrite Hs. cbn [rbind].
    by rewrite He.
  - intros sym Hs [Hn|(df & Hd & He)]; unfold fetch_yahoo_daily;
      rewrite Hs; cbn [rbind].
    + by rewrite Hn.
    + rewrite Hd. cbn [rbind]. by rewrite He.
  - intros x Hx.
    destruct (fetch_yahoo_daily_sorted _ _ _ _ Hx) as (_ & _ & H2 & H3).
    split_and!; [done..|].
    unfold fetch_yahoo_daily in Hx.
    apply rbind_Ok in Hx as (sym & Hsym & H).
    apply rbind_Ok in H as ([resp|] & Hr & H); [|done].
    destruct (empty resp); [done|].
    apply rbind_Ok in H as (o & _ & H). apply rbind_Ok in H as (h & _ & H).
    apply rbind_Ok in H as (l & _ & H). apply rbind_Ok in H as (c & _ & H).
    apply rbind_Ok in H as (v & _ & H). apply rbind_Ok in H as (adj & Hadj & H).
    injection H as <-. exists sym, resp. split_and!; [done..| |].
    + cbn [dropna_close columns sort_index]. f_equal. case_bool_decide.
      * by apply rbind_Ok in Hadj as (a & _ & [= <-]).
      * by injection Hadj as <-.
    + intros t Ht. unfold index, dropna_close, sort_index in Ht.
      cbn [rows columns] in Ht.
      apply list_elem_of_fmap in Ht as (y & -> & Hy).
      apply list_elem_of_filter in Hy as [_ Hy].
      rewrite sort_rows_perm in Hy.
      apply list_elem_of_fmap in Hy as (src & -> & Hsrc).
      apply list_elem_of_fmap. by exists src.
Qed.

(** ** Selecting one price field *)

Lemma select_one (df : DataFrame) (c : string) :
  table df → c ∈ columns df →
  select [c] df =
    mkFrame [c] ((λ x, (x.1, [cell_of (columns df) x.2 c])) <$> rows df).
Proof.
  intros Hdf Hc. rewrite select_table; [done|done|].
  by intros ? ->%list_elem_of_singleton.
Qed.

(** X19. On a table, [_select_price_field] returns the column of the field
    when the table has it, the close column for adj_close when the table
    has no adj_close but a close, and raises the field error otherwise; and
    on a table with the five base fields the adj_close series it selects is
    the adj_close column that canonicalisation produces. *)
Theorem select_price_field_cases (df : DataFrame) (field : string) :
  table df →
  (field ∈ columns df →
     _select_price_field df field =
       Ok (mkFrame [field]
             ((λ x, (x.1, [cell_of (columns df) x.2 field])) <$> rows df))) ∧
  (field ∉ columns df → field = "adj_close" → "close" ∈ columns df →
     _select_price_field df field =
       Ok (mkFrame ["close"]
             ((λ x, (x.1, [cell_of (columns df) x.2 "close"])) <$> rows df))) ∧
  (field ∉ columns df → field ≠ "adj_close" ∨ "close" ∉ columns df →
     _select_price_field df field = Raise (KeyError field)) ∧
  (filter (λ c, c ∉ columns df) ohlcv = [] →
     ∃ s canon,
       _select_price_field df "adj_close" = Ok s ∧
       _canonicalize_ohlcv df = Ok canon ∧
       index s = index canon ∧
       ∀ t, bar s t = (λ v, [v]) <$> value canon t "adj_close").
Proof.
  intros Hdf. split_and!.
  - intros Hf. unfold _select_price_field.
    rewrite bool_decide_eq_true_2 by done. by rewrite select_one.
  - intros Hf -> Hc. unfold _select_price_field.
    rewrite bool_decide_eq_false_2, bool_decide_eq_true_2 by done.
    by rewrite select_one.
  - intros Hf Hn. unfold _select_price_field.
    rewrite !bool_decide_eq_false_2; [done| |done]. intros [? ?]. tauto.
  - intros Hm. pose proof (ohlcv_present df Hm) as Hsub.
    assert ("close" ∈ columns df) as Hclose.
    { apply Hsub. unfold ohlcv. set_solver. }
    rewrite canonicalize_table by done.
    set (lbl := if bool_decide ("adj_close" ∈ columns df)
                then "adj_close" else "close").
    exists (mkFrame [lbl]
              ((λ x, (x.1, [cell_of (columns df) x.2 lbl])) <$> rows df)).
    eexists. split_and!; [|done| |].
    + unfold _select_price_field, lbl. case_bool_decide as E.
      * by rewrite select_one.
      * rewrite bool_decide_eq_true_2 by done. by rewrite select_one.
    + unfold index. cbn [rows]. by rewrite <- !list_fmap_compose.
    + intros t. unfold value, bar. cbn [rows columns].
      rewrite (last_at_fmap_snd (λ r, [cell_of (columns df) r lbl])).
      rewrite (last_at_fmap_snd
                 (λ r, (cell_of (columns df) r <$> ohlcv) ++
                       [cell_of (columns df) r lbl])).
      by destruct (last_at t (rows df)).
Qed.

(** ** The strategy: one decision *)

Lemma foldl_fadd_Fin (a : Q) (qs : list Q) :
  ∃ a', foldl fadd (Fin a) (Fin <$> qs) = Fin a' ∧ (a' == a + Qsum qs)%Q.
Proof.
  revert a. induction qs as [|q qs IH]; intros a.
  { exists a. split; [done|]. simpl. ring. }
  rewrite fmap_cons. cbn [foldl fadd]. unfold fin.
  destruct (IH (Qred (a + q))) as (a' & E & Ha'). exists a'. split; [done|].
  rewrite Ha', Qred_correct. simpl. ring.
Qed.

Lemma not_nan_Fin (l : list float) :
  Forall (λ v, isna v = false) (inf_to_nan <$> l) → ∃ qs, l = Fin <$> qs.
Proof.
  induction l as [|v l IH]; intros H; [by exists []|].
  rewrite fmap_cons in H. inversion_clear H as [|? ? Hv Hl].
  destruct (IH Hl) as (qs & ->). destruct v as [| |q]; [done..|].
  by exists (q :: qs).
Qed.

Lemma inf_to_nan_Fin (qs : list Q) : inf_to_nan <$> (Fin <$> qs) = Fin <$> qs.
Proof. rewrite <- list_fmap_compose. by apply list_fmap_ext. Qed.

Lemma Forall_not_nan_Fin (qs : list Q) :
  Forall (λ v, isna v = false) (Fin <$> qs).
Proof. apply Forall_fmap, Forall_true. done. Qed.

Lemma window_nonzero (window : nat) :
  window ≠ 0%nat → is_zero (inject_Z (Z.of_nat window)) = false.
Proof. intros H. unfold is_zero. simpl. apply Z.eqb_neq. lia. Qed.

Lemma window_mean_Fin (window : nat) (qs : list Q) :
  window ≠ 0%nat → length qs = window →
  ∃ m, window_mean window (Fin <$> qs) = Fin m ∧
       (m == Qsum qs / inject_Z (Z.of_nat window))%Q.
Proof.
  intros Hw Hl. unfold window_mean. rewrite inf_to_nan_Fin.
  rewrite bool_decide_eq_true_2
    by (rewrite length_fmap; split_and!; [done..|apply Forall_not_nan_Fin]).
  destruct (foldl_fadd_Fin 0 qs) as (a & -> & Ha).
  cbn [fdiv]. rewrite window_nonzero by done. unfold fin. eexists.
  split; [done|]. rewrite Qred_correct, Ha. by rewrite Qplus_0_l.
Qed.

Lemma window_mean_not_nan (window : nat) (obs : list float) :
  isna (window_mean window obs) = false →
  window ≠ 0%nat ∧ ∃ qs, obs = Fin <$> qs ∧ length qs = window.
Proof.
  unfold window_mean. case_bool_decide as H; [|done]. intros _.
  destruct H as (Hw & Hl & Hn). split; [done|].
  destruct (not_nan_Fin _ Hn) as (qs & ->). exists qs. split; [done|].
  by rewrite !length_fmap in Hl.
Qed.

Lemma column_cell_of (cols : list string) (c : string) (j : nat)
    (l : list (Timestamp * list float)) :
  position c cols = Some j →
  column j l = (λ x, cell_of cols x.2 c) <$> l.
Proof.
  intros Hj. unfold column. apply list_fmap_ext. intros i x _.
  unfold cell_of. by rewrite Hj.
Qed.

Lemma latest_rolling_mean (window : nat) (df : DataFrame) (c : string) :
  rows df ≠ [] → c ∈ columns df →
  cell_of (columns df) (latest (rolling_mean window df)) c =
    window_mean window (recent window df c).
Proof.
  intros Hr Hc. unfold latest, rolling_mean, recent. cbn [rows columns].
  destruct (position c (columns df)) as [j|] eqn:Hj;
    [|by apply position_None in Hj].
  destruct (rows df) as [|x0 l0] eqn:E using rev_ind; [done|]. clear IHl0 Hr.
  rewrite imap_app. cbn [imap]. rewrite last_snoc. cbn [from_option snd].
  rewrite Nat.add_0_r, length_app. cbn [length].
  replace (length l0 + 1)%nat with (S (length l0)) by lia.
  rewrite take_ge by (rewrite length_app; simpl; lia).
  unfold cell_of at 1. rewrite Hj, list_lookup_fmap.
  assert (seq 0 (length (columns df)) !! j = Some j) as ->.
  { apply lookup_seq. split; [done|]. apply position_Some in Hj.
    by apply lookup_lt_Some in Hj. }
  cbn [fmap option_fmap option_map from_option]. unfold id. f_equal.
  by apply column_cell_of.
Qed.

Lemma latest_recent (window : nat) (df : DataFrame) (c : string) (qs : list Q) p :
  recent window df c = Fin <$> qs → last qs = Some p →
  cell_of (columns df) (latest df) c = Fin p.
Proof.
  unfold recent, latest. intros Hq Hp.
  assert (last (Fin <$> qs) = Some (Fin p)) as Hl by (by rewrite fmap_last, Hp).
  rewrite <- Hq, fmap_last in Hl.
  destruct (last (drop _ _)) as [x|] eqn:E; [|done]. injection Hl as Hl.
  assert (last (rows df) = Some x) as ->; [|done].
  rewrite <- (take_drop (length (rows df) - window) (rows df)).
  rewrite last_app. by rewrite E.
Qed.

Lemma fgt_Fin (p m m' : Q) :
  (m == m')%Q → fgt (Fin p) (Fin m) = true ↔ (m' < p)%Q.
Proof.
  intros Hm. cbn [fgt]. rewrite negb_true_iff, <- not_true_iff_false.
  rewrite Qle_bool_iff, Hm. split; [apply Qnot_le_lt|apply Qlt_not_le].
Qed.

(** The test of the loop body, for a table that has rows. *)
Lemma selected_above_sma (window : nat) (df : DataFrame) (c : string) :
  rows df ≠ [] → c ∈ columns df →
  (isna (cell_of (columns df) (latest df) c) = false ∧
   isna (cell_of (columns df) (latest (rolling_mean window df)) c) = false ∧
   fgt (cell_of (columns df) (latest df) c)
       (cell_of (columns df) (latest (rolling_mean window df)) c) = true)
  ↔ above_sma window df c.
Proof.
  intros Hr Hc. rewrite latest_rolling_mean by done. split.
  - intros (Hp & Hm & Hgt).
    destruct (window_mean_not_nan _ _ Hm) as (Hw & qs & Hq & Hl).
    destruct (last qs) as [p|] eqn:Hlast.
    2:{ apply last_None in Hlast. subst qs. by destruct Hw. }
    exists qs, p. split_and!; [done..|].
    rewrite (latest_recent window df c qs p) in Hgt by done.
    rewrite Hq in Hgt. destruct (window_mean_Fin window qs Hw Hl) as (m & Em & Hm').
    rewrite Em in Hgt. by apply (proj1 (fgt_Fin p m _ Hm')).
  - intros (qs & p & Hq & Hl & Hlast & Hlt).
    assert (window ≠ 0%nat) as Hw by (intros ->; by destruct qs).
    rewrite (latest_recent window df c qs p) by done. rewrite Hq.
    destruct (window_mean_Fin window qs Hw Hl) as (m & -> & Hm').
    split_and!; [done..|]. by apply (proj2 (fgt_Fin p m _ Hm')).
Qed.

Lemma lookup_equal_weights (sel : list string) (x : float) (c : string) :
  (list_to_map ((λ a, (a, x)) <$> sel) : gmap string float) !! c =
    if decide (c ∈ sel) then Some x else None.
Proof.
  destruct (decide (c ∈ sel)) as [Hc|Hc].
  - apply elem_of_list_to_map_1'.
    + intros y Hy. apply list_elem_of_fmap in Hy as (a & [= _ ->] & _). done.
    + apply list_elem_of_fmap. by exists c.
  - apply not_elem_of_list_to_map_1. rewrite <- list_fmap_compose.
    intros Hin. apply list_elem_of_fmap in Hin as (a & -> & Ha). done.
Qed.

Lemma sma_trend_weights_selected (prices : DataFrame) (window : nat) :
  empty prices = false → NoDup (columns prices) →
  ∃ (P : string → Prop) (HP : ∀ c, Decision (P c)),
    sma_trend_weights prices window =
      Ok (list_to_map
            ((λ a, (a, fdiv (Fin 1)
                         (Fin (inject_Z (Z.of_nat
                            (length (filter P (columns prices))))))))
               <$> filter P (columns prices))) ∧
    ∀ c, c ∈ columns prices → P c ↔ above_sma window prices c.
Proof.
  intros He Hnd.
  assert (rows prices ≠ []) as Hr.
  { unfold empty in He. by destruct (rows prices). }
  exists (λ c : string,
           isna (cell_of (columns prices) (latest prices) c) = false ∧
           isna (cell_of (columns prices)
                   (latest (rolling_mean window prices)) c) = false ∧
           fgt (cell_of (columns prices) (latest prices) c)
               (cell_of (columns prices)
                  (latest (rolling_mean window prices)) c) = true).
  eexists. split.
  - unfold sma_trend_weights. rewrite He, bool_decide_eq_true_2 by done.
    by destruct (filter _ _).
  - intros c Hc. by apply selected_above_sma.
Qed.

Lemma above_sma_rows (window : nat) (df : DataFrame) (c : string) :
  above_sma window df c → (window ≤ length (rows df))%nat.
Proof.
  intros (qs & p & Hq & Hl & _). apply (f_equal length) in Hq.
  unfold recent in Hq. rewrite !length_fmap, length_drop in Hq. lia.
Qed.


(** ** The strategy: one decision per date *)

Lemma sma_trend_weights_runs (cols : list string)
    (hist : list (Timestamp * list float)) (window : nat) :
  NoDup cols → cols ≠ [] → hist ≠ [] →
  ∃ w, sma_trend_weights (mkFrame cols hist) window = Ok w.
Proof.
  intros Hnd Hc Hh. unfold sma_trend_weights, empty. cbn [rows columns].
  destruct hist as [|x hist]; [done|]. destruct cols as [|c cols]; [done|].
  rewrite bool_decide_eq_true_2 by done.
  destruct (filter _ _); by eexists.
Qed.

Lemma set_loc_zero_row (cols : list string) (w : gmap string float) :
  zip_with (λ c v, default v (w !! c)) cols ((λ _, Fin 0) <$> cols) =
  weights_row cols w.
Proof.
  unfold weights_row. induction cols as [|c cols IH]; [done|].
  rewrite !fmap_cons. cbn [zip_with]. by rewrite IH.
Qed.

Lemma set_loc_elsewhere dt (w : gmap string float) cols
    (l : list (Timestamp * list float)) :
  dt ∉ l.*1 →
  (λ x : Timestamp * list float,
     if bool_decide (x.1 = dt)
     then (x.1, zip_with (λ c v, default v (w !! c)) cols x.2)
     else x) <$> l = l.
Proof.
  intros Hdt. rewrite <- (list_fmap_id l) at 2. apply list_fmap_ext.
  intros i x Hx. rewrite bool_decide_eq_false_2; [done|].
  intros <-. apply Hdt, list_elem_of_fmap. exists x. split; [done|].
  by apply list_elem_of_lookup_2 in Hx.
Qed.

Lemma by_day_loop_spec (window : nat) (cols : list string)
    (seen todo done : list (Timestamp * list float)) :
  NoDup cols → cols ≠ [] → NoDup todo.*1 →
  (∀ d, d ∈ todo.*1 → d ∉ done.*1) →
  ∃ dec,
    by_day_loop window cols seen todo (mkFrame cols (done ++ zero_rows cols todo))
      = Ok (mkFrame cols (done ++ dec)) ∧
    length dec = length todo ∧
    ∀ i x, todo !! i = Some x →
      ∃ w, sma_trend_weights (mkFrame cols (seen ++ take (S i) todo)) window
             = Ok w ∧
           dec !! i = Some (x.1, weights_row cols w).
Proof.
  intros Hnd Hc. revert seen done.
  induction todo as [|x todo IH]; intros seen done Htodo Hdis.
  { exists []. split; [done|]. split; [done|]. intros i x Hx. done. }
  rewrite fmap_cons in Htodo. apply NoDup_cons in Htodo as [Hx Htodo].
  destruct (sma_trend_weights_runs cols (seen ++ [x]) window Hnd Hc) as (w & Hw).
  { by destruct seen. }
  destruct (IH (seen ++ [x]) (done ++ [(x.1, weights_row cols w)]) Htodo)
    as (dec & Hrun & Hlen & Hdec).
  { intros d Hd. rewrite fmap_app, elem_of_app. intros [Hin|Hin].
    - apply (Hdis d); [|done]. rewrite fmap_cons. by apply list_elem_of_further.
    - apply list_elem_of_singleton in Hin. simpl in Hin. by subst d. }
  exists ((x.1, weights_row cols w) :: dec). split_and!.
  - cbn [by_day_loop]. rewrite Hw. cbn [rbind].
    rewrite <- !(assoc_L (++)) in Hrun. cbn [app] in Hrun. rewrite <- Hrun.
    f_equal. unfold set_loc. cbn [rows columns]. f_equal.
    unfold zero_rows. rewrite fmap_cons, fmap_app, fmap_cons. cbn [fst snd].
    rewrite bool_decide_eq_true_2 by done. rewrite set_loc_zero_row.
    rewrite set_loc_elsewhere.
    2:{ apply Hdis. rewrite fmap_cons. apply list_elem_of_here. }
    rewrite set_loc_elsewhere; [done|].
    by rewrite <- list_fmap_compose.
  - simpl. by rewrite Hlen.
  - intros [|i] y Hy.
    + injection Hy as <-. exists w. split; [|done]. by cbn [take].
    + destruct (Hdec i y Hy) as (w' & Hw' & Hi). exists w'. split; [|done].
      rewrite <- Hw'. cbn [take]. by rewrite <- (assoc_L (++)).
Qed.

Lemma sma_by_day_spec (prices : DataFrame) (window : nat) :
  NoDup (index prices) → NoDup (columns prices) → columns prices ≠ [] →
  ∃ W, sma_trend_weights_by_day prices window = Ok W ∧
       columns W = columns prices ∧
       index W = index (sort_index prices) ∧
       Forall (λ x, length x.2 = length (columns prices)) (rows W) ∧
       ∀ i x, rows (sort_index prices) !! i = Some x →
         ∃ w, sma_trend_weights
                (mkFrame (columns prices) (take (S i) (rows (sort_index prices))))
                window = Ok w ∧
              rows W !! i = Some (x.1, weights_row (columns prices) w).
Proof.
  intros Hidx Hnd Hc. unfold sma_trend_weights_by_day. cbn [rows columns sort_index].
  set (l := sort_rows (rows prices)).
  assert (NoDup l.*1) as Hl by (unfold l; by rewrite sort_rows_perm).
  destruct (by_day_loop_spec window (columns prices) [] l [] Hnd Hc Hl)
    as (dec & Hrun & Hlen & Hdec).
  { intros d _. apply not_elem_of_nil. }
  cbn [app] in Hrun. unfold zero_rows in Hrun.
  exists (mkFrame (columns prices) dec). split; [exact Hrun|].
  cbn [rows columns]. split; [done|].
  assert (dec.*1 = l.*1) as Hi.
  { apply list_eq. intros i. rewrite !list_lookup_fmap.
    destruct (l !! i) as [x|] eqn:E.
    - destruct (Hdec i x E) as (w & _ & ->). done.
    - apply lookup_ge_None in E. rewrite <- Hlen in E.
      apply lookup_ge_None in E. by rewrite E. }
  split; [exact Hi|]. split; [|exact Hdec].
  apply Forall_lookup. intros i y Hy.
  destruct (l !! i) as [x|] eqn:E.
  - destruct (Hdec i x E) as (w & _ & Hw). rewrite Hw in Hy.
    injection Hy as <-. cbn [snd]. unfold weights_row. by rewrite length_fmap.
  - apply lookup_ge_None in E. rewrite <- Hlen in E.
    apply lookup_ge_None in E. congruence.
Qed.

Lemma count_upto (idx : list Timestamp) (i : nat) (t : Timestamp) :
  increasing idx → idx !! i = Some t →
  length (filter (λ d, d ≤ t) idx) = S i.
Proof.
  revert i. induction idx as [|d idx IH]; intros i Hinc Hi; [done|].
  inversion_clear Hinc as [|? ? Hinc' Hd]. destruct i as [|i].
  - injection Hi as ->. rewrite filter_cons_True by lia.
    rewrite (filter_absent (λ d, d ≤ t) idx); [done|].
    eapply Forall_impl; [exact Hd|]. intros d. simpl. lia.
  - assert (d < t) as Hlt.
    { rewrite Forall_forall in Hd. apply Hd.
      by apply (list_elem_of_lookup_2 idx i). }
    rewrite filter_cons_True by lia. cbn [length]. f_equal. by apply IH.
Qed.

Lemma sorted_index_increasing (prices : DataFrame) :
  NoDup (index prices) → increasing (index (sort_index prices)).
Proof.
  intros Hnd. apply sorted_NoDup_increasing; [apply sort_rows_sorted|].
  unfold index, sort_index. cbn [rows]. by rewrite sort_rows_perm.
Qed.

(** X21. On a table without rows [sma_trend_weights_by_day] returns the
    empty table; on rows without columns it raises the empty-input error,
    on rows under a repeated column label the ambiguity error.  On a table
    with distinct dates and distinct column labels it returns a table on
    the sorted dates and the columns of the prices, whose row at each date
    holds the weights [sma_trend_weights] gives for the sorted history up
    to and including that date, 0 for the instruments it leaves out. *)
Theorem sma_weights_by_day_rows (prices : DataFrame) (window : nat) :
  (rows prices = [] →
     sma_trend_weights_by_day prices window = Ok (mkFrame (columns prices) [])) ∧
  (rows prices ≠ [] → columns prices = [] →
     sma_trend_weights_by_day prices window =
       Raise (ValueError "prices is empty")) ∧
  (rows prices ≠ [] → columns prices ≠ [] → ¬ NoDup (columns prices) →
     sma_trend_weights_by_day prices window = Raise ambiguous) ∧
  (NoDup (index prices) → NoDup (columns prices) → columns prices ≠ [] →
     ∃ W, sma_trend_weights_by_day prices window = Ok W ∧
          columns W = columns prices ∧
          index W = index (sort_index prices) ∧
          ∀ t, t ∈ index prices →
            ∃ w, sma_trend_weights (history_upto t (sort_index prices)) window
                   = Ok w ∧
                 assoc t (rows W) = Some (weights_row (columns prices) w)).
Proof.
  split_and!.
  - intros Hr. unfold sma_trend_weights_by_day, sort_index. by rewrite Hr.
  - intros Hr Hc. unfold sma_trend_weights_by_day, sort_index.
    cbn [rows columns]. destruct (sort_rows (rows prices)) as [|x l] eqn:E.
    { destruct Hr. apply Permutation_nil_r. by rewrite <- E, sort_rows_perm. }
    cbn [by_day_loop]. unfold sma_trend_weights, empty. cbn [rows columns app].
    by rewrite Hc.
  - intros Hr Hc Hd. unfold sma_trend_weights_by_day, sort_index.
    cbn [rows columns]. destruct (sort_rows (rows prices)) as [|x l] eqn:E.
    { destruct Hr. apply Permutation_nil_r. by rewrite <- E, sort_rows_perm. }
    cbn [by_day_loop]. unfold sma_trend_weights, empty. cbn [rows columns app].
    destruct (columns prices) as [|c cols] eqn:Ec; [done|].
    by rewrite bool_decide_eq_false_2.
  - intros Hidx Hnd Hc.
    destruct (sma_by_day_spec prices window Hidx Hnd Hc)
      as (W & Hrun & Hcols & Hi & _ & Hrows).
    exists W. split_and!; [done..|]. intros t Ht.
    pose proof (sorted_index_increasing prices Hidx) as Hinc.
    assert (t ∈ index (sort_index prices)) as Ht'.
    { unfold index, sort_index. cbn [rows]. by rewrite sort_rows_perm. }
    apply list_elem_of_lookup_1 in Ht' as (i & Hti).
    unfold index in Hti. rewrite list_lookup_fmap in Hti.
    destruct (rows (sort_index prices) !! i) as [x|] eqn:Ex; [|done].
    injection Hti as <-. destruct (Hrows i x Ex) as (w & Hw & HW).
    exists w. split.
    + rewrite <- Hw. unfold history_upto. cbn [columns rows]. f_equal. f_equal.
      rewrite filter_upto_take by (by apply increasing_sorted).
      f_equal. apply count_upto; [done|].
      unfold index. by rewrite list_lookup_fmap, Ex.
    + apply assoc_elem_of.
      * fold (index W). rewrite Hi. by apply increasing_NoDup.
      * by apply list_elem_of_lookup_2 in HW.
Qed.

(** ** The strategy: no lookahead *)

Lemma index_history_upto t (prices : DataFrame) :
  index (history_upto t prices) = filter (λ d, d ≤ t) (index prices).
Proof.
  unfold index, history_upto. cbn [rows].
  induction (rows prices) as [|x l IH]; [done|].
  rewrite fmap_cons, !filter_cons. destruct (decide (x.1 ≤ t)); [|done].
  by rewrite fmap_cons, IH.
Qed.

Lemma index_history_upto_NoDup t (prices : DataFrame) :
  NoDup (index prices) → NoDup (index (history_upto t prices)).
Proof. intros Hnd. rewrite index_history_upto. by apply NoDup_filter. Qed.

Lemma sort_index_history_upto t (prices : DataFrame) :
  NoDup (index prices) →
  rows (sort_index (history_upto t prices)) =
    take (length (filter (λ d, d ≤ t) (index (sort_index prices))))
      (rows (sort_index prices)).
Proof.
  intros Hnd. unfold sort_index, history_upto. cbn [rows columns].
  rewrite filter_sort_rows by done. apply filter_upto_take, sort_rows_sorted.
Qed.

Lemma sma_by_day_upto t (prices : DataFrame) (window : nat) :
  NoDup (index prices) → NoDup (columns prices) → columns prices ≠ [] →
  ∃ W, sma_trend_weights_by_day prices window = Ok W ∧
       sma_trend_weights_by_day (history_upto t prices) window
         = Ok (history_upto t W) ∧
       columns W = columns prices ∧
       index W = index (sort_index prices) ∧
       dated_table W.
Proof.
  intros Hidx Hnd Hc.
  destruct (sma_by_day_spec prices window Hidx Hnd Hc)
    as (W & Hrun & Hcols & Hi & Hlen & Hrows).
  destruct (sma_by_day_spec (history_upto t prices) window
              (index_history_upto_NoDup t prices Hidx) Hnd Hc)
    as (Wt & Hrunt & Hcolst & Hit & _ & Hrowst).
  change (columns (history_upto t prices)) with (columns prices) in *.
  pose proof (sorted_index_increasing prices Hidx) as Hinc.
  exists W. split_and!; [done| |done|done|].
  2:{ split; [rewrite Hi; by apply increasing_NoDup|].
      split; by rewrite Hcols. }
  rewrite Hrunt. f_equal. destruct Wt as [cols' dec']. cbn [columns rows] in *.
  unfold history_upto. rewrite Hcols. f_equal; [done|].
  rewrite filter_upto_take
    by (fold (index W); rewrite Hi; by apply increasing_sorted).
  fold (index W). rewrite Hi.
  set (n := length (filter (λ d, d ≤ t) (index (sort_index prices)))) in *.
  rewrite sort_index_history_upto in Hrowst by done. fold n in Hrowst.
  assert (length dec' = length (take n (rows (sort_index prices)))) as Hlen'.
  { unfold index in Hit. cbn [rows] in Hit.
    rewrite sort_index_history_upto in Hit by done. fold n in Hit.
    apply (f_equal length) in Hit. by rewrite !length_fmap in Hit. }
  assert (length (rows W) = length (rows (sort_index prices))) as HlenW.
  { apply (f_equal length) in Hi. unfold index in Hi.
    by rewrite !length_fmap in Hi. }
  apply list_eq. intros i.
  destruct (take n (rows (sort_index prices)) !! i) as [x|] eqn:E.
  - destruct (Hrowst i x E) as (w' & Hw' & ->).
    apply lookup_take_Some in E as [E Hlt].
    destruct (Hrows i x E) as (w & Hw & HW).
    rewrite lookup_take_lt by done. rewrite HW. do 3 f_equal.
    rewrite take_take, Nat.min_l in Hw' by lia. congruence.
  - apply lookup_ge_None in E. rewrite <- Hlen' in E.
    rewrite (proj2 (lookup_ge_None dec' i)) by done. symmetry.
    apply lookup_ge_None. rewrite length_take, HlenW.
    rewrite Hlen', length_take in E. done.
Qed.

(** X22. No lookahead in the strategy: for a price table with distinct
    dates and distinct column labels, the weights computed from the history
    up to and including date [t] alone are the rows up to [t] of the
    weights computed from the whole history. *)
Theorem sma_weights_never_look_ahead t (prices : DataFrame) (window : nat) :
  NoDup (index prices) → NoDup (columns prices) → columns prices ≠ [] →
  ∃ W, sma_trend_weights_by_day prices window = Ok W ∧
       sma_trend_weights_by_day (history_upto t prices) window
         = Ok (history_upto t W).
Proof.
  intros Hidx Hnd Hc.
  destruct (sma_by_day_upto t prices window Hidx Hnd Hc) as (W & H1 & H2 & _).
  by exists W.
Qed.

(** ** The strategy under the backtest *)

Lemma curve_upto pad (P : DataFrame) z G t :
  StronglySorted Z.le (index P) →
  filter (λ x, x.1 ≤ t)
    (cumprod (add_scalar (Fin 1)
       (dropna (weighted_returns (rows (pct_change pad P)) z G)))) =
  cumprod (add_scalar (Fin 1)
    (dropna (weighted_returns
       (rows (pct_change pad
                (mkFrame (columns P) (filter (λ x, x.1 ≤ t) (rows P)))))
       z G))).
Proof.
  intros Hs.
  set (n := length (filter (λ d, d ≤ t) (index P))).
  assert (rows (pct_change pad (mkFrame (columns P)
                  (filter (λ x, x.1 ≤ t) (rows P)))) =
          take n (rows (pct_change pad P))) as ->.
  { rewrite (filter_upto_take t (rows P)) by done. fold (index P). fold n.
    unfold pct_change. destruct pad; cbn [rows columns ffill].
    - by rewrite ffill_rows_take, change_rows_take.
    - by rewrite change_rows_take. }
  rewrite weighted_returns_take. unfold cumprod.
  rewrite equity_upto
    by (rewrite weighted_returns_index; fold (index (pct_change pad P));
        by rewrite index_pct_change).
  rewrite filter_upto_take
    by (rewrite weighted_returns_index; fold (index (pct_change pad P));
        by rewrite index_pct_change).
  rewrite weighted_returns_index. fold (index (pct_change pad P)).
  by rewrite index_pct_change.
Qed.

Lemma dated_table_history_upto t (W : DataFrame) :
  dated_table W → dated_table (history_upto t W).
Proof.
  intros (Hi & Hc & Hr). split; [by apply index_history_upto_NoDup|].
  split; [done|]. unfold history_upto. cbn [rows columns].
  rewrite Forall_forall in Hr. apply Forall_forall. intros x Hx.
  apply list_elem_of_filter in Hx as [_ Hx]. by apply Hr.
Qed.

Lemma decided_history_upto t (W : DataFrame) cols d :
  d ≤ t → decided (history_upto t W) cols d = decided W cols d.
Proof.
  intros Hd. unfold decided, weight_at, history_upto. cbn [rows columns].
  pose proof (assoc_filter_date (λ d, d ≤ t) d (rows W) Hd) as E.
  cbn beta in E. by rewrite E.
Qed.

(** X23. No lookahead from end to end: for a price table with distinct
    dates and distinct column labels, building the weights of the strategy
    and running the backtest on the history up to and including date [t]
    alone gives the part up to [t] of the curve they give on the whole
    history. *)
Theorem strategy_backtest_never_looks_ahead pad (window : nat) (px : DataFrame)
    start_date t :
  empty (history_upto t px) = false → NoDup (index px) → NoDup (columns px) →
  ∃ e et,
    backtest pad window "sma_trend" px start_date = Ok e ∧
    backtest pad window "sma_trend" (history_upto t px) start_date = Ok et ∧
    filter (λ x, x.1 ≤ t) e = et.
Proof.
  intros Het Hidx Hnd.
  assert (columns px ≠ []) as Hc.
  { unfold empty, history_upto in Het. cbn [rows columns] in Het.
    intros E. rewrite E in Het. by destruct (filter _ _). }
  assert (empty px = false) as He.
  { unfold empty, history_upto in *. cbn [rows columns] in Het.
    destruct (rows px); [done|]. by destruct (columns px). }
  destruct (sma_by_day_upto t px window Hidx Hnd Hc)
    as (W & Hrun & Hrunt & Hcols & Hi & HW).
  unfold backtest, build_weights. rewrite bool_decide_eq_true_2 by done.
  rewrite Hrun, Hrunt. cbn [rbind].
  do 2 eexists. split; [by apply run_backtest_dated|].
  split; [apply run_backtest_dated; [done|by apply dated_table_history_upto]|].
  rewrite !portfolio_returns_lagged. rewrite clip_history_upto by done.
  set (P := clip_history px start_date).
  pose proof (clip_history_increasing px start_date Hidx) as Hinc.
  fold P in Hinc. apply increasing_sorted in Hinc.
  assert (columns P = columns px) as HcP by (unfold P; by destruct start_date).
  cbn [columns]. rewrite <- HcP.
  rewrite curve_upto by done. do 3 f_equal.
  apply weighted_returns_ext_used. intros i d Hd _.
  symmetry. apply decided_history_upto.
  apply list_elem_of_lookup_2 in Hd.
  fold (index (pct_change pad (mkFrame (columns P)
                 (filter (λ x, x.1 ≤ t) (rows P))))) in Hd.
  rewrite index_pct_change in Hd. unfold index in Hd. cbn [rows] in Hd.
  apply list_elem_of_fmap in Hd as (x & -> & Hx).
  by apply list_elem_of_filter in Hx as [Hx _].
Qed.

(** ** The strategy: warm-up *)

Lemma sma_trend_weights_short (cols : list string)
    (hist : list (Timestamp * list float)) (window : nat) w :
  (length hist < window)%nat → NoDup cols →
  sma_trend_weights (mkFrame cols hist) window = Ok w → w = ∅.
Proof.
  intros Hlt Hnd Hw.
  destruct (empty (mkFrame cols hist)) eqn:He.
  { unfold sma_trend_weights in Hw. by rewrite He in Hw. }
  destruct (sma_trend_weights_selected _ window He Hnd) as (P & HP & Hrun & HPa).
  rewrite Hrun in Hw. injection Hw as <-. cbn [columns] in *.
  assert (filter P cols = []) as ->; [|done].
  apply filter_absent, Forall_forall. intros c Hc Hp.
  apply HPa in Hp; [|done]. apply above_sma_rows in Hp. cbn [rows] in Hp. lia.
Qed.

Lemma weight_at_zero_row (W : DataFrame) (cols : list string) d c :
  assoc d (rows W) = Some ((λ _, Fin 0) <$> cols) → weight_at W d c = Fin 0.
Proof.
  intros E. unfold weight_at. rewrite E. unfold cell_of.
  destruct (position c (columns W)) as [j|]; [|done].
  rewrite list_lookup_fmap. by destruct (cols !! j).
Qed.

Lemma increasing_lookup (idx : list Timestamp) (i : nat) a b :
  increasing idx → idx !! i = Some a → idx !! S i = Some b → a < b.
Proof.
  revert i. induction idx as [|d idx IH]; intros i Hinc Ha Hb; [done|].
  inversion_clear Hinc as [|? ? Hinc' Hd]. destruct i as [|i].
  - injection Ha as ->. rewrite Forall_forall in Hd. apply Hd.
    by apply (list_elem_of_lookup_2 idx 0%nat).
  - by apply (IH i).
Qed.

Lemma elem_of_rows_from {A} s (x : Timestamp * A) (l : list (Timestamp * A)) :
  x ∈ rows_from s l → x ∈ l.
Proof.
  induction l as [|y l IH]; [done|]. cbn [rows_from].
  destruct (y.1 <? s); [|done]. intros H. by apply list_elem_of_further, IH.
Qed.

Lemma index_clip_history (prices : DataFrame) start_date d :
  d ∈ index (clip_history prices start_date) → d ∈ index prices.
Proof.
  unfold index. intros (x & -> & Hx)%list_elem_of_fmap.
  apply list_elem_of_fmap. exists x. split; [done|].
  unfold clip_history in Hx. destruct start_date as [s|].
  - apply elem_of_rows_from in Hx. cbn [rows sort_index] in Hx.
    by rewrite sort_rows_perm in Hx.
  - cbn [rows sort_index] in Hx. by rewrite sort_rows_perm in Hx.
Qed.

(** X24. Warm-up: for a price table with distinct dates and distinct column
    labels, as long as the history holds no more than [window] dates the
    strategy has bought nothing that earns a return, so the curve of the
    backtest is 1 at every date up to a date [t] that has at most [window]
    dates of the table at or before it. *)
Theorem strategy_warm_up pad (window : nat) (px : DataFrame) start_date
    (t : Timestamp) :
  empty px = false → NoDup (index px) → NoDup (columns px) →
  (length (filter (λ d, (d ≤ t)%Z) (index px)) ≤ window)%nat →
  ∃ e, backtest pad window "sma_trend" px start_date = Ok e ∧
       ∀ d v, (d, v) ∈ e → d ≤ t → v = Fin 1.
Proof.
  intros He Hidx Hnd Hcount.
  assert (columns px ≠ []) as Hc.
  { unfold empty in He. destruct (rows px); [done|]. by destruct (columns px). }
  destruct (sma_by_day_spec px window Hidx Hnd Hc)
    as (W & Hrun & Hcols & Hi & Hlen & Hrows).
  assert (dated_table W) as HW.
  { split; [rewrite Hi; by apply increasing_NoDup, sorted_index_increasing|].
    split; by rewrite Hcols. }
  unfold backtest, build_weights. rewrite bool_decide_eq_true_2 by done.
  rewrite Hrun. cbn [rbind].
  eexists. split; [by apply run_backtest_dated|].
  intros d v Hin Hd.
  assert ((d, v) ∈ filter (λ x : Timestamp * float, x.1 ≤ t)
            (cumprod (add_scalar (Fin 1)
               (portfolio_returns pad (clip_history px start_date)
                  (lagged (clip_history px start_date) W))))) as Hin'
    by (by apply list_elem_of_filter).
  clear Hin. revert Hin'. rewrite portfolio_returns_lagged.
  set (P := clip_history px start_date).
  pose proof (clip_history_increasing px start_date Hidx) as Hinc. fold P in Hinc.
  rewrite curve_upto by (by apply increasing_sorted).
  set (P' := mkFrame (columns P) (filter (λ x, x.1 ≤ t) (rows P))).
  rewrite (weighted_returns_ext_used _ _ _ (λ _, (λ _, Fin 0) <$> columns P)).
  { rewrite flat_returns.
    - rewrite flat_equity. intros (d' & [= _ ->] & _)%list_elem_of_fmap. done.
    - apply Forall_fmap, Forall_true. done.
    - intros d' _. apply Forall_fmap, Forall_true. done. }
  intros i d1 H1 [d2 H2].
  fold (index (pct_change pad P')) in H1, H2.
  rewrite index_pct_change in H1, H2.
  assert (index P' = filter (λ d, d ≤ t) (index P)) as HP'
    by apply (index_history_upto t P).
  assert (increasing (index P')) as Hinc'.
  { rewrite HP'. apply sorted_NoDup_increasing.
    - rewrite <- HP'. unfold index, P'. cbn [rows].
      apply sorted_filter_rows. by apply increasing_sorted.
    - apply NoDup_filter. by apply increasing_NoDup. }
  pose proof (increasing_lookup _ _ _ _ Hinc' H1 H2) as Hlt.
  apply list_elem_of_lookup_2 in H1, H2. rewrite HP' in H1, H2.
  apply list_elem_of_filter in H1 as [H1t H1], H2 as [H2t H2].
  apply index_clip_history in H1, H2.
  pose proof (sorted_index_increasing px Hidx) as Hsinc.
  assert (index (sort_index px) ≡ₚ index px) as Hperm.
  { unfold index, sort_index. cbn [rows]. by rewrite sort_rows_perm. }
  assert (d1 ∈ index (sort_index px)) as H1s by (by rewrite Hperm).
  apply list_elem_of_lookup_1 in H1s as (j & Hj).
  assert (S j < window)%nat as Hjw.
  { rewrite <- (count_upto _ _ _ Hsinc Hj).
    eapply Nat.lt_le_trans; [|exact Hcount]. rewrite <- Hperm.
    rewrite <- (list_filter_filter_l (λ d, d ≤ d1) (λ d, d ≤ t))
      by (intros; lia).
    apply (length_filter_lt _ _ d2); [|lia].
    apply list_elem_of_filter. split; [done|]. by rewrite Hperm. }
  unfold decided. apply list_fmap_ext. intros k c _.
  apply (weight_at_zero_row W (columns px)).
  unfold index in Hj. rewrite list_lookup_fmap in Hj.
  destruct (rows (sort_index px) !! j) as [x|] eqn:Ex; [|done].
  injection Hj as <-. destruct (Hrows j x Ex) as (w & Hw & HWj).
  apply sma_trend_weights_short in Hw; [|rewrite length_take; lia|done].
  subst w. apply assoc_elem_of.
  { fold (index W). rewrite Hi. by apply increasing_NoDup. }
  apply list_elem_of_lookup_2 in HWj.
  replace ((λ _ : string, Fin 0) <$> columns px)
    with (weights_row (columns px) ∅); [done|].
  unfold weights_row. apply list_fmap_ext. intros. by rewrite lookup_empty.
Qed.

(** ** Extreme returns *)

Lemma fgt_nan_r x : fgt x NaN = false.
Proof. by destruct x. Qed.

Lemma outside_not_nan lower upper r :
  outside lower upper r = true → isna r = false.
Proof.
  destruct r; [|done..]. unfold outside. by rewrite fgt_nan_r.
Qed.

Lemma change_nan_l p : change NaN p = NaN.
Proof. done. Qed.

Lemma change_nan_r v : change v NaN = NaN.
Proof. by destruct v. Qed.

Lemma change_not_nan v p :
  isna (change v p) = false → isna v = false ∧ isna p = false.
Proof. destruct v, p; done. Qed.

Lemma elem_of_change_series prev (s : Series) d r :
  (d, r) ∈ change_series prev s ↔
  (∃ x, head s = Some x ∧ d = x.1 ∧ r = change x.2 prev) ∨
  (∃ i x y, s !! i = Some x ∧ s !! S i = Some y ∧
            d = y.1 ∧ r = change y.2 x.2).
Proof.
  revert prev. induction s as [|x s IH]; intros prev.
  { split; [by intros ?%elem_of_nil|]. intros [(x & ? & _)|(i & x & y & ? & _)]; done. }
  cbn [change_series]. rewrite elem_of_cons, IH. split.
  - intros [[= -> ->]|[(y & Hy & -> & ->)|(i & a & b & Ha & Hb & -> & ->)]].
    + left. by exists x.
    + right. exists 0%nat, x, y. split_and!; [done| |done..].
      by destruct s; simplify_eq/=.
    + right. by exists (S i), a, b.
  - intros [(y & [= <-] & -> & ->)|(i & a & b & Ha & Hb & -> & ->)]; [by left|].
    right. destruct i as [|i].
    + injection Ha as <-. left. exists b. split_and!; [|done..].
      cbn in Hb. by destruct s; simplify_eq/=.
    + right. by exists i, a, b.
Qed.

(** The returns reported, in terms of the series the changes are taken
    on. *)
Lemma elem_of_extremes pad (prices : Series) lower upper d r :
  (d, r) ∈ find_extreme_returns pad prices lower upper ↔
  ∃ i x y,
    (if pad then ffill_series NaN prices else prices) !! i = Some x ∧
    (if pad then ffill_series NaN prices else prices) !! S i = Some y ∧
    d = y.1 ∧ r = change y.2 x.2 ∧ outside lower upper r = true.
Proof.
  unfold find_extreme_returns, dropna, pct_change_series.
  rewrite !list_elem_of_filter, elem_of_change_series. cbn [snd]. split.
  - intros (Hn & Ho & [(x & _ & -> & ->)|(i & x & y & Hx & Hy & -> & ->)]).
    + by rewrite change_nan_r in Hn.
    + by exists i, x, y.
  - intros (i & x & y & Hx & Hy & -> & -> & Ho).
    split_and!; [by eapply outside_not_nan|done|]. right. by exists i, x, y.
Qed.

Lemma ffill_series_index prev (s : Series) : (ffill_series prev s).*1 = s.*1.
Proof.
  revert prev. induction s as [|x s IH]; intros prev; [done|].
  cbn [ffill_series]. by rewrite !fmap_cons, IH.
Qed.

Lemma extreme_dates_tail pad (prices : Series) lower upper d r :
  (d, r) ∈ find_extreme_returns pad prices lower upper → d ∈ tail prices.*1.
Proof.
  intros Hx. apply elem_of_extremes in Hx as (i & x & y & _ & Hy & -> & _).
  assert ((if pad then ffill_series NaN prices else prices).*1 = prices.*1)
    as Hidx by (destruct pad; [apply ffill_series_index|done]).
  apply (f_equal (λ l, l !! S i)) in Hidx.
  rewrite list_lookup_fmap, Hy in Hidx.
  destruct prices as [|p prices]; [done|]. cbn [tail].
  rewrite fmap_cons in Hidx. apply (list_elem_of_lookup_2 _ i).
  symmetry. exact Hidx.
Qed.

(** X25. Every return [find_extreme_returns] reports is a number below
    [lower] or above [upper]; the final [dropna] removes nothing; and a
    return is reported exactly when it is the change between two
    neighbouring prices of the series (forward-filled first where pandas
    fills by default) and lies outside the band, under the date of the
    later price: the first date of the series is never reported. *)
Theorem find_extreme_returns_outside_band pad (prices : Series)
    (lower upper : float) :
  find_extreme_returns pad prices lower upper =
    filter (λ x, outside lower upper x.2 = true) (pct_change_series pad prices) ∧
  Forall (λ x, isna x.2 = false ∧
               (fgt lower x.2 = true ∨ fgt x.2 upper = true))
    (find_extreme_returns pad prices lower upper) ∧
  (∀ d r, (d, r) ∈ find_extreme_returns pad prices lower upper ↔
     ∃ i x y,
       (if pad then ffill_series NaN prices else prices) !! i = Some x ∧
       (if pad then ffill_series NaN prices else prices) !! S i = Some y ∧
       d = y.1 ∧ r = change y.2 x.2 ∧ outside lower upper r = true) ∧
  (∀ d, d ∈ (find_extreme_returns pad prices lower upper).*1 →
        d ∈ tail prices.*1).
Proof.
  split_and!.
  - unfold find_extreme_returns, dropna.
    rewrite list_filter_filter. apply list_filter_iff. intros x.
    split; [by intros [_ ?]|]. intros Ho. split; [|done].
    by eapply outside_not_nan.
  - apply Forall_forall. intros [d r] Hin.
    apply elem_of_extremes in Hin as (i & x & y & _ & _ & _ & _ & Ho).
    cbn [snd]. split; [by eapply outside_not_nan|].
    unfold outside in Ho. by apply orb_true_iff in Ho.
  - apply elem_of_extremes.
  - intros d (x & -> & Hx)%list_elem_of_fmap. destruct x as [d r].
    by eapply extreme_dates_tail.
Qed.

(** ** The clean start *)

Lemma max_date_spec d ds :
  max_date d ds ∈ d :: ds ∧ Forall (λ e, e ≤ max_date d ds) (d :: ds).
Proof.
  unfold max_date. revert d. induction ds as [|e ds IH]; intros d.
  { split; [apply list_elem_of_here|]. constructor; [simpl; lia|constructor]. }
  cbn [foldl]. destruct (IH (Z.max d e)) as [Hin Hle]. split.
  - apply elem_of_cons in Hin as [->|Hin].
    + destruct (Z.max_spec d e) as [[_ ->]|[_ ->]].
      * apply list_elem_of_further, list_elem_of_here.
      * apply list_elem_of_here.
    + by do 2 apply list_elem_of_further.
  - inversion_clear Hle as [|? ? Hm Hds]. constructor; [lia|].
    constructor; [lia|done].
Qed.

Lemma day_ns_pos : 0 < day_ns.
Proof. done. Qed.

(** X26. [suggest_clean_start] suggests nothing exactly when no extreme
    date lies at or after the cutoff; a date it suggests is one day after
    an extreme date at or after the cutoff, and is later than every extreme
    date, those before the cutoff included. *)
Theorem suggest_clean_start_after_extremes (extreme_dates : list Timestamp)
    (search_from : Timestamp) :
  (suggest_clean_start extreme_dates search_from = None ↔
     Forall (λ d, d < search_from) extreme_dates) ∧
  (∀ start, suggest_clean_start extreme_dates search_from = Some start →
     start - day_ns ∈ extreme_dates ∧ search_from ≤ start - day_ns ∧
     Forall (λ d, d < start) extreme_dates).
Proof.
  unfold suggest_clean_start.
  destruct extreme_dates as [|d0 ds0] eqn:E; [by split|]. rewrite <- E. clear E.
  destruct (filter (λ d, search_from ≤ d) extreme_dates) as [|d ds] eqn:Ef.
  - split; [|done]. split; [|done]. intros _. apply Forall_forall. intros d Hd.
    destruct (decide (search_from ≤ d)) as [Hle|]; [|lia].
    assert (d ∈ filter (λ d, search_from ≤ d) extreme_dates) as Hin
      by (by apply list_elem_of_filter).
    rewrite Ef in Hin. by apply elem_of_nil in Hin.
  - destruct (max_date_spec d ds) as [Hin Hle]. rewrite <- Ef in Hin, Hle.
    apply list_elem_of_filter in Hin as [Hcut Hin]. split.
    + split; [done|]. intros Hall. rewrite Forall_forall in Hall.
      apply Hall in Hin. lia.
    + intros start [= <-]. replace (max_date d ds + day_ns - day_ns)
        with (max_date d ds) by lia.
      split_and!; [done..|]. apply Forall_forall. intros e He.
      pose proof day_ns_pos. destruct (decide (search_from ≤ e)) as [Hc|Hc]; [|lia].
      rewrite Forall_forall in Hle.
      assert (e ≤ max_date d ds); [|lia]. apply Hle.
      by apply list_elem_of_filter.
Qed.

Lemma rows_from_drop {A} start (l : list (Timestamp * A)) :
  ∃ k, rows_from start l = drop k l.
Proof.
  induction l as [|x l [k IH]]; [by exists 0%nat|]. cbn [rows_from].
  destruct (x.1 <? start); [by exists (S k)|by exists 0%nat].
Qed.

Lemma rows_from_ge {A} start (l : list (Timestamp * A)) :
  StronglySorted Z.le l.*1 → Forall (λ x, start ≤ x.1) (rows_from start l).
Proof.
  induction l as [|x l IH]; [done|]. rewrite fmap_cons. intros Hs.
  inversion_clear Hs as [|? ? Hs' Hx]. cbn [rows_from].
  destruct (Z.ltb_spec x.1 start) as [Hlt|Hge]; [by apply IH|].
  constructor; [done|]. rewrite Forall_fmap in Hx.
  eapply Forall_impl; [exact Hx|]. intros y. simpl. lia.
Qed.

Lemma ffill_series_weaker prev' prev (l : Series) :
  prev' = NaN ∨ prev' = prev →
  Forall2 (λ a b : Timestamp * float, a.1 = b.1 ∧ (a.2 = NaN ∨ a.2 = b.2))
    (ffill_series prev' l) (ffill_series prev l).
Proof.
  revert prev' prev. induction l as [|x l IH]; intros prev' prev Hp; [constructor|].
  cbn [ffill_series]. destruct (isna x.2).
  - constructor; [done|]. by apply IH.
  - constructor; [by split; [|right]|]. apply IH. by right.
Qed.

Lemma ffill_series_drop k prev (l : Series) :
  ∃ p, drop k (ffill_series prev l) = ffill_series p (drop k l).
Proof.
  revert prev l. induction k as [|k IH]; intros prev l; [by exists prev|].
  destruct l as [|x l]; [by exists prev|]. cbn [ffill_series drop]. apply IH.
Qed.

Lemma filled_suffix_weaker (pad : bool) k (s : Series) :
  Forall2 (λ a b : Timestamp * float, a.1 = b.1 ∧ (a.2 = NaN ∨ a.2 = b.2))
    (if pad then ffill_series NaN (drop k s) else drop k s)
    (drop k (if pad then ffill_series NaN s else s)).
Proof.
  destruct pad.
  - destruct (ffill_series_drop k NaN s) as [p ->].
    apply ffill_series_weaker. by left.
  - apply Forall2_same_length_lookup. split; [done|].
    intros i a b Ha Hb. rewrite Ha in Hb. injection Hb as <-. split; [done|by right].
Qed.

Lemma extremes_of_suffix pad k (s : Series) lower upper d r :
  (d, r) ∈ find_extreme_returns pad (drop k s) lower upper →
  (d, r) ∈ find_extreme_returns pad s lower upper.
Proof.
  rewrite !elem_of_extremes. intros (i & x' & y' & Hx' & Hy' & -> & -> & Ho).
  pose proof (filled_suffix_weaker pad k s) as Hw.
  destruct (Forall2_lookup_l _ _ _ _ _ Hw Hx') as (x & Hx & Hx1 & Hx2).
  destruct (Forall2_lookup_l _ _ _ _ _ Hw Hy') as (y & Hy & Hy1 & Hy2).
  rewrite lookup_drop in Hx, Hy.
  pose proof (outside_not_nan _ _ _ Ho) as Hn.
  apply change_not_nan in Hn as [Hny Hnx].
  destruct Hx2 as [Hx2|Hx2]; [by rewrite Hx2 in Hnx|].
  destruct Hy2 as [Hy2|Hy2]; [by rewrite Hy2 in Hny|].
  exists (k + i)%nat, x, y. rewrite <- Hx2, <- Hy2.
  split_and!; [done| |done..]. by rewrite <- Nat.add_succ_r.
Qed.

(** X27. The suggested start is clean: for a series in ascending date
    order, the part of the series from the date [suggest_clean_start]
    suggests for its extreme returns has no extreme return. *)
Theorem clean_start_is_clean pad (s : Series) (lower upper : float)
    (search_from start : Timestamp) :
  StronglySorted Z.le s.*1 →
  suggest_clean_start (find_extreme_returns pad s lower upper).*1 search_from
    = Some start →
  find_extreme_returns pad (rows_from start s) lower upper = [].
Proof.
  intros Hs Hstart.
  destruct (rows_from_drop start s) as [k Hk].
  destruct (find_extreme_returns pad (rows_from start s) lower upper)
    as [|[d r] ext] eqn:E; [done|]. exfalso.
  assert ((d, r) ∈ find_extreme_returns pad (rows_from start s) lower upper)
    as Hin by (rewrite E; apply list_elem_of_here).
  assert (start ≤ d) as Hge.
  { pose proof (extreme_dates_tail _ _ _ _ _ _ Hin) as Hd.
    pose proof (rows_from_ge start s Hs) as Hall.
    rewrite Forall_forall in Hall.
    destruct (rows_from start s) as [|x l]; [by apply elem_of_nil in Hd|].
    rewrite fmap_cons in Hd. cbn [tail] in Hd.
    apply list_elem_of_fmap in Hd as (y & -> & Hy).
    apply Hall. by apply list_elem_of_further. }
  rewrite Hk in Hin. apply extremes_of_suffix in Hin.
  assert (d < start); [|lia].
  pose proof day_ns_pos.
  unfold suggest_clean_start in Hstart.
  destruct ((find_extreme_returns pad s lower upper).*1) as [|d0 ds0] eqn:Ed;
    [done|]. rewrite <- Ed in Hstart.
  destruct (filter _ _) as [|e es] eqn:Ef in Hstart; [done|].
  injection Hstart as <-.
  destruct (max_date_spec e es) as [Hm Hle]. rewrite <- Ef in Hm, Hle.
  apply list_elem_of_filter in Hm as [Hcut _]. rewrite Forall_forall in Hle.
  destruct (decide (search_from ≤ d)) as [Hc|Hc]; [|lia].
  assert (d ≤ max_date e es); [|lia]. apply Hle.
  apply list_elem_of_filter. split; [done|].
  apply list_elem_of_fmap. by exists (d, r).
Qed.

(** ** The engine: the start date *)

Lemma clip_history_sorted (prices : DataFrame) start_date :
  StronglySorted Z.le (index (clip_history prices start_date)).
Proof.
  unfold clip_history, index. destruct start_date as [s|];
    cbn [rows sort_index loc_from]; [|apply sort_rows_sorted].
  pose proof (sort_rows_sorted (rows prices)) as Hs.
  induction (sort_rows (rows prices)) as [|x l IH]; [constructor|].
  cbn [rows_from]. destruct (x.1 <? s); [|done].
  apply IH. rewrite fmap_cons in Hs. by inversion Hs.
Qed.

(** X28. A start date is a slice taken beforehand: when the sorted price
    table has a row at or after the start date, running the backtest with
    the start date is running it, without one, on the rows from the start
    date on.  When it has none the two differ: the slice is refused as
    empty input, the start date is not. *)
Theorem start_date_is_a_slice pad (prices weights : DataFrame) (s : Timestamp) :
  empty prices = false →
  (rows (clip_history prices (Some s)) ≠ [] →
     run_backtest_fast_daily pad prices weights (Some s) =
     run_backtest_fast_daily pad (clip_history prices (Some s)) weights None) ∧
  (rows (clip_history prices (Some s)) = [] →
     run_backtest_fast_daily pad (clip_history prices (Some s)) weights None
       = Raise EmptyInput ∧
     run_backtest_fast_daily pad prices weights (Some s) ≠ Raise EmptyInput).
Proof.
  intros He. split.
  - intros Hr. unfold run_backtest_fast_daily at 1 2. rewrite He.
    assert (empty (clip_history prices (Some s)) = false) as ->.
    { unfold empty in *. cbn [columns clip_history loc_from sort_index] in *.
      destruct (rows (loc_from s (sort_index prices))); [done|].
      destruct (rows prices); [done|]. by destruct (columns prices). }
    assert (clip_history (clip_history prices (Some s)) None =
            clip_history prices (Some s)) as ->; [|done].
    unfold clip_history at 1. unfold sort_index.
    rewrite sort_rows_sorted_id by apply (clip_history_sorted prices (Some s)).
    by destruct (clip_history prices (Some s)).
  - intros Hr. split.
    + unfold run_backtest_fast_daily, empty. by rewrite Hr.
    + unfold run_backtest_fast_daily. rewrite He.
      unfold lagged_weights, reindex_index, index. rewrite Hr.
      cbn [fmap list_fmap]. repeat case_bool_decide; cbn [rbind]; try done.
      all: unfold reindex_columns; repeat case_bool_decide; cbn [rbind]; done.
Qed.

(** ** The cache store: a write that fails midway *)

(** X29. A write that fails midway is not undone.  Take a cache that holds
    a table for the key under stooq, the stooq endpoint answering, and a
    disk that fills up during the write, leaving the file cut short.  The
    fallback over stooq alone then fails with the error that names the key
    and carries the error of the writer, and the cache file of the key, a
    table before, is unreadable afterwards: reading the key raises. *)
Theorem failed_write_damages_cache :
  let path := normcase str_lower (raw_cache_path "stooq" "spy") in
  let fs : Store := {[path := Parquet cached2]} in
  let run :=
    _choose_provider_and_update stooq_registry stooq_afternoon yahoo_silent
      str_lower writes_cut_short date_column_refused "spy" ["stooq"] fs in
  read_cache str_lower date_column_refused "stooq" "spy" fs = Ok (Some cached2) ∧
  run.1 = Raise (RuntimeError "spy" (Some disk_full)) ∧
  run.2 !! path = Some (Damaged cut_short) ∧
  run.2 ≠ fs ∧
  read_cache str_lower date_column_refused "stooq" "spy" run.2 = Raise cut_short.
Proof.
  intros path fs run.
  assert (run = (Raise (RuntimeError "spy" (Some disk_full)),
                 <[path := Damaged cut_short]> fs)) as ->.
  { unfold run, _choose_provider_and_update. cbn [choose_loop].
    change (has_identifier stooq_registry "spy" "stooq") with (@Ok bool true).
    unfold update_cache. rewrite bool_decide_eq_true_2 by done.
    unfold update_cache_stooq, update_cache_with.
    assert (read_cache str_lower date_column_refused "stooq" "spy" fs
            = Ok (Some cached2)) as ->.
    { unfold read_cache, fs, path. rewrite lookup_singleton_eq.
      rewrite bool_decide_eq_false_2 by (by apply (bool_decide_unpack _)).
      done. }
    change (fetch_stooq_daily stooq_registry stooq_afternoon "spy")
      with (@Ok DataFrame (mkFrame ohlcv
              [(day_ns, [Fin 1; Fin 2; Fin (1 # 2); Fin (3 # 2); Fin 1000])])).
    cbv beta iota.
    rewrite merge_prices_Some
      by (split; [by apply (bool_decide_unpack _)|repeat constructor]).
    done. }
  cbn [fst snd]. split_and!.
  - unfold read_cache, fs, path. rewrite lookup_singleton_eq.
    rewrite bool_decide_eq_false_2 by (by apply (bool_decide_unpack _)).
    done.
  - done.
  - apply lookup_insert_eq.
  - intros E. apply (f_equal (λ m : Store, m !! path)) in E.
    rewrite lookup_insert_eq in E. unfold fs in E.
    rewrite lookup_singleton_eq in E. discriminate.
  - unfold read_cache. fold path. by rewrite lookup_insert_eq.
Qed.

(** ** The cache store: tables stay tables *)

Lemma merge_prices_table (existing : option DataFrame) (fresh m : DataFrame) :
  from_option table True existing → table fresh →
  merge_prices existing fresh = Ok m →
  table m ∧
  ∀ c, c ∈ columns m →
       c ∈ from_option columns [] existing ∨ c ∈ columns fresh.
Proof.
  intros He Hf Hm. destruct existing as [e|]; cbn [from_option] in *.
  - rewrite merge_prices_Some in Hm by done. injection Hm as <-.
    split; [by apply table_merged|]. intros c. cbn [columns].
    apply elem_of_joined_columns.
  - injection Hm as <-. split; [by apply table_fresh|]. intros c. auto.
Qed.

Section refresh.
Variable registry : list Asset.
Variable http_stooq : string → result (Frame raw).
Variable yf_download : string → result (option (Frame raw)).
Variable casefold : string → string.
Variable to_parquet : Path → DataFrame → option file → option (exn * option file).
Variable set_index_date : DataFrame → result DataFrame.

Hypothesis writer : residue_old_or_unreadable to_parquet.

#[local] Abbreviation refresh k p fs :=
  (update_cache registry http_stooq yf_download casefold to_parquet
     set_index_date p k fs).
#[local] Abbreviation fallback k pp fs :=
  (_choose_provider_and_update registry http_stooq yf_download casefold
     to_parquet set_index_date k pp fs).

Lemma read_cache_well_kept (provider k : string) (fs : Store) existing :
  map_Forall (λ _, well_kept) fs →
  read_cache casefold set_index_date provider k fs = Ok existing →
  from_option (λ df, table (A:=float) df ∧ "date" ∉ columns df) True existing.
Proof.
  intros Hfs. unfold read_cache.
  destruct (fs !! _) as [[stored|e]|] eqn:E; [| |by intros [= <-]]; [|done].
  destruct (Hfs _ _ E) as [Ht Hd].
  rewrite bool_decide_eq_false_2 by done. intros [= <-].
  split; [by apply table_fresh|done].
Qed.

Lemma update_cache_with_tables provider fetch k fs r fs' :
  (∀ x, fetch k = Ok x → table x ∧ "date" ∉ columns x) →
  map_Forall (λ _, well_kept) fs →
  update_cache_with casefold to_parquet set_index_date provider fetch k fs
    = (r, fs') →
  map_Forall (λ _, well_kept) fs' ∧
  ∀ df, r = Ok df → table df ∧ increasing (index df) ∧ "date" ∉ columns df.
Proof.
  intros Hfetch Hfs. unfold update_cache_with.
  destruct (read_cache _ _ _ _ fs) as [existing|e] eqn:Er;
    [|intros [= <- <-]; by split].
  pose proof (read_cache_well_kept _ _ _ _ Hfs Er) as He.
  destruct (fetch k) as [fresh|e] eqn:Ef; [|intros [= <- <-]; by split].
  destruct (Hfetch _ eq_refl) as [Hf Hfd].
  destruct (merge_prices existing fresh) as [m|e] eqn:Hm;
    [|intros [= <- <-]; by split].
  assert (table m ∧ "date" ∉ columns m) as [Htm Hmd].
  { destruct (merge_prices_table existing fresh m) as [Ht Hc]; [|done..|].
    - destruct existing; [apply He|done].
    - split; [done|]. intros [Hin|Hin]%Hc; [|done].
      destruct existing as [e|]; [by apply He|by apply elem_of_nil in Hin]. }
  pose proof (merge_prices_increasing _ _ _ Hm) as Hinc.
  unfold write_cache. rewrite normal_frame_id by done.
  destruct (to_parquet _ m _) as [[e residue]|] eqn:Ew.
  - intros [= <- <-]. split; [|done]. intros path f.
    destruct (decide (path = normcase casefold (raw_cache_path provider k)))
      as [->|Hne].
    + rewrite lookup_partial_alter_eq. intros ->.
      destruct (writer _ _ _ _ _ Ew) as [Hr|Hr].
      * symmetry in Hr. by apply (Hfs _ _ Hr).
      * by destruct (Hr f eq_refl) as [e' ->].
    + rewrite lookup_partial_alter_ne by done. apply Hfs.
  - intros [= <- <-]. split; [by apply map_Forall_insert_2|].
    intros ? [= <-]. done.
Qed.

Lemma update_cache_tables p k fs r fs' :
  map_Forall (λ _, well_kept) fs →
  refresh k p fs = (r, fs') →
  map_Forall (λ _, well_kept) fs' ∧
  ∀ df, r = Ok df → table df ∧ increasing (index df) ∧ "date" ∉ columns df.
Proof.
  intros Hfs. unfold update_cache, update_cache_stooq, update_cache_yahoo.
  repeat case_bool_decide; [| |intros [= <- <-]; by split];
    apply update_cache_with_tables; try done.
  - intros x Hx. apply fetch_stooq_daily_normalized in Hx as (Hc & ? & _).
    split; [done|]. rewrite Hc. by apply (bool_decide_unpack _).
  - intros x Hx. apply fetch_yahoo_daily_sorted in Hx as (Hc & ? & _).
    split; [done|].
    destruct Hc as [-> | ->]; by apply (bool_decide_unpack _).
Qed.

Lemma choose_loop_tables k pp last_err fs r fs' :
  map_Forall (λ _, well_kept) fs →
  choose_loop registry http_stooq yf_download casefold to_parquet
    set_index_date k pp last_err fs = (r, fs') →
  map_Forall (λ _, well_kept) fs' ∧
  ∀ p df, r = Ok (p, df) →
          table df ∧ increasing (index df) ∧ "date" ∉ columns df.
Proof.
  revert last_err fs. induction pp as [|q pp IH]; intros last_err fs Hfs.
  { intros [= <- <-]. split; [done|]. by intros ? ? [=]. }
  cbn [choose_loop].
  destruct (has_identifier registry k q) as [[|]|].
  - destruct (refresh k q fs) as [[d|e] fs1] eqn:Eu.
    + intros [= <- <-].
      destruct (update_cache_tables _ _ _ _ _ Hfs Eu) as [H1 H2].
      split; [done|]. intros p df [= <- <-]. by apply H2.
    + destruct (update_cache_tables _ _ _ _ _ Hfs Eu) as [H1 _]. by apply IH.
  - by apply IH.
  - intros [= <- <-]. split; [done|]. by intros ? ? [=].
Qed.

Lemma update_all_loop_tables keys pp used fs r fs' :
  map_Forall (λ _, well_kept) fs →
  update_all_loop registry http_stooq yf_download casefold to_parquet
    set_index_date keys pp used fs = (r, fs') →
  map_Forall (λ _, well_kept) fs'.
Proof.
  revert used fs. induction keys as [|k keys IH]; intros used fs Hfs.
  { by intros [= <- <-]. }
  cbn [update_all_loop].
  destruct (fallback k pp fs) as [[[p df]|e] fs1] eqn:Ec.
  - unfold _choose_provider_and_update in Ec.
    destruct (choose_loop_tables _ _ _ _ _ _ Hfs Ec) as [H1 _]. by apply IH.
  - unfold _choose_provider_and_update in Ec.
    destruct (choose_loop_tables _ _ _ _ _ _ Hfs Ec) as [H1 _].
    by intros [= <- <-].
Qed.


End refresh.

End further.

(** * Instances of the further properties *)

Section further_at_numpy_quicksort.

#[local] Existing Instance numpy_quicksort.

Lemma safe_key_spy : safe_key "spy".
Proof. repeat constructor; by apply (bool_decide_unpack _). Qed.

Lemma filename_is_safe_witness :
  safe_key "spy" ∧ _asset_key_to_filename "spy" = "spy".
Proof.
  split; [exact safe_key_spy|].
  exact (proj2 (proj2 (proj2 (filename_is_safe "spy"))) safe_key_spy).
Defined.

Lemma safe_key_SPY : safe_key "SPY".
Proof. repeat constructor; by apply (bool_decide_unpack _). Qed.

Lemma cache_paths_coincide_witness :
  safe_key "SPY" ∧ safe_key "spy" ∧
  normcase str_lower (raw_cache_path "stooq" "SPY")
    = normcase str_lower (raw_cache_path "stooq" "spy").
Proof.
  split; [exact safe_key_SPY|]. split; [exact safe_key_spy|].
  exact (proj2 (proj1 (proj2 (cache_paths_coincide "stooq" "stooq" "SPY" "spy"))
                  safe_key_SPY safe_key_spy)
           (conj eq_refl eq_refl)).
Defined.

Lemma get_asset_last_listed_witness :
  NoDup (list_asset_keys yahoo_registry) ∧
  "spy" ∈ list_asset_keys_by_kind yahoo_registry {["etf"]} ∧
  ∃ a, get_asset yahoo_registry "spy" = Ok a ∧ kind a ∈ ({["etf"]} : gset string).
Proof.
  assert (NoDup (list_asset_keys yahoo_registry)) as Hnd
    by (by apply (bool_decide_unpack _)).
  assert ("spy" ∈ list_asset_keys_by_kind yahoo_registry {["etf"]}) as Hin
    by (by apply (bool_decide_unpack _)).
  split; [exact Hnd|]. split; [exact Hin|].
  exact (proj2 (proj2 (proj2 (proj2 (get_asset_last_listed yahoo_registry))))
           {["etf"]} "spy" Hnd Hin).
Defined.

Lemma identifier_lookups_agree_witness :
  "spy" ∈ list_asset_keys yahoo_registry ∧
  ∃ b, has_identifier yahoo_registry "spy" "yahoo" = Ok b ∧
       (b = true ↔ ∃ sym, get_identifier yahoo_registry "spy" "yahoo" = Ok sym).
Proof.
  assert ("spy" ∈ list_asset_keys yahoo_registry) as Hin
    by (by apply (bool_decide_unpack _)).
  split; [exact Hin|].
  destruct (proj2 (identifier_lookups_agree yahoo_registry "spy" "yahoo") Hin)
    as (b & H1 & H2 & _).
  exists b. auto.
Defined.

Lemma read_cache_sorted_unique_witness :
  NoDup (index fetched2) ∧
  ∃ df,
    read_cache str_lower date_column_refused "stooq" "spy"
      {[normcase str_lower (raw_cache_path "stooq" "spy") := Parquet fetched2]}
      = Ok (Some df) ∧
    increasing (index df) ∧
    ∀ t, assoc t (rows df) = assoc t (rows fetched2).
Proof.
  assert (NoDup (index fetched2)) as Hnd by (by apply (bool_decide_unpack _)).
  split; [exact Hnd|].
  destruct (proj2 (proj2 (read_cache_sorted_unique str_lower date_column_refused
                            "stooq" "spy"
                            {[normcase str_lower (raw_cache_path "stooq" "spy")
                                := Parquet fetched2]}))
              fetched2 (lookup_singleton_eq _ _) fetched2 eq_refl)
    as (df & Hr & _ & Hinc & _ & _ & _ & Hb).
  exists df. split; [exact Hr|]. split; [exact Hinc|exact (Hb Hnd)].
Defined.

Lemma no_date_column_cached2 : "date" ∉ columns cached2.
Proof. by apply (bool_decide_unpack _). Qed.

Lemma write_cache_then_read_witness :
  (write_cache str_lower writes_succeed "stooq" "spy" cached2 ∅).1 = Ok () ∧
  ("date" ∉ columns cached2) ∧
  increasing (index cached2) ∧
  read_cache str_lower date_column_refused "stooq" "spy"
    (write_cache str_lower writes_succeed "stooq" "spy" cached2 ∅).2
    = Ok (Some cached2).
Proof.
  assert (increasing (index cached2)) as Hinc
    by (repeat constructor; lia).
  split; [reflexivity|]. split; [exact no_date_column_cached2|].
  split; [exact Hinc|].
  destruct (proj2 (proj2 (write_cache_then_read str_lower writes_succeed
                            date_column_refused "stooq" "spy" cached2 ∅))
              eq_refl) as (_ & H).
  exact (proj2 (H no_date_column_cached2) Hinc).
Defined.

Lemma stooq_update_spy :
  update_cache stooq_registry stooq_afternoon yahoo_silent str_lower writes_succeed
    date_column_refused "stooq" "spy" ∅ =
  (Ok (mkFrame ohlcv
         [(day_ns, [Fin 1; Fin 2; Fin (1 # 2); Fin (3 # 2); Fin 1000])]),
   {[normcase str_lower (raw_cache_path "stooq" "spy") :=
       Parquet (mkFrame ohlcv
         [(day_ns, [Fin 1; Fin 2; Fin (1 # 2); Fin (3 # 2); Fin 1000])])]}).
Proof. by rewrite <- insert_empty. Qed.

Lemma update_cache_commits_what_it_returns_witness :
  ∃ df fs',
    update_cache stooq_registry stooq_afternoon yahoo_silent str_lower
      writes_succeed date_column_refused "stooq" "spy" ∅ = (Ok df, fs') ∧
    increasing (index df) ∧
    fs' !! normcase str_lower (raw_cache_path "stooq" "spy") = Some (Parquet df).
Proof.
  eexists _, _. split; [exact stooq_update_spy|].
  destruct (update_cache_commits_what_it_returns _ _ _ _ _ _ _ _ _ _ _
              stooq_update_spy) as (_ & _ & H1 & H2 & _).
  split; [exact H1|]. rewrite H2. apply lookup_insert_eq.
Defined.

Lemma yahoo_fallback_spy :
  _choose_provider_and_update yahoo_registry stooq_down yahoo_afternoon str_lower
    writes_succeed date_column_refused "spy" ["stooq"; "yahoo"] ∅ =
  (Ok ("yahoo",
       mkFrame ohlcv
         [(afternoon, [Fin 1; Fin 2; Fin (1 # 2); Fin (3 # 2); Fin 1000])]),
   {[normcase str_lower (raw_cache_path "yahoo" "spy") :=
       Parquet (mkFrame ohlcv
         [(afternoon, [Fin 1; Fin 2; Fin (1 # 2); Fin (3 # 2); Fin 1000])])]}).
Proof. by rewrite <- insert_empty. Qed.

Lemma fallback_commits_first_success_witness :
  ∃ df fs',
    _choose_provider_and_update yahoo_registry stooq_down yahoo_afternoon str_lower
      writes_succeed date_column_refused "spy" ["stooq"; "yahoo"] ∅
      = (Ok ("yahoo", df), fs') ∧
    has_identifier yahoo_registry "spy" "yahoo" = Ok true ∧
    fs' !! normcase str_lower (raw_cache_path "yahoo" "spy") = Some (Parquet df).
Proof.
  eexists _, _. split; [exact yahoo_fallback_spy|].
  destruct (fallback_commits_first_success _ _ _ _ _ _ _ _ _ _ _ _
              yahoo_fallback_spy) as (before & after & _ & H1 & H2 & _).
  split; [exact H1|exact H2].
Defined.

Lemma yahoo_fallback_fails :
  _choose_provider_and_update yahoo_registry stooq_down yahoo_silent str_lower
    writes_succeed date_column_refused "spy" ["stooq"; "yahoo"] ∅ =
  (Raise (RuntimeError "spy" (Some NoYahooData)), ∅).
Proof. reflexivity. Qed.


Lemma update_all_prices_outcomes_witness :
  (update_all_prices yahoo_registry stooq_down yahoo_afternoon str_lower
     writes_succeed date_column_refused None ∅).1 = Ok {["spy" := "yahoo"]} ∧
  ∀ k, is_Some (({["spy" := "yahoo"]} : gmap string string) !! k)
       ↔ k ∈ list_asset_keys yahoo_registry.
Proof.
  assert ((update_all_prices yahoo_registry stooq_down yahoo_afternoon str_lower
             writes_succeed date_column_refused None ∅).1
          = Ok {["spy" := "yahoo"]}) as Hr
    by (by rewrite <- insert_empty).
  split; [exact Hr|].
  exact (proj1 (proj1 (proj2 (update_all_prices_outcomes yahoo_registry
                                stooq_down yahoo_afternoon str_lower writes_succeed
                                date_column_refused None ∅)) _ Hr)).
Defined.

Lemma dated_table_w3_late : dated_table
  (mkFrame ["spy"] [(0, [Fin 1]); (1, [Fin 1]); (2, [Fin 5])]).
Proof.
  split; [by apply (bool_decide_unpack _)|].
  split; [by apply (bool_decide_unpack _)|repeat constructor].
Qed.

Lemma weights_off_axes_never_matter_witness :
  empty px3 = false ∧ dated_table w3 ∧
  run_backtest_fast_daily false px3 w3 None =
  run_backtest_fast_daily false px3
    (mkFrame ["spy"] [(0, [Fin 1]); (1, [Fin 1]); (2, [Fin 5])]) None.
Proof.
  split; [reflexivity|]. split; [exact dated_table_w3|].
  apply weights_off_axes_never_matter;
    [reflexivity|exact dated_table_w3|exact dated_table_w3_late|].
  intros i t c Hi Hs Hc. apply list_elem_of_singleton in Hc as ->.
  destruct i as [|[|[|i]]]; cbn in Hi, Hs.
  - by injection Hi as <-.
  - by injection Hi as <-.
  - by destruct Hs.
  - done.
Defined.

Lemma dated_table_no_weights : dated_table (mkFrame (A:=float) ["spy"] []).
Proof. split; [constructor|]. split; [by apply (bool_decide_unpack _)|constructor]. Qed.

Lemma zero_weights_flat_equity_witness :
  empty px3 = false ∧ dated_table (mkFrame (A:=float) ["spy"] []) ∧
  run_backtest_fast_daily false px3 (mkFrame ["spy"] []) None =
    Ok [(0, Fin 1); (1, Fin 1); (2, Fin 1)].
Proof.
  split; [reflexivity|]. split; [exact dated_table_no_weights|].
  exact (zero_weights_flat_equity false px3 (mkFrame ["spy"] []) None
           eq_refl dated_table_no_weights (λ _ _ _ _, eq_refl)).
Defined.

Lemma curve_starts_at_first_date_witness :
  empty px3 = false ∧ dated_table w3 ∧
  index (clip_history px3 (Some 1)) !! 0%nat = Some 1 ∧
  ∃ e, run_backtest_fast_daily false px3 w3 (Some 1) = Ok e ∧
       head e = Some (1, Fin 1).
Proof.
  split; [reflexivity|]. split; [exact dated_table_w3|]. split; [reflexivity|].
  exact (curve_starts_at_first_date false px3 w3 (Some 1) 1
           eq_refl dated_table_w3 eq_refl).
Defined.

Lemma price_row_order_irrelevant_witness :
  NoDup (index px3) ∧
  run_backtest_fast_daily false
    (mkFrame ["spy"] [(2, [Fin 121]); (0, [Fin 100]); (1, [Fin 110])]) w3 None =
  run_backtest_fast_daily false px3 w3 None.
Proof.
  assert (NoDup (index px3)) as Hnd by (by apply (bool_decide_unpack _)).
  split; [exact Hnd|].
  apply price_row_order_irrelevant; [reflexivity| |exact Hnd].
  cbn [rows px3]. by rewrite (Permutation_cons_append _ (2, [Fin 121])).
Defined.

Lemma prices_after_a_date_never_reach_back_witness :
  empty (history_upto 1 px3) = false ∧ NoDup (index px3) ∧ dated_table w3 ∧
  ∃ e et,
    run_backtest_fast_daily false px3 w3 None = Ok e ∧
    run_backtest_fast_daily false (history_upto 1 px3) w3 None = Ok et ∧
    filter (λ x, x.1 ≤ 1) e = et.
Proof.
  assert (NoDup (index px3)) as Hnd by (by apply (bool_decide_unpack _)).
  split; [reflexivity|]. split; [exact Hnd|]. split; [exact dated_table_w3|].
  exact (prices_after_a_date_never_reach_back false px3 w3 None 1
           eq_refl Hnd dated_table_w3).
Defined.

Lemma dated_table_cached2 : dated_table cached2.
Proof. split; [by apply (bool_decide_unpack _)|exact table_cached2]. Qed.

Lemma dated_table_fetched2 : dated_table fetched2.
Proof. split; [by apply (bool_decide_unpack _)|exact table_fetched2]. Qed.

Lemma merge_prices_whatever_the_order_witness :
  dated_table cached2 ∧ dated_table fetched2 ∧ (1 ∉ index fetched2) ∧
  ∃ merged,
    merge_prices (Some cached2) fetched2 = Ok merged ∧
    increasing (index merged) ∧
    value merged 1 "close" = value cached2 1 "close".
Proof.
  assert (1 ∉ index fetched2) as Hn by (by apply (bool_decide_unpack _)).
  split; [exact dated_table_cached2|]. split; [exact dated_table_fetched2|].
  split; [exact Hn|].
  destruct (merge_prices_whatever_the_order (Some cached2) fetched2
              dated_table_cached2 dated_table_fetched2)
    as (m & Hm & Hinc & _ & _ & _ & He & _).
  exists m. split; [exact Hm|]. split; [exact Hinc|].
  exact (He cached2 1 "close" eq_refl Hn).
Defined.

Lemma stooq_fetch_spy :
  fetch_stooq_daily stooq_registry stooq_afternoon "spy" =
    Ok (mkFrame ohlcv
          [(day_ns, [Fin 1; Fin 2; Fin (1 # 2); Fin (3 # 2); Fin 1000])]).
Proof. reflexivity. Qed.

Lemma fetch_stooq_daily_contract_witness :
  ∃ x, fetch_stooq_daily stooq_registry stooq_afternoon "spy" = Ok x ∧
       columns x = ohlcv ∧ Forall (λ t, time_of_day t = 0) (index x).
Proof.
  eexists. split; [exact stooq_fetch_spy|].
  destruct (proj2 (proj2 (fetch_stooq_daily_contract stooq_registry
                            stooq_afternoon "spy")) _ stooq_fetch_spy)
    as (H1 & H2 & _).
  split; [exact H1|exact H2].
Defined.

Lemma yahoo_fetch_spy :
  fetch_yahoo_daily yahoo_registry yahoo_afternoon "spy" =
    Ok (mkFrame ohlcv
          [(afternoon, [Fin 1; Fin 2; Fin (1 # 2); Fin (3 # 2); Fin 1000])]).
Proof. reflexivity. Qed.

Lemma fetch_yahoo_daily_contract_witness :
  (∃ x, fetch_yahoo_daily yahoo_registry yahoo_afternoon "spy" = Ok x ∧
        StronglySorted Z.le (index x)) ∧
  get_identifier yahoo_registry "spy" "yahoo" = Ok "SPY" ∧
  fetch_yahoo_daily yahoo_registry yahoo_silent "spy" = Raise NoYahooData.
Proof.
  split; [|split; [reflexivity|]].
  - eexists. split; [exact yahoo_fetch_spy|].
    exact (proj1 (proj2 (proj2 (proj2 (fetch_yahoo_daily_contract yahoo_registry
                                         yahoo_afternoon "spy"))) _
                    yahoo_fetch_spy)).
  - exact (proj1 (proj2 (proj2 (fetch_yahoo_daily_contract yahoo_registry
                                  yahoo_silent "spy"))) "SPY" eq_refl
             (or_introl eq_refl)).
Defined.

Lemma select_price_field_cases_witness :
  table cached2 ∧ ("adj_close" ∉ columns cached2) ∧ "close" ∈ columns cached2 ∧
  _select_price_field cached2 "adj_close" =
    Ok (mkFrame ["close"] [(1, [Fin 11]); (2, [Fin 12])]).
Proof.
  assert ("adj_close" ∉ columns cached2) as Hn
    by (by apply (bool_decide_unpack _)).
  assert ("close" ∈ columns cached2) as Hc
    by (by apply (bool_decide_unpack _)).
  split; [exact table_cached2|]. split; [exact Hn|]. split; [exact Hc|].
  exact (proj1 (proj2 (select_price_field_cases cached2 "adj_close"
                         table_cached2)) Hn eq_refl Hc).
Defined.

Lemma px_trend_distinct :
  empty px_trend = false ∧ NoDup (index px_trend) ∧
  NoDup (columns px_trend) ∧ columns px_trend ≠ [].
Proof.
  split; [reflexivity|].
  split; [by apply (bool_decide_unpack _)|].
  split; [by apply (bool_decide_unpack _)|done].
Qed.


Lemma sma_weights_by_day_rows_witness :
  NoDup (index px_trend) ∧ NoDup (columns px_trend) ∧ columns px_trend ≠ [] ∧
  ∃ W, sma_trend_weights_by_day px_trend 2 = Ok W ∧
       index W = index (sort_index px_trend).
Proof.
  destruct px_trend_distinct as (_ & Hi & Hc & Hn).
  split; [exact Hi|]. split; [exact Hc|]. split; [exact Hn|].
  destruct (proj2 (proj2 (proj2 (sma_weights_by_day_rows px_trend 2))) Hi Hc Hn)
    as (W & H1 & _ & H2 & _).
  exists W. auto.
Defined.

Lemma sma_weights_never_look_ahead_witness :
  NoDup (index px_trend) ∧ NoDup (columns px_trend) ∧ columns px_trend ≠ [] ∧
  ∃ W, sma_trend_weights_by_day px_trend 2 = Ok W ∧
       sma_trend_weights_by_day (history_upto 1 px_trend) 2
         = Ok (history_upto 1 W).
Proof.
  destruct px_trend_distinct as (_ & Hi & Hc & Hn).
  split; [exact Hi|]. split; [exact Hc|]. split; [exact Hn|].
  exact (sma_weights_never_look_ahead 1 px_trend 2 Hi Hc Hn).
Defined.

Lemma strategy_backtest_never_looks_ahead_witness :
  empty (history_upto 2 px_trend) = false ∧
  NoDup (index px_trend) ∧ NoDup (columns px_trend) ∧
  ∃ e et,
    backtest false 2 "sma_trend" px_trend None = Ok e ∧
    backtest false 2 "sma_trend" (history_upto 2 px_trend) None = Ok et ∧
    filter (λ x, x.1 ≤ 2) e = et.
Proof.
  destruct px_trend_distinct as (_ & Hi & Hc & _).
  split; [reflexivity|]. split; [exact Hi|]. split; [exact Hc|].
  exact (strategy_backtest_never_looks_ahead false 2 px_trend None 2
           eq_refl Hi Hc).
Defined.

Lemma strategy_warm_up_witness :
  empty px_trend = false ∧ NoDup (index px_trend) ∧ NoDup (columns px_trend) ∧
  (length (filter (λ d, (d ≤ 1)%Z) (index px_trend)) ≤ 2)%nat ∧
  ∃ e, backtest false 2 "sma_trend" px_trend None = Ok e ∧
       ∀ d v, (d, v) ∈ e → d ≤ 1 → v = Fin 1.
Proof.
  destruct px_trend_distinct as (He & Hi & Hc & _).
  assert (length (filter (λ d, (d ≤ 1)%Z) (index px_trend)) ≤ 2)%nat as Hn
    by (vm_compute; lia).
  split; [exact He|]. split; [exact Hi|]. split; [exact Hc|]. split; [exact Hn|].
  exact (strategy_warm_up false 2 px_trend None 1 He Hi Hc Hn).
Defined.

Lemma s_jump_extremes :
  find_extreme_returns false s_jump band_lower band_upper =
    [(1, Fin 1); (3, Fin (-4 # 7))].
Proof. reflexivity. Qed.

Lemma find_extreme_returns_outside_band_witness :
  1 ∈ (find_extreme_returns false s_jump band_lower band_upper).*1 ∧
  1 ∈ tail s_jump.*1.
Proof.
  assert (1 ∈ (find_extreme_returns false s_jump band_lower band_upper).*1)
    as Hin by (rewrite s_jump_extremes; apply list_elem_of_here).
  split; [exact Hin|].
  exact (proj2 (proj2 (proj2 (find_extreme_returns_outside_band false s_jump
                                band_lower band_upper))) 1 Hin).
Defined.

Lemma clean_start_after_jumps :
  suggest_clean_start
    (find_extreme_returns false s_jump band_lower band_upper).*1 0
  = Some (3 + day_ns).
Proof. reflexivity. Qed.

Lemma suggest_clean_start_after_extremes_witness :
  suggest_clean_start [1; 3] 0 = Some (3 + day_ns) ∧
  Forall (λ d, d < 3 + day_ns) [1; 3].
Proof.
  split; [reflexivity|].
  exact (proj2 (proj2 (proj2 (suggest_clean_start_after_extremes [1; 3] 0)
                         (3 + day_ns) eq_refl))).
Defined.

Lemma clean_start_is_clean_witness :
  StronglySorted Z.le s_jump.*1 ∧
  find_extreme_returns false (rows_from (3 + day_ns) s_jump)
    band_lower band_upper = [].
Proof.
  assert (StronglySorted Z.le s_jump.*1) as Hs
    by (repeat constructor; simpl; lia).
  split; [exact Hs|].
  exact (clean_start_is_clean false s_jump band_lower band_upper 0
           (3 + day_ns) Hs clean_start_after_jumps).
Defined.

Lemma start_date_is_a_slice_witness :
  empty px3 = false ∧ rows (clip_history px3 (Some 1)) ≠ [] ∧
  run_backtest_fast_daily false px3 w3 (Some 1) =
  run_backtest_fast_daily false (clip_history px3 (Some 1)) w3 None.
Proof.
  assert (rows (clip_history px3 (Some 1)) ≠ []) as Hr by done.
  split; [reflexivity|]. split; [exact Hr|].
  exact (proj1 (start_date_is_a_slice false px3 w3 1 eq_refl) Hr).
Defined.

Lemma failed_write_damages_cache_witness :
  (_choose_provider_and_update stooq_registry stooq_afternoon yahoo_silent
     str_lower writes_cut_short date_column_refused "spy" ["stooq"]
     {[normcase str_lower (raw_cache_path "stooq" "spy") := Parquet cached2]}).2
    !! normcase str_lower (raw_cache_path "stooq" "spy")
  = Some (Damaged cut_short).
Proof.
  pose proof (failed_write_damages_cache (sort_kind := numpy_quicksort)) as H.
  cbv zeta in H. exact (proj1 (proj2 (proj2 H))).
Defined.

Lemma writes_succeed_leave_files : residue_old_or_unreadable writes_succeed.
Proof. intros path df old e residue. discriminate. Qed.


End further_at_numpy_quicksort.
